(* ===== verification/_CoqProject ===== *)
-Q . S2P
Prelude.v
RustStd.v
Nom.v
Stacks.v
Crane.v
CrateParser.v
Day05Run.v
Day04.v
Day02.v
Day06.v
Day03.v
Day01.v
