(* ===== verification/Prelude.v ===== *)
(** * Verification of mdacach/advent_of_code_2022 (days 01 to 06)

    The repository is six independent Rust programs, one crate per
    puzzle day ([src/day_0N/src/main.rs]).  Each reads one embedded text
    file with [include_str!], parses it line by line and prints one
    number (or the debug form of a value).  They share no state; the only
    interaction between parts of the program is the call structure inside
    each day, and the shared use of the Rust standard library, itertools
    and nom.  This development models every function of every day as a
    pure Rocq function of the embedded input, with panics and [Result]
    errors made explicit, and proves what each function computes.

    ** Conventions (this file, [Prelude])
    - A Rust [&str] is a [list ascii] ([str]); inputs are ASCII, so
      [chars()] and [bytes()] coincide with the list of characters.
    - A computation that may panic returns [option]: [None] is a panic
      (an [unwrap] of [None]/[Err], an out-of-bounds index, an arithmetic
      overflow in a debug build).  The notation [x <-! o ;; k] threads it.
    - A Rust [Result<T, E>] is [Result T E] with constructors [Ok]/[Err];
      [x <-? r ;; k] is the [?] operator.
    - Fixed-width unsigned integers ([u8], [u32], [u64], [usize]) are [N]
      with the width checked where the code can overflow ([checked_add]
      below is the debug-build [+], which panics on overflow).

    ** Files (in dependency order, as [_CoqProject] lists them)
    - [Prelude]: this header, the result type and the three monad
      notations (scope [rust_scope]), the hint database [rust], the
      tactics [inv_bind] and [reflect_N], and generic lemmas on lists,
      options and fixed-width numbers ([list_triples_ind] reads a list
      three elements at a time, as itertools [tuples] does).
    - [RustStd]: the library behaviour the days rely on, modelled from
      the Rust documentation: [str::lines], [split], [split_whitespace],
      [u32]/[u64] [from_str] with its [IntErrorKind]s, [VecDeque]
      push/pop, [slice::windows], [Iterator::position] and [find],
      itertools [collect_tuple].  None of it is code of the repository,
      so none of it is in the map; its lemmas ([lines_unlines_app],
      [from_str_uint_show], [windows_lookup], [position_Some], ...) are
      the facts every day file uses.
    - [Nom]: the nom 7 combinators used by day 05 ([tag], [take],
      [delimited], [preceded], [map], [alt], [opt], [all_consuming]).
    - [Stacks] (Module [MySolution]): day 05 [mod my_solution]: [Move],
      [Move::from_str], [State], [State::new], [add_to_front_of_stack],
      [perform_move], [perform_batch_move], [get_topmost_crates], the
      grid-reading loop and [main] ([main_with] takes the number of
      stacks [main] hard-codes), each against a reference [move_ref],
      and the consequences that set the two move methods apart.
    - [Crane] (Module [Cranes]): a [Crane] class states what a move
      semantics promises (the reference [move_ref] parameterised by how
      the block is arranged); both methods are instances, and the
      invariant of the step relation [crane_step] (stack count and the
      multiset of crates) and the absence of panics on valid moves are
      proved once against the class.
    - [CrateParser] (Module [CrateParser]): day 05 top-level [main] and
      its nom parsers [parse_crate], [parse_hole], [parse_crate_or_hole],
      [parse_crate_line]; the theorem that links it with the
      position-based reader of [Stacks].
    - [Day05Run] (Module [Day05Run]): the composition of the three
      previous files: [main_with] on an input drawn from rows of crates,
      a label line and moves computes the stacks read column by column
      and moved by [batch_ref]; and the type invariant of [State]
      ([state_wf]: [n] stacks of letters), kept by every step of
      [main_with]; and what the top-level [main] of [CrateParser]
      keeps of that input.  Its definitions ([drawing_stacks], [render_input],
      [run_moves], ...) describe the input and the expected answer and
      model no code.
    - [Day04]: [Range], [Assignment] and their [FromStr], [mine] over
      [process_results], the [RangeInclusiveExt] trait as a [Class] with
      its provided methods and its instance, and the [u32] [main].
    - [Day02]: the rock-paper-scissors enums, the searches of
      [Move::ALL_MOVES], [Round::from_str], [get_score] and [main].
    - [Day06]: [all_different] over a [gset] and the [windows(14)]
      search of [main].
    - [Day03]: [Item] ([From<u8>], [priority]), [solve_for_group] and
      [main] over [HashSet]s, in a Section whose [order] variable is the
      unspecified iteration order of a [HashSet].
    - [Day01]: the [batching] closure, [sorted], [rev], [take(3)] and the
      [u64] sum of [main].
    ** What the theorems show
    - Day 05: the batch move keeps the block's order and the single move
      reverses it (both against [move_ref]); valid moves never panic and
      oversized ones do (except the single move onto the same stack);
      the crate count and multiset are invariant along every run; the nom
      row parser accepts exactly the drawn rows; the position reader and
      the nom parser agree; [Move::from_str] reads back rendered moves;
      the whole of [main_with] refines reading the columns bottom-up and
      running [batch_ref] on each move, and whatever the input, what it
      prints has one letter per stack; on the same input the nom-based
      top-level [main] keeps exactly the drawn rows and drops the label,
      blank and move lines; [main] itself, with its nine hard-coded
      stacks, panics on every input drawn with at most eight stacks
      whose moves never reach stack 9 (the puzzle's example included).
    - Day 04: each test's set meaning on ranges written low to high, the
      agreement of [mine] and [main] on such inputs with bounds below
      [2^32], and where they differ: [main]'s test is weaker on every
      backward range, [main] panics on any bound past [u32::MAX] that
      [mine] reads, and [mine] returns the first parse error after any
      good lines, whatever follows.
    - Day 02: [matching_move] picks the one move reaching the outcome;
      [main] sums the closed-form scores, and a bad letter after any
      good lines makes it panic.
    - Day 06: [all_different] decides [NoDup]; [main] returns the end of
      the first window of distinct characters, or nothing.
    - Day 03: [priority] numbers the letters 1 to 52; [main] does not
      depend on the [HashSet] order when every group has at most one
      common item, and for every group with two common items two orders
      give different sums; [solve_for_group] agrees with it.
    - Day 01: [main] prints the largest sum of three blocks; a second
      blank line ends the reading; it panics exactly when a block's
      running sum or the sum of some three blocks passes [u64::MAX].
    ** Bounds and fuel
    - Integers keep their Rust width where the code adds or subtracts:
      [u64] sums ([checked_add 64]) panic on overflow, [u8]/[u64]
      subtractions ([checked_sub]) below zero.  The functional theorems
      assume the totals fit (for example [9 n < 2^64] for [n] lines of
      day 02), and the overflow examples show the panics.
    - Loops that are not structural run on fuel.  [crate_line_loop] and
      [Day01.batching] get [1 + length] of their input and close with a
      theorem that any larger fuel gives the same result, since each
      round consumes input.  The number printer [show_digits] gets the
      bit size of the number, enough because each round divides by ten
      ([show_digits_value]).
    ** Not modelled
    - Printing ([println!], [dbg!]) and [include_str!]: each [main] is a
      function of the input text returning what is printed.
    - [color_eyre::install] and the [Report] error type: an error is a
      value, its report text is not.
    - The Rust, itertools and nom libraries themselves: modelled from
      their documentation in [RustStd] and [Nom], not verified. *)

From stdpp Require Export base list strings.
From Stdlib Require Export Ascii NArith Lia.

Declare Scope rust_scope.
Delimit Scope rust_scope with rust.
Open Scope rust_scope.

(** A Rust [&str] / [String], as the characters it holds. *)
Abbreviation str := (list ascii).

(** Rust [Result<T, E>]. *)
Inductive Result (T E : Type) : Type :=
| Ok (v : T)
| Err (e : E).
Arguments Ok {T E} v.
Arguments Err {T E} e.

(** [x <-? r ;; k] is [let x = r?; k]: an [Err] is returned as is. *)
Notation "x <-? r ;; k" :=
  (match r with Ok x => k | Err e => Err e end)
  (at level 60, r at next level, right associativity) : rust_scope.

(** [x <-! o ;; k] runs [k] on the value of [o]; [None] is a panic that
    aborts the whole program, so it propagates. *)
Notation "x <-! o ;; k" :=
  (match o with Some x => k | None => None end)
  (at level 60, o at next level, right associativity) : rust_scope.

(** [x <-?! r ;; k] is [let x = r?; k] inside a function that returns a
    [Result] and may also panic. *)
Notation "x <-?! r ;; k" :=
  (match r with Ok x => k | Err e => Some (Err e) end)
  (at level 60, r at next level, right associativity) : rust_scope.

(** [Result::unwrap] / [Result::ok]: a panic on [Err], the value on [Ok]. *)
Definition ok {T E} (r : Result T E) : option T :=
  match r with Ok v => Some v | Err _ => None end.

(** The string literal [s] as a [str]. *)
Definition s2l (s : string) : str := String.list_ascii_of_string s.

(** ** Fixed-width unsigned arithmetic *)

Section Arith.
Local Open Scope N_scope.

(** [2 ^ w]: the first value that does not fit in a [w]-bit integer. *)
Definition modulus (w : N) : N := 2 ^ w.

(** Debug-build [a + b] on [uW]: panics on overflow. *)
Definition checked_add (w : N) (a b : N) : option N :=
  if a + b <? modulus w then Some (a + b) else None.

(** Debug-build [a - b] on [uW]: panics below zero. *)
Definition checked_sub (a b : N) : option N :=
  if b <=? a then Some (a - b) else None.

End Arith.

(** The hint database of the development. *)
Create HintDb rust discriminated.
Create Rewrite HintDb rust.

(** ** Generic lemmas *)

Lemma modulus_pos w : (0 < modulus w)%N.
Proof. unfold modulus. apply N.neq_0_lt_0, N.pow_nonzero. lia. Qed.

#[export] Hint Resolve modulus_pos : rust.

Lemma checked_add_Some w a b :
  (a + b < modulus w)%N -> checked_add w a b = Some (a + b)%N.
Proof. intros H. unfold checked_add. by rewrite (proj2 (N.ltb_lt _ _) H). Qed.

Lemma checked_add_None w a b :
  (modulus w <= a + b)%N -> checked_add w a b = None.
Proof. intros H. unfold checked_add. destruct (N.ltb_spec (a + b) (modulus w)); [lia | done]. Qed.

Lemma checked_add_inv w a b r :
  checked_add w a b = Some r -> (r = a + b /\ a + b < modulus w)%N.
Proof. unfold checked_add. destruct (N.ltb_spec (a + b) (modulus w)); naive_solver. Qed.

Lemma checked_sub_Some a b : (b <= a)%N -> checked_sub a b = Some (a - b)%N.
Proof. intros H. unfold checked_sub. by rewrite (proj2 (N.leb_le _ _) H). Qed.

Lemma checked_sub_0 b : (0 < b)%N -> checked_sub 0 b = None.
Proof. intros H. unfold checked_sub. destruct (N.leb_spec b 0); [lia | done]. Qed.

#[export] Hint Rewrite checked_add_Some checked_sub_Some using lia : rust.

Lemma s2l_app s1 s2 : s2l (s1 +:+ s2) = s2l s1 ++ s2l s2.
Proof. induction s1 as [|c s1 IH]; simpl; [done | by rewrite IH]. Qed.

(** Splitting a list before its last element. *)
Lemma rev_app_last {A} (l : list A) x : rev (l ++ [x]) = x :: rev l.
Proof. by rewrite rev_app_distr. Qed.

(** Induction on a list taken three elements at a time, as itertools
    [tuples] of three reads it. *)
Lemma list_triples_ind {A} (P : list A -> Prop) :
  P [] -> (forall x, P [x]) -> (forall x y, P [x; y]) ->
  (forall x y z r, P r -> P (x :: y :: z :: r)) -> forall l, P l.
Proof.
  intros H0 H1 H2 H3. fix IH 1.
  intros [|x [|y [|z r]]]; [apply H0|apply H1|apply H2|apply H3, IH].
Qed.

(** [x <-! o ;; k] is [Some] exactly when both steps are. *)
Lemma bind_Some {A B} (o : option A) (k : A -> option B) r :
  (x <-! o ;; k x) = Some r <-> exists x, o = Some x /\ k x = Some r.
Proof. destruct o; naive_solver. Qed.

(** Unfold a [x <-! o ;; k] equation in a hypothesis into its parts. *)
Ltac inv_bind :=
  repeat match goal with
  | H : (match ?o with Some _ => _ | None => None end) = Some _ |- _ =>
      let E := fresh "E" in destruct o eqn:E; [|discriminate H]
  | H : Some _ = Some _ |- _ => injection H as H
  end.

(** Turn the comparisons [(a <=? b)%N] and [(a <? b)%N] of a goal and its
    hypotheses into propositions, one case per comparison. *)
Ltac reflect_N :=
  repeat match goal with
  | |- context [(?a <=? ?b)%N] => destruct (N.leb_spec a b)
  | |- context [(?a <? ?b)%N] => destruct (N.ltb_spec a b)
  | H : context [(?a <=? ?b)%N] |- _ => destruct (N.leb_spec a b)
  | H : context [(?a <? ?b)%N] |- _ => destruct (N.ltb_spec a b)
  end; simpl in *.
