(* ===== verification/RustStd.v ===== *)
(** * The Rust standard library, as the days use it

    Models, from the Rust documentation, of the library functions the
    six programs call: string splitting, integer parsing, [VecDeque]
    push and pop, and the iterator adaptors.  None of this is code of the
    repository; the lemmas here are the facts the day files rely on. *)

From S2P Require Import Prelude.

(** ** Characters *)

(** [char::is_whitespace] on ASCII: tab, line feed, vertical tab, form
    feed, carriage return and space. *)
Definition is_whitespace (c : ascii) : bool :=
  let n := nat_of_ascii c in ((9 <=? n) && (n <=? 13)) || (n =? 32).

(** [char::is_alphabetic] on ASCII: the letters. *)
Definition is_alphabetic (c : ascii) : bool :=
  let n := nat_of_ascii c in ((65 <=? n) && (n <=? 90)) || ((97 <=? n) && (n <=? 122)).

(** [char::to_digit(10)]. *)
Definition to_digit (c : ascii) : option N :=
  let n := N_of_ascii c in if (48 <=? n)%N && (n <=? 57)%N then Some (n - 48)%N else None.

(** The character of a decimal digit [d < 10]. *)
Definition digit_char (d : N) : ascii := ascii_of_N (48 + d).

(** ** Splitting strings *)

(** [split(p)] for a character predicate [p]: the pieces between the
    separators, always at least one ([acc] is the current piece,
    reversed). *)
Fixpoint split_by_go (p : ascii -> bool) (acc : str) (s : str) : list str :=
  match s with
  | [] => [rev acc]
  | c :: t => if p c then rev acc :: split_by_go p [] t else split_by_go p (c :: acc) t
  end.

Definition split_by (p : ascii -> bool) (s : str) : list str := split_by_go p [] s.

(** [str::split(c)] for a character [c]. *)
Definition split_char (c : ascii) (s : str) : list str :=
  split_by (fun x => bool_decide (x = c)) s.

(** [str::split_whitespace]: split at whitespace, drop empty pieces. *)
Definition split_whitespace (s : str) : list str :=
  filter (fun w => w <> []) (split_by is_whitespace s).

(** [pat] is a prefix of [s]. *)
Fixpoint is_prefix (pat s : str) : bool :=
  match pat, s with
  | [], _ => true
  | c :: p, d :: t => bool_decide (c = d) && is_prefix p t
  | _ :: _, [] => false
  end.

(** [str::split(pat)] for a non-empty string pattern: occurrences are
    found left to right and do not overlap; [skip] counts the characters
    of a matched separator still to drop. *)
Fixpoint split_str_go (pat : str) (skip : nat) (acc : str) (s : str) : list str :=
  match s with
  | [] => [rev acc]
  | c :: t =>
      match skip with
      | S k => split_str_go pat k acc t
      | O => if is_prefix pat s then rev acc :: split_str_go pat (pred (length pat)) [] t
             else split_str_go pat 0 (c :: acc) t
      end
  end.

Definition split_str (pat s : str) : list str := split_str_go pat 0 [] s.

(** [str::lines]: split after each line feed, drop a carriage return
    before it, and produce no final empty line. *)
Definition strip_cr (l : str) : str :=
  match rev l with c :: r => if bool_decide (c = "013"%char) then rev r else l | [] => l end.

Fixpoint lines_go (acc : str) (s : str) : list str :=
  match s with
  | [] => match acc with [] => [] | _ => [rev acc] end
  | c :: t => if bool_decide (c = "010"%char) then strip_cr (rev acc) :: lines_go [] t
              else lines_go (c :: acc) t
  end.

Definition lines (s : str) : list str := lines_go [] s.

(** ** Parsing unsigned integers *)

(** [core::num::ParseIntError]'s kinds for an unsigned type. *)
Inductive IntErrorKind := Empty | InvalidDigit | PosOverflow.

#[export] Instance IntErrorKind_eq_dec : EqDecision IntErrorKind.
Proof. solve_decision. Defined.

(** The digit loop of [from_str_radix] for a [w]-bit type: each
    character must be a digit, and [acc * 10 + d] must fit. *)
Fixpoint parse_digits (w : N) (acc : N) (s : str) : Result N IntErrorKind :=
  match s with
  | [] => Ok acc
  | c :: t =>
      match to_digit c with
      | None => Err InvalidDigit
      | Some d => if (acc * 10 + d <? modulus w)%N then parse_digits w (acc * 10 + d)%N t
                  else Err PosOverflow
      end
  end.

(** [<uW as FromStr>::from_str]: a lone sign is invalid, a leading [+]
    is allowed, a leading [-] is an invalid digit for unsigned types. *)
Definition from_str_uint (w : N) (s : str) : Result N IntErrorKind :=
  match s with
  | [] => Err Empty
  | ["+"%char] | ["-"%char] => Err InvalidDigit
  | "+"%char :: t => parse_digits w 0 t
  | _ => parse_digits w 0 s
  end.

(** The decimal value of a digit string, without a width. *)
Definition digits_value (acc : N) (s : str) : N :=
  fold_left (fun a c => a * 10 + default 0%N (to_digit c))%N s acc.

(** [u64]'s [Display]: the decimal digits of [n] ([fuel] bounds the
    number of digits; [show_N] gives enough). *)
Fixpoint show_digits (fuel : nat) (n : N) (acc : str) : str :=
  let acc' := digit_char (n mod 10) :: acc in
  match fuel with
  | O => acc'
  | S f => if (n <? 10)%N then acc' else show_digits f (n / 10) acc'
  end.

Definition show_N (n : N) : str := show_digits (N.to_nat (N.size n)) n [].

(** ** Collections *)

(** [VecDeque::pop_back]: the back is the end of the list. *)
Definition pop_back {A} (d : list A) : option (list A * A) :=
  match rev d with [] => None | x :: r => Some (rev r, x) end.

(** [VecDeque::push_back] / [push_front]. *)
Definition push_back {A} (d : list A) (x : A) : list A := d ++ [x].
Definition push_front {A} (x : A) (d : list A) : list A := x :: d.

(** [for x in l { s = f(s, x) }] where a step may panic. *)
Fixpoint for_each {A S} (f : S -> A -> option S) (l : list A) (s : S) : option S :=
  match l with
  | [] => Some s
  | x :: t => s' <-! f s x ;; for_each f t s'
  end.

(** itertools [collect_tuple::<(T, T)>()] on a lazily mapped iterator
    whose elements may panic when they are computed ([None]): it computes
    two elements, then one more to check that there is none; the result
    is [None] unless there were exactly two. *)
Definition collect_tuple2 {A} (xs : list (option A)) : option (option (A * A)) :=
  match xs with
  | [] => Some None
  | [x] => _ <-! x ;; Some None
  | x :: y :: rest =>
      a <-! x ;; b <-! y ;;
      match rest with
      | [] => Some (Some (a, b))
      | z :: _ => _ <-! z ;; Some None
      end
  end.

(** [iter.filter(p).count()] where computing an element may panic. *)
Fixpoint count_true (xs : list (option bool)) : option nat :=
  match xs with
  | [] => Some 0
  | x :: rest => b <-! x ;; n <-! count_true rest ;; Some (if b then S n else n)
  end.

(** [slice::windows(n)] for [n > 0] (the days use [n = 14]): the
    contiguous slices of length [n], from the left; none when the slice
    is shorter than [n]. *)
Fixpoint windows {A} (n : nat) (l : list A) : list (list A) :=
  match l with
  | [] => []
  | _ :: r => if bool_decide (n <= length l) then take n l :: windows n r else []
  end.

(** [Iterator::position(p)]: the index of the first element satisfying
    [p]. *)
Fixpoint position {A} (p : A -> bool) (l : list A) : option nat :=
  match l with
  | [] => None
  | x :: r => if p x then Some 0 else S <$> position p r
  end.

(** ** Lemmas *)

Lemma pop_back_snoc {A} (l : list A) x : pop_back (l ++ [x]) = Some (l, x).
Proof. unfold pop_back. by rewrite rev_app_last, rev_involutive. Qed.

Lemma pop_back_nil {A} : pop_back (@nil A) = None.
Proof. done. Qed.

Lemma pop_back_Some {A} (d : list A) r x : pop_back d = Some (r, x) -> d = r ++ [x].
Proof.
  unfold pop_back. destruct (rev d) as [|y t] eqn:E; [done|].
  intros [= <- <-]. by rewrite <-(rev_involutive d), E.
Qed.

Lemma pop_back_None {A} (d : list A) : pop_back d = None <-> d = [].
Proof.
  split; [|by intros ->]. unfold pop_back.
  destruct (rev d) eqn:E; [|done]. intros _.
  by rewrite <-(rev_involutive d), E.
Qed.

#[export] Hint Rewrite @pop_back_snoc : rust.

Lemma for_each_app {A S} (f : S -> A -> option S) l1 l2 s :
  for_each f (l1 ++ l2) s = (s' <-! for_each f l1 s ;; for_each f l2 s').
Proof.
  revert s. induction l1 as [|x l1 IH]; intros s; simpl; [done|].
  destruct (f s x); [apply IH | done].
Qed.

(** An invariant of every step is an invariant of the loop. *)
Lemma for_each_inv {A S} (I : S -> Prop) (f : S -> A -> option S) l s s' :
  (forall s x s', I s -> f s x = Some s' -> I s') ->
  I s -> for_each f l s = Some s' -> I s'.
Proof.
  intros Hf. revert s. induction l as [|x l IH]; intros s Hs; simpl; [by intros [= <-]|].
  destruct (f s x) eqn:E; [|done]. apply IH. by eapply Hf.
Qed.

(** Splitting at a predicate: a piece free of separators followed by a
    separator is emitted whole. *)
Lemma split_by_go_word p acc w s :
  Forall (fun c => p c = false) w ->
  split_by_go p acc (w ++ s) = split_by_go p (rev w ++ acc) s.
Proof.
  revert acc. induction w as [|c w IH]; intros acc Hw; [done|].
  inversion Hw as [|? ? Hc Hw']; subst. simpl. rewrite Hc, IH by done.
  by rewrite <-app_assoc.
Qed.

Lemma split_by_go_sep p acc c s :
  p c = true -> split_by_go p acc (c :: s) = rev acc :: split_by_go p [] s.
Proof. intros Hc. simpl. by rewrite Hc. Qed.

(** A separator-free word at the start of the input is the first piece. *)
Lemma split_by_word_sep p w c s :
  Forall (fun x => p x = false) w -> p c = true ->
  split_by_go p [] (w ++ c :: s) = w :: split_by_go p [] s.
Proof.
  intros Hw Hc. rewrite split_by_go_word by done.
  rewrite split_by_go_sep by done. by rewrite app_nil_r, rev_involutive.
Qed.

Lemma split_by_word_end p w :
  Forall (fun x => p x = false) w -> split_by_go p [] w = [w].
Proof.
  intros Hw. rewrite <-(app_nil_r w) at 1. rewrite split_by_go_word by done. simpl.
  by rewrite app_nil_r, rev_involutive.
Qed.

(** ** Decimal digits *)

(** A character is a decimal digit. *)
Definition is_digit (c : ascii) : Prop := is_Some (to_digit c).

Lemma to_digit_char d : (d < 10)%N -> to_digit (digit_char d) = Some d.
Proof.
  intros Hd. unfold to_digit, digit_char.
  rewrite N_ascii_embedding by lia.
  replace ((48 <=? 48 + d)%N && (48 + d <=? 57)%N) with true
    by (symmetry; apply andb_true_intro; split; apply N.leb_le; lia).
  f_equal. lia.
Qed.

(** Facts about single characters, by evaluation on all 256 of them. *)
Ltac by_all_chars c :=
  destruct c as [[] [] [] [] [] [] [] []]; vm_compute; try done;
  try (intros [? Hc]; discriminate Hc).

Lemma digit_not_whitespace c : is_digit c -> is_whitespace c = false.
Proof. unfold is_digit. by_all_chars c. Qed.

(** A leading digit is not a sign: [from_str] goes to the digit loop. *)
Lemma from_str_uint_digit w c t :
  is_digit c -> from_str_uint w (c :: t) = parse_digits w 0 (c :: t).
Proof. unfold is_digit. destruct t; by_all_chars c. Qed.

Lemma digits_value_ge acc s : (acc <= digits_value acc s)%N.
Proof.
  unfold digits_value. revert acc.
  induction s as [|c s IH]; intros acc; simpl; [lia|].
  etrans; [|apply IH]. lia.
Qed.

(** On a string of digits, the loop returns the decimal value, or
    [PosOverflow] when it does not fit in [w] bits. *)
Lemma parse_digits_value w acc s :
  (acc < modulus w)%N -> Forall is_digit s ->
  parse_digits w acc s =
    if (digits_value acc s <? modulus w)%N then Ok (digits_value acc s) else Err PosOverflow.
Proof.
  revert acc. induction s as [|c s IH]; intros acc Hacc Hs.
  { unfold digits_value; simpl. by rewrite (proj2 (N.ltb_lt _ _) Hacc). }
  inversion Hs as [|? ? [d Hd] Hs']; subst.
  change (digits_value acc (c :: s)) with (digits_value (acc * 10 + default 0 (to_digit c))%N s).
  cbn [parse_digits]. rewrite Hd; simpl.
  destruct (N.ltb_spec (acc * 10 + d) (modulus w)) as [Hlt|Hge]; [by apply IH|].
  pose proof (digits_value_ge (acc * 10 + d) s).
  destruct (N.ltb_spec (digits_value (acc * 10 + d) s) (modulus w)); [lia|done].
Qed.

(** Printing: the digits of [n] in front of [acc] read back as [n]
    followed by [acc], when the fuel covers the bits of [n]. *)
Lemma show_digits_value f n acc :
  (n < 2 ^ N.of_nat (S f))%N ->
  digits_value 0 (show_digits f n acc) = digits_value n acc /\
  (Forall is_digit acc -> Forall is_digit (show_digits f n acc)).
Proof.
  revert n acc. induction f as [|f IH]; intros n acc Hn.
  all: assert (Hd : to_digit (digit_char (n mod 10)) = Some (n mod 10)%N)
         by (apply to_digit_char, N.mod_lt; lia).
  all: assert (Hcons : Forall is_digit acc -> Forall is_digit (digit_char (n mod 10) :: acc))
         by (intros; constructor; [by eexists|done]).
  - simpl in Hn |- *. split; [|auto]. unfold digits_value; simpl. rewrite Hd; simpl.
    by rewrite N.mod_small by lia.
  - simpl. destruct (N.ltb_spec n 10).
    + split; [|auto]. unfold digits_value; simpl. rewrite Hd; simpl.
      by rewrite N.mod_small by lia.
    + destruct (IH (n / 10)%N (digit_char (n mod 10) :: acc)) as [IH1 IH2].
      { apply N.Div0.div_lt_upper_bound.
        rewrite (Nat2N.inj_succ (S f)), N.pow_succ_r' in Hn. lia. }
      split; [|auto]. rewrite IH1. unfold digits_value; simpl. rewrite Hd; simpl.
      f_equal. pose proof (N.div_mod n 10). lia.
Qed.

Lemma show_N_value n :
  digits_value 0 (show_N n) = n /\ Forall is_digit (show_N n).
Proof.
  unfold show_N. destruct (show_digits_value (N.to_nat (N.size n)) n []) as [H1 H2].
  { pose proof (N.size_gt n). rewrite Nat2N.inj_succ, N2Nat.id, N.pow_succ_r'. lia. }
  split; [done|]. by apply H2.
Qed.

Lemma show_digits_not_nil f n acc : show_digits f n acc <> [].
Proof.
  revert n acc. induction f as [|f IH]; intros n acc; simpl; [done|].
  case_match; [done|apply IH].
Qed.

Lemma show_N_not_nil n : show_N n <> [].
Proof. apply show_digits_not_nil. Qed.

(** Round trip: [n.to_string().parse::<uW>()] gives [n] back for every
    [n] that fits in [w] bits. *)
Lemma from_str_uint_show w n :
  (n < modulus w)%N -> from_str_uint w (show_N n) = Ok n.
Proof.
  intros Hn. destruct (show_N_value n) as [Hv Hdig].
  destruct (show_N n) as [|c t] eqn:E; [by destruct (show_N_not_nil n)|].
  assert (Hc : is_digit c) by (by apply Forall_cons in Hdig as [? _]).
  rewrite from_str_uint_digit, parse_digits_value by (done || apply modulus_pos).
  rewrite Hv. by rewrite (proj2 (N.ltb_lt _ _) Hn).
Qed.

(** The printed form of a number too large for [w] bits is refused
    with [PosOverflow]. *)
Lemma from_str_uint_show_overflow w n :
  (modulus w <= n)%N -> from_str_uint w (show_N n) = Err PosOverflow.
Proof.
  intros Hn. destruct (show_N_value n) as [Hv Hdig].
  destruct (show_N n) as [|c t] eqn:E; [by destruct (show_N_not_nil n)|].
  assert (Hc : is_digit c) by (by apply Forall_cons in Hdig as [? _]).
  rewrite from_str_uint_digit, parse_digits_value by (done || apply modulus_pos).
  rewrite Hv. by destruct (N.ltb_spec n (modulus w)); [lia|].
Qed.

(** Every value the parser returns fits in [w] bits. *)
Lemma from_str_uint_bound w s n : from_str_uint w s = Ok n -> (n < modulus w)%N.
Proof.
  assert (Hloop : forall acc t, (acc < modulus w)%N -> parse_digits w acc t = Ok n -> (n < modulus w)%N).
  { intros acc t. revert acc. induction t as [|c t IH]; intros acc Hacc; simpl; [by intros [= <-]|].
    destruct (to_digit c) as [d|]; [|done].
    destruct (N.ltb_spec (acc * 10 + d) (modulus w)); [by apply IH|done]. }
  pose proof (modulus_pos w).
  unfold from_str_uint. intros Hs. repeat case_match; simplify_eq; eapply Hloop; eauto.
Qed.

Lemma collect_tuple2_pair {A} (a b : A) : collect_tuple2 [Some a; Some b] = Some (Some (a, b)).
Proof. done. Qed.

(** Two elements exactly, both computed, is the only way to get a pair. *)
Lemma collect_tuple2_Some {A} (xs : list (option A)) a b :
  collect_tuple2 xs = Some (Some (a, b)) -> xs = [Some a; Some b].
Proof.
  destruct xs as [|x [|y [|z rest]]]; simpl; try done.
  - by destruct x.
  - destruct x, y; simpl; congruence.
  - destruct x, y, z; simpl; congruence.
Qed.

Lemma count_true_map_Some {A} (f : A -> bool) (l : list A) :
  count_true (List.map (fun x => Some (f x)) l) = Some (length (filter f l)).
Proof.
  induction l as [|x l IH]; simpl; [done|]. rewrite IH; simpl.
  rewrite filter_cons. by destruct (f x).
Qed.

(** Splitting at a character: a separator-free piece before the
    separator, then the rest. *)
Lemma split_char_sep c w s :
  c ∉ w -> split_char c (w ++ c :: s) = w :: split_char c s.
Proof.
  intros Hw. unfold split_char, split_by. apply split_by_word_sep.
  - apply Forall_forall. intros x Hx. apply bool_decide_eq_false_2. intros ->. by apply Hw, list_elem_of_In.
  - by apply bool_decide_eq_true_2.
Qed.

Lemma split_char_end c w : c ∉ w -> split_char c w = [w].
Proof.
  intros Hw. unfold split_char, split_by. apply split_by_word_end.
  apply Forall_forall. intros x Hx. apply bool_decide_eq_false_2. intros ->. by apply Hw, list_elem_of_In.
Qed.

(** The digits of a number contain no separator other than digits. *)
Lemma show_N_not_elem c n : ~ is_digit c -> c ∉ show_N n.
Proof.
  intros Hc Hin. apply Hc. destruct (show_N_value n) as [_ Hd].
  rewrite Forall_forall in Hd. by apply Hd.
Qed.

(** ** Lines *)

(** The text of a list of lines, each ended by a line feed. *)
Definition unlines (ls : list str) : str := concat (List.map (fun l => l ++ ["010"%char]) ls).

Lemma lines_go_line acc l rest :
  "010"%char ∉ l -> lines_go acc (l ++ "010"%char :: rest) = strip_cr (rev acc ++ l) :: lines_go [] rest.
Proof.
  revert acc. induction l as [|c l IH]; intros acc Hl; simpl.
  - by rewrite app_nil_r.
  - rewrite bool_decide_false by (intros ->; apply Hl; left).
    rewrite IH by (intros ?; apply Hl; by right). simpl. by rewrite <-app_assoc.
Qed.

Lemma strip_cr_id l : last l <> Some "013"%char -> strip_cr l = l.
Proof.
  intros Hl. unfold strip_cr. destruct l as [|c l _] using rev_ind; [done|].
  rewrite rev_app_last. rewrite last_snoc in Hl.
  rewrite bool_decide_false; [done|]. congruence.
Qed.

(** A line of the input: no line feed in it, no carriage return at its
    end. *)
Definition plain_line (l : str) : Prop := ("010"%char ∉ l) /\ last l <> Some "013"%char.

(** [lines] gives back the lines of a text made of plain lines. *)
Lemma lines_unlines_app ls s :
  Forall plain_line ls -> lines (unlines ls ++ s) = ls ++ lines s.
Proof.
  unfold lines, unlines. induction ls as [|l ls IH]; intros Hls; [done|].
  inversion Hls as [|? ? [Hnl Hcr] Hrest]; subst. cbn [List.map concat].
  repeat rewrite <-app_assoc. cbn [app]. rewrite lines_go_line by done. simpl.
  rewrite strip_cr_id by done. by rewrite IH.
Qed.

Lemma lines_unlines ls : Forall plain_line ls -> lines (unlines ls) = ls.
Proof.
  intros Hls. rewrite <-(app_nil_r (unlines ls)), lines_unlines_app by done.
  apply app_nil_r.
Qed.

(** Counting with a test that never panics. *)
(** One element that panics makes the count panic. *)
Lemma count_true_None (xs : list (option bool)) :
  None ∈ xs -> count_true xs = None.
Proof.
  induction xs as [|x xs IH]; [by intros ?%elem_of_nil|].
  rewrite elem_of_cons. intros [<-|Hin]; [done|]. simpl.
  destruct x; [|done]. by rewrite IH.
Qed.

Lemma count_true_ext {A} (f : A -> option bool) (g : A -> bool) (l : list A) :
  Forall (fun x => f x = Some (g x)) l -> count_true (List.map f l) = Some (length (filter g l)).
Proof.
  induction 1 as [|x l Hx _ IH]; simpl; [done|]. rewrite Hx, IH; simpl.
  rewrite filter_cons. by destruct (g x).
Qed.

(** A line made of digits and of separators that are neither a line feed
    nor a carriage return is a plain line. *)
Lemma plain_line_chars (P : ascii -> Prop) l :
  Forall P l -> ~ P "010"%char -> ~ P "013"%char -> plain_line l.
Proof.
  intros Hl Hn Hr. rewrite Forall_forall in Hl. split.
  - intros Hin. by apply Hn, Hl.
  - intros Hlast. by apply Hr, Hl, last_Some_elem_of.
Qed.

(** The [i]-th window is the slice of length [n] at [i]. *)
Lemma windows_lookup {A} n (l : list A) i w :
  0 < n -> windows n l !! i = Some w <-> i + n <= length l /\ w = take n (drop i l).
Proof.
  intros Hn. revert i. induction l as [|x l IH]; intros i; simpl.
  { rewrite lookup_nil. split; [done|lia]. }
  case_bool_decide as Hle.
  - destruct i as [|i]; simpl; [naive_solver lia|]. rewrite IH. naive_solver lia.
  - rewrite lookup_nil. split; [done|lia].
Qed.

(** [position] finds the first element that satisfies the test. *)
Lemma position_Some {A} (p : A -> bool) l k :
  position p l = Some k <->
  (exists x, l !! k = Some x /\ p x = true) /\ forall j y, j < k -> l !! j = Some y -> p y = false.
Proof.
  revert k. induction l as [|x l IH]; intros k; simpl.
  { split; [done|]. intros [(y & Hy & _) _]. by rewrite lookup_nil in Hy. }
  destruct (p x) eqn:Hx.
  - split; [intros [= <-]; split; [eauto|intros; lia]|].
    intros [(y & Hy & Hpy) Hall]. destruct k as [|k]; [done|].
    by rewrite (Hall 0 x) in Hx by (done || lia).
  - destruct (position p l) as [k'|] eqn:E; simpl.
    + split.
      * intros [= <-]. destruct (proj1 (IH k') eq_refl) as [Hex Hall].
        split; [done|]. intros [|j] y Hj Hy; simpl in Hy; [congruence|]. apply (Hall j); [lia|done].
      * intros [(y & Hy & Hpy) Hall]. destruct k as [|k]; simpl in Hy; [congruence|].
        enough (Some k' = Some k) by congruence. apply IH. split; [eauto|]. intros j z Hj Hz. apply (Hall (S j)); [lia|done].
    + split; [done|]. intros [(y & Hy & Hpy) Hall]. destruct k as [|k]; simpl in Hy; [congruence|].
      enough (@None nat = Some k) by congruence.
      apply IH. split; [eauto|]. intros j z Hj Hz. apply (Hall (S j)); [lia|done].
Qed.

(** [position] finds nothing when no element satisfies the test. *)
Lemma position_None {A} (p : A -> bool) l :
  position p l = None <-> Forall (fun x => p x = false) l.
Proof.
  induction l as [|x l IH]; simpl; [split; constructor|].
  rewrite Forall_cons. destruct (p x); [naive_solver|].
  destruct (position p l); simpl; naive_solver.
Qed.

(** [Iterator::find] returns the one element that passes the test. *)
Lemma find_unique {A} (p : A -> bool) l x :
  x ∈ l -> p x = true -> (forall y, y ∈ l -> p y = true -> y = x) -> List.find p l = Some x.
Proof.
  induction l as [|y l IH]; simpl; [by intros ?%elem_of_nil|].
  intros Hx Hpx Hu. destruct (p y) eqn:Hy.
  - f_equal. apply Hu; [left|done].
  - apply elem_of_cons in Hx as [->|Hx]; [congruence|].
    apply IH; [done|done|]. intros z Hz. apply Hu. by right.
Qed.

(** [Iterator::find] returns nothing when no element passes. *)
Lemma find_none_iff {A} (p : A -> bool) l :
  (forall y, y ∈ l -> p y = false) -> List.find p l = None.
Proof.
  induction l as [|y l IH]; simpl; [done|]. intros Hn.
  rewrite (Hn y) by left. apply IH. intros z Hz. apply Hn. by right.
Qed.

(** The decimal text of a number is a plain line. *)
Lemma show_N_plain n : plain_line (show_N n).
Proof.
  apply (plain_line_chars is_digit); [apply show_N_value| |];
    unfold is_digit; intros [? H]; discriminate.
Qed.

(** ** Splitting at a blank line

    [str::split("\n\n")] on a text made of non-empty lines: the first
    blank line separates the first piece from the rest. *)

Lemma unlines_cons l ls : unlines (l :: ls) = l ++ "010"%char :: unlines ls.
Proof. unfold unlines. simpl. by rewrite <-app_assoc. Qed.

(** A non-empty line without a line feed or a final carriage return. *)
Definition good_line (l : str) : Prop := l <> [] /\ plain_line l.

Lemma split_blank_word acc w s :
  "010"%char ∉ w ->
  split_str_go ["010"; "010"]%char 0 acc (w ++ s) = split_str_go ["010"; "010"]%char 0 (rev w ++ acc) s.
Proof.
  revert acc. induction w as [|c w IH]; intros acc Hw; [done|].
  rewrite not_elem_of_cons in Hw. destruct Hw as [Hc Hw]. simpl.
  rewrite bool_decide_false by done. simpl. rewrite IH by done. by rewrite <-app_assoc.
Qed.

(** A line feed followed by another character than a line feed is not
    a separator. *)
Lemma split_blank_nl acc c s :
  c <> "010"%char ->
  split_str_go ["010"; "010"]%char 0 acc ("010"%char :: c :: s) =
  split_str_go ["010"; "010"]%char 0 ("010"%char :: acc) (c :: s).
Proof. intros Hc. simpl. by rewrite bool_decide_false by done. Qed.

Lemma good_line_head l s : good_line l -> exists c t, l ++ s = c :: t /\ c <> "010"%char.
Proof.
  intros [Hne [Hnl _]]. destruct l as [|c l]; [done|]. exists c, (l ++ s).
  split; [done|]. intros ->. apply Hnl. left.
Qed.

Lemma unlines_good_head ls t s :
  Forall good_line ls -> good_line t -> exists c r, unlines ls ++ t ++ s = c :: r /\ c <> "010"%char.
Proof.
  intros Hls Ht. destruct Hls as [|l ls' Hl _]; [simpl; by apply good_line_head|].
  destruct (good_line_head l ("010"%char :: unlines ls' ++ t ++ s) Hl) as (c & r & Heq & Hc).
  exists c, r. split; [|done]. rewrite <-Heq, unlines_cons. by rewrite <-app_assoc.
Qed.

(** The first piece ends at the first blank line. *)
Lemma split_blank_lines acc ls t rest :
  Forall good_line ls -> good_line t ->
  split_str_go ["010"; "010"]%char 0 acc (unlines ls ++ t ++ "010"%char :: "010"%char :: rest) =
  (rev acc ++ unlines ls ++ t) :: split_str_go ["010"; "010"]%char 0 [] rest.
Proof.
  intros Hls Ht. revert acc. induction Hls as [|l ls Hl Hls IH]; intros acc.
  - simpl. rewrite split_blank_word by apply Ht. simpl.
    by rewrite rev_app_distr, rev_involutive.
  - rewrite unlines_cons. repeat rewrite <-app_assoc. simpl. rewrite split_blank_word by apply Hl.
    destruct (unlines_good_head ls t ("010"%char :: "010"%char :: rest) Hls Ht) as (c & r & Heq & Hc).
    rewrite Heq, split_blank_nl by done. rewrite <-Heq, IH.
    f_equal. simpl. rewrite rev_app_distr, rev_involutive. by repeat rewrite <-app_assoc.
Qed.

(** Without a blank line, the text is one piece. *)
Lemma split_blank_end acc ls :
  Forall good_line ls ->
  split_str_go ["010"; "010"]%char 0 acc (unlines ls) = [rev acc ++ unlines ls].
Proof.
  intros Hls. revert acc. induction Hls as [|l ls Hl Hls IH]; intros acc.
  - simpl. by rewrite app_nil_r.
  - rewrite unlines_cons, split_blank_word by apply Hl.
    destruct Hls as [|l' ls' Hl' Hls'].
    + simpl. rewrite rev_app_distr, rev_involutive. simpl. by rewrite <-app_assoc.
    + destruct (good_line_head l' ("010"%char :: unlines ls') Hl') as (c & r & Heq & Hc).
      rewrite unlines_cons, Heq, split_blank_nl by done. rewrite <-Heq, <-unlines_cons, IH. f_equal. simpl. rewrite rev_app_distr, rev_involutive. by repeat rewrite <-app_assoc.
Qed.

(** A last line without a line feed after it is still a line. *)
Lemma lines_go_last acc l :
  "010"%char ∉ l -> rev acc ++ l <> [] -> lines_go acc l = [rev acc ++ l].
Proof.
  revert acc. induction l as [|c l IH]; intros acc Hl Hne; simpl.
  - rewrite app_nil_r in *. by destruct acc.
  - apply not_elem_of_cons in Hl as [Hc Hl].
    rewrite bool_decide_false by done. rewrite IH; [simpl; by rewrite <-app_assoc|done|].
    simpl. intros H. apply (f_equal length) in H. rewrite !length_app in H. simpl in H. lia.
Qed.

Lemma lines_unlines_last ls t :
  Forall plain_line ls -> good_line t -> lines (unlines ls ++ t) = ls ++ [t].
Proof.
  intros Hls [Hne [Ht _]]. rewrite lines_unlines_app by done. f_equal.
  unfold lines. by rewrite lines_go_last.
Qed.
