(* ===== verification/Nom.v ===== *)
(** * The nom 7 combinators used by day 05

    A parser takes the remaining input and returns the rest and its
    output, or an error.  Only the [complete] variants are used, so no
    parser returns [Incomplete].  The error of [nom::error::Error] keeps
    the input where it happened and a kind; [alt] keeps the error of its
    last branch, as [Error::or] does.  This is library behaviour, written
    from the nom documentation and source, not code of the repository. *)

From S2P Require Import Prelude RustStd.

Module Nom.

Inductive ErrorKind := Tag | Eof.

(** [nom::error::Error<&str>] *)
Record Error := mkError { err_input : str; err_kind : ErrorKind }.

(** [nom::Err]: a recoverable [Error] or a fatal [Failure]. *)
Inductive NomErr := Recoverable (e : Error) | Failure (e : Error).

(** [IResult<&str, O>] *)
Definition IResult (O : Type) : Type := Result (str * O) NomErr.

Definition Parser (O : Type) : Type := str -> IResult O.

(** [bytes::complete::tag(t)] *)
Definition tag (t : str) : Parser str := fun input =>
  if is_prefix t input then Ok (drop (length t) input, t)
  else Err (Recoverable (mkError input Tag)).

(** [bytes::complete::take(n)]: [n] characters, or [Eof]. *)
Definition take (n : nat) : Parser str := fun input =>
  if bool_decide (length input < n) then Err (Recoverable (mkError input Eof))
  else Ok (drop n input, firstn n input).

(** [combinator::map(p, f)] *)
Definition map {A B} (p : Parser A) (f : A -> B) : Parser B := fun input =>
  r <-? p input ;; Ok (r.1, f r.2).

(** [branch::alt((p, q))] *)
Definition alt {A} (p q : Parser A) : Parser A := fun input =>
  match p input with
  | Err (Recoverable _) =>
      match q input with
      | Err (Recoverable e) => Err (Recoverable e)
      | res => res
      end
  | res => res
  end.

(** [combinator::opt(p)]: a recoverable error becomes [None] and the
    input is not consumed. *)
Definition opt {A} (p : Parser A) : Parser (option A) := fun input =>
  match p input with
  | Ok r => Ok (r.1, Some r.2)
  | Err (Recoverable _) => Ok (input, None)
  | Err e => Err e
  end.

(** [sequence::preceded(p, q)] *)
Definition preceded {A B} (p : Parser A) (q : Parser B) : Parser B := fun input =>
  r <-? p input ;; q r.1.

(** [sequence::delimited(p, q, r)] *)
Definition delimited {A B C} (p : Parser A) (q : Parser B) (r : Parser C) : Parser B :=
  fun input =>
    a <-? p input ;; b <-? q a.1 ;; c <-? r b.1 ;; Ok (c.1, b.2).

(** [combinator::all_consuming(p)]: leftover input is an [Eof] error. *)
Definition all_consuming {A} (p : Parser A) : Parser A := fun input =>
  r <-? p input ;;
  match r.1 with [] => Ok r | rest => Err (Recoverable (mkError rest Eof)) end.

(** ** Lemmas *)

Lemma is_prefix_app t s : is_prefix t (t ++ s) = true.
Proof. induction t as [|c t IH]; simpl; [done|]. by rewrite bool_decide_true. Qed.

Lemma is_prefix_true t s : is_prefix t s = true -> s = t ++ drop (length t) s.
Proof.
  revert s. induction t as [|c t IH]; intros [|d s]; simpl; try done.
  intros [Hc Ht]%andb_prop. apply bool_decide_eq_true_1 in Hc. subst. f_equal. by apply IH.
Qed.

Lemma tag_app t s : tag t (t ++ s) = Ok (s, t).
Proof. unfold tag. rewrite is_prefix_app. by rewrite drop_app_length. Qed.

Lemma tag_Ok t input rest o : tag t input = Ok (rest, o) -> input = t ++ rest /\ o = t.
Proof.
  unfold tag. destruct (is_prefix t input) eqn:E; [|done].
  intros [= <- <-]. split; [by apply is_prefix_true|done].
Qed.

Lemma take_prefix (l s : str) : take (length l) (l ++ s) = Ok (s, l).
Proof.
  unfold take. rewrite bool_decide_false by (rewrite length_app; lia).
  by rewrite drop_app_length, take_app_length.
Qed.

Lemma take_Ok n input rest o : take n input = Ok (rest, o) -> input = o ++ rest /\ length o = n.
Proof.
  unfold take. case_bool_decide; [done|]. intros [= <- <-].
  split; [by rewrite take_drop|]. rewrite length_take. lia.
Qed.

(** Inversion of the combinators on success. *)
Lemma map_Ok {A B} (p : Parser A) (f : A -> B) input rest o :
  map p f input = Ok (rest, o) -> exists a, p input = Ok (rest, a) /\ o = f a.
Proof. unfold map. destruct (p input) as [[r a]|] eqn:E; simpl; [|done]. intros [= <- <-]. eauto. Qed.

Lemma alt_Ok {A} (p q : Parser A) input r :
  alt p q input = Ok r -> p input = Ok r \/ q input = Ok r.
Proof. unfold alt. destruct (p input) as [|[]]; [by left|..|done]. destruct (q input) as [|[]]; auto. Qed.

Lemma delimited_Ok {A B C} (p : Parser A) (q : Parser B) (r : Parser C) input rest b :
  delimited p q r input = Ok (rest, b) ->
  exists r1 a r2 c, p input = Ok (r1, a) /\ q r1 = Ok (r2, b) /\ r r2 = Ok (rest, c).
Proof.
  unfold delimited.
  destruct (p input) as [[r1 a]|] eqn:E1; simpl; [|done].
  destruct (q r1) as [[r2 b']|] eqn:E2; simpl; [|done].
  destruct (r r2) as [[r3 c]|] eqn:E3; simpl; [|done]. intros [= <- <-]. eauto 10.
Qed.

Lemma preceded_Ok {A B} (p : Parser A) (q : Parser B) input rest b :
  preceded p q input = Ok (rest, b) -> exists r1 a, p input = Ok (r1, a) /\ q r1 = Ok (rest, b).
Proof. unfold preceded. destruct (p input) as [[r1 a]|] eqn:E; simpl; [eauto|done]. Qed.

Lemma opt_Ok {A} (p : Parser A) input rest o :
  opt p input = Ok (rest, o) ->
  match o with Some a => p input = Ok (rest, a) | None => rest = input end.
Proof.
  unfold opt. destruct (p input) as [[r a]|[]]; simpl; [by intros [= <- <-]|by intros [= <- <-]|done].
Qed.

Lemma all_consuming_Ok {A} (p : Parser A) input rest o :
  all_consuming p input = Ok (rest, o) -> rest = [] /\ p input = Ok ([], o).
Proof.
  unfold all_consuming. destruct (p input) as [[[|c r] a]|]; simpl; [|done|done].
  by intros [= <- <-].
Qed.

Lemma opt_preceded_Ok {A B} (p : Parser A) (q : Parser B) input r1 a r2 b :
  p input = Ok (r1, a) -> q r1 = Ok (r2, b) -> opt (preceded p q) input = Ok (r2, Some b).
Proof. intros H1 H2. unfold opt, preceded. rewrite H1. simpl. by rewrite H2. Qed.

End Nom.
