(* ===== verification/Stacks.v ===== *)
(** * Day 05, [mod my_solution]: the crate-stack simulator

    [src/day_05/src/main.rs], lines 71-203.  The state is a [Vec] of
    [VecDeque<char>] stacks (bottom first, the top at the back); a [Move]
    is parsed from ["move N from S to D"] and applied one crate at a time
    ([perform_move]) or as a block ([perform_batch_move]).  Stack numbers
    are 1-based in a move: the code computes [(source - 1) as usize] in
    [u64], which panics for [0] in a debug build.  Every panic is [None].

    The file gives the reference behaviour of a move ([move_ref]), proves
    that the loops of both methods compute it ([perform_move_eq],
    [perform_batch_move_eq]) and what that means for the order of the
    moved crates, and reads moves and the final answer.  The [Crane]
    interface built on [move_ref] is in [Crane]; the whole program run
    on a drawn input is in [Day05Run]. *)

From S2P Require Import Prelude RustStd.

Module MySolution.

(** [struct Move { quantity: u64, source: u64, destination: u64 }] *)
Record Move := mkMove { quantity : N; source : N; destination : N }.

(** [Move::from_str]: the words are not checked, only the three numbers
    (the 2nd, 4th and 6th whitespace-separated tokens) are parsed; a
    missing token is an [unwrap] panic, a bad number an [Err]. *)
Definition Move_from_str (s : str) : option (Result Move IntErrorKind) :=
  let parts := tl (split_whitespace s) in
  q <-! head parts ;;
  quantity <-?! from_str_uint 64 q ;;
  let parts := tl (tl parts) in
  src <-! head parts ;;
  source <-?! from_str_uint 64 src ;;
  let parts := tl (tl parts) in
  dst <-! head parts ;;
  destination <-?! from_str_uint 64 dst ;;
  Some (Ok (mkMove quantity source destination)).

(** [struct State { stacks: Vec<VecDeque<char>> }] *)
Record State := mkState { stacks : list (list ascii) }.

(** [State::new(number_stacks)]: that many empty stacks. *)
Definition new (number_stacks : nat) : State := mkState (replicate number_stacks []).

(** [State::add_to_front_of_stack]: [stacks[i].push_front(c)]. *)
Definition add_to_front_of_stack (st : State) (stack_number : nat) (to_add : ascii)
    : option State :=
  s <-! stacks st !! stack_number ;;
  Some (mkState (<[stack_number := push_front to_add s]> (stacks st))).

(** [(n - 1) as usize] on [u64]. *)
Definition stack_index (n : N) : option nat :=
  k <-! checked_sub n 1 ;; Some (N.to_nat k).

(** [self.stacks[(source - 1) as usize].pop_back().unwrap()] *)
Definition pop_from (ss : list (list ascii)) (source : N) : option (list (list ascii) * ascii) :=
  i <-! stack_index source ;;
  s <-! ss !! i ;;
  r <-! pop_back s ;;
  Some (<[i := r.1]> ss, r.2).

(** [self.stacks[(destination - 1) as usize].push_back(c)] *)
Definition push_to (ss : list (list ascii)) (destination : N) (c : ascii)
    : option (list (list ascii)) :=
  i <-! stack_index destination ;;
  d <-! ss !! i ;;
  Some (<[i := push_back d c]> ss).

(** The loop of [perform_move]: [k] times, pop one crate and push it. *)
Fixpoint perform_move_loop (k : nat) (source destination : N) (ss : list (list ascii))
    : option (list (list ascii)) :=
  match k with
  | O => Some ss
  | S k' =>
      r <-! pop_from ss source ;;
      ss2 <-! push_to r.1 destination r.2 ;;
      perform_move_loop k' source destination ss2
  end.

(** [State::perform_move]: one crate at a time. *)
Definition perform_move (st : State) (m : Move) : option State :=
  ss <-! perform_move_loop (N.to_nat (quantity m)) (source m) (destination m) (stacks st) ;;
  Some (mkState ss).

(** First loop of [perform_batch_move]: pop [k] crates into [crates]. *)
Fixpoint pop_loop (k : nat) (source : N) (ss : list (list ascii)) (crates : list ascii)
    : option (list (list ascii) * list ascii) :=
  match k with
  | O => Some (ss, crates)
  | S k' =>
      r <-! pop_from ss source ;;
      pop_loop k' source r.1 (push_back crates r.2)
  end.

(** Second loop of [perform_batch_move]: [for c in crates { push }]. *)
Fixpoint push_loop (crates : list ascii) (destination : N) (ss : list (list ascii))
    : option (list (list ascii)) :=
  match crates with
  | [] => Some ss
  | c :: cs => ss2 <-! push_to ss destination c ;; push_loop cs destination ss2
  end.

(** [State::perform_batch_move]: pop the block, [crates.reverse()],
    push it back in its original order. *)
Definition perform_batch_move (st : State) (m : Move) : option State :=
  r <-! pop_loop (N.to_nat (quantity m)) (source m) (stacks st) [] ;;
  ss <-! push_loop (rev r.2) (destination m) r.1 ;;
  Some (mkState ss).

(** [State::get_topmost_crates]: [*s.back().unwrap()] for each stack. *)
Fixpoint topmost (ss : list (list ascii)) : option (list ascii) :=
  match ss with
  | [] => Some []
  | s :: rest => c <-! last s ;; cs <-! topmost rest ;; Some (c :: cs)
  end.

Definition get_topmost_crates (st : State) : option (list ascii) := topmost (stacks st).

(** The inner loop of [main] over [line.chars().enumerate()]: the
    character at [char_position] (1, 5, 9, ...) belongs to the next
    stack and is pushed to its front when it is a letter;
    [skip_position] is advanced but never read. *)
Fixpoint grid_line_loop (line : list ascii) (i current_stack char_position skip_position : nat)
    (st : State) : option State :=
  match line with
  | [] => Some st
  | c :: rest =>
      if bool_decide (i = char_position) then
        st' <-! (if is_alphabetic c then add_to_front_of_stack st current_stack c else Some st) ;;
        grid_line_loop rest (S i) (S current_stack) (char_position + 4) skip_position st'
      else if bool_decide (i = skip_position) then
        grid_line_loop rest (S i) current_stack char_position (skip_position + 4) st
      else grid_line_loop rest (S i) current_stack char_position skip_position st
  end.

(** One line of the crate drawing: [current_stack = 0],
    [char_position = 1], [skip_position = 3]. *)
Definition read_grid_line (st : State) (line : str) : option State :=
  grid_line_loop line 0 0 1 3 st.

(** One line of the move list: [Move::from_str], [unwrap], apply. *)
Definition apply_move_line (apply : State -> Move -> option State) (st : State) (line : str)
    : option State :=
  r <-! Move_from_str line ;; m <-! ok r ;; apply st m.

(** [my_solution::main] on the text of [input.txt], with the number of
    stacks as a parameter ([main] hard-codes 9); the result is the debug-printed
    [get_topmost_crates]. *)
Definition main_with (number_stacks : nat) (input : str) : option (list ascii) :=
  let parts := split_str (s2l (String "010" (String "010" EmptyString))) input in
  input_crates <-! head parts ;;
  input_moves <-! head (tl parts) ;;
  st <-! for_each read_grid_line (lines input_crates) (new number_stacks) ;;
  st <-! for_each (apply_move_line perform_batch_move) (lines input_moves) st ;;
  get_topmost_crates st.

Definition main (input : str) : option (list ascii) := main_with 9 input.

(** The text of a move in the input: ["move q from s to d"]. *)
Definition render_move (m : Move) : str :=
  s2l "move" ++ " "%char :: show_N (quantity m) ++ " "%char :: s2l "from" ++ " "%char ::
  show_N (source m) ++ " "%char :: s2l "to" ++ " "%char :: show_N (destination m).

(** ** The reference behaviour of a move

    [move_ref arr same_ok ss m] is what a move does to the stacks [ss],
    written without loops: a zero quantity changes nothing (the loops do
    not run, so not even the indices are checked); otherwise both stack
    numbers must name a stack.  Between two different stacks, the top
    [q] crates [taken] of the source are removed and [arr taken] is put
    on the destination, or the move panics when the source holds fewer
    than [q] crates.  From a stack to itself nothing changes, provided
    [same_ok q s] holds on the source stack [s]. *)
Definition move_ref (arr : list ascii -> list ascii) (same_ok : nat -> list ascii -> bool)
    (ss : list (list ascii)) (m : Move) : option (list (list ascii)) :=
  let q := N.to_nat (quantity m) in
  if bool_decide (q = 0) then Some ss else
  i <-! stack_index (source m) ;;
  s <-! ss !! i ;;
  j <-! stack_index (destination m) ;;
  d <-! ss !! j ;;
  if bool_decide (i = j) then (if same_ok q s then Some ss else None)
  else if bool_decide (q <= length s) then
    Some (<[j := d ++ arr (drop (length s - q) s)]> (<[i := take (length s - q) s]> ss))
  else None.

(** One crate at a time reverses the block; from a stack to itself, a
    non-empty stack is popped and pushed back [q] times. *)
Definition single_ref := move_ref (@rev ascii) (fun _ s => bool_decide (s <> [])).

(** A block keeps its order; from a stack to itself, the pops must not
    run out of crates. *)
Definition batch_ref := move_ref (@id (list ascii)) (fun q s => bool_decide (q <= length s)).

(** A move all of whose pops and pushes succeed: a zero quantity, or two
    existing stacks and enough crates on the source. *)
Definition valid_move (ss : list (list ascii)) (m : Move) : bool :=
  bool_decide (quantity m = 0%N) ||
  match stack_index (source m), stack_index (destination m) with
  | Some i, Some j =>
      match ss !! i with
      | Some s => bool_decide (j < length ss) && bool_decide (N.to_nat (quantity m) <= length s)
      | None => false
      end
  | _, _ => false
  end.

(** ** Pops and pushes *)

Section Steps.
Context (src dst : N) (i j : nat).
Hypothesis Hi : stack_index src = Some i.
Hypothesis Hj : stack_index dst = Some j.

Lemma pop_from_snoc ss s c :
  ss !! i = Some (s ++ [c]) -> pop_from ss src = Some (<[i := s]> ss, c).
Proof. intros Hs. unfold pop_from. by rewrite Hi, Hs, pop_back_snoc. Qed.

Lemma pop_from_nil ss : ss !! i = Some [] -> pop_from ss src = None.
Proof. intros Hs. unfold pop_from. by rewrite Hi, Hs. Qed.

Lemma push_to_spec ss d c :
  ss !! j = Some d -> push_to ss dst c = Some (<[j := d ++ [c]]> ss).
Proof. intros Hd. unfold push_to. by rewrite Hj, Hd. Qed.

Lemma push_to_out ss c : ss !! j = None -> push_to ss dst c = None.
Proof. intros Hd. unfold push_to. by rewrite Hj, Hd. Qed.

End Steps.

(** Pops from the source take the top crates one by one. *)
Lemma pop_loop_spec k src i ss s crates :
  stack_index src = Some i -> ss !! i = Some s ->
  pop_loop k src ss crates =
    if bool_decide (k <= length s)
    then Some (<[i := take (length s - k) s]> ss, crates ++ rev (drop (length s - k) s))
    else None.
Proof.
  intros Hi. revert ss s crates.
  induction k as [|k IH]; intros ss s crates Hs; simpl.
  - rewrite Nat.sub_0_r, take_ge, drop_ge, list_insert_id by done.
    by rewrite app_nil_r.
  - destruct s as [|c s _] using rev_ind.
    { by rewrite (pop_from_nil src i Hi). }
    rewrite (pop_from_snoc src i Hi ss s c Hs); simpl.
    rewrite (IH _ s) by (apply list_lookup_insert_eq; eapply lookup_lt_Some; done).
    rewrite list_insert_insert_eq, length_app; simpl.
    case_bool_decide; case_bool_decide; try lia; [|done].
    replace (length s + 1 - S k) with (length s - k) by lia.
    rewrite take_app_le, drop_app_le by lia.
    by rewrite rev_app_distr, app_assoc.
Qed.

(** Pushes onto the destination append the crates in order. *)
Lemma push_loop_spec cs dst j ss d :
  stack_index dst = Some j -> ss !! j = Some d ->
  push_loop cs dst ss = Some (<[j := d ++ cs]> ss).
Proof.
  intros Hj. revert ss d. induction cs as [|c cs IH]; intros ss d Hd; simpl.
  - by rewrite app_nil_r, list_insert_id.
  - rewrite (push_to_spec dst j Hj ss d c Hd); simpl.
    rewrite (IH _ (d ++ [c])) by (apply list_lookup_insert_eq; eapply lookup_lt_Some; done).
    by rewrite list_insert_insert_eq, <-app_assoc.
Qed.

(** Looking up a stack other than the one just replaced. *)
Lemma lookup_insert_other (ss : list (list ascii)) i j x :
  i <> j -> <[i := x]> ss !! j = ss !! j.
Proof. intros. by apply list_lookup_insert_ne. Qed.

(** Looking up the stack just replaced. *)
Lemma lookup_insert_here (ss : list (list ascii)) i s x :
  ss !! i = Some s -> <[i := x]> ss !! i = Some x.
Proof. intros Hs. apply list_lookup_insert_eq. by eapply lookup_lt_Some. Qed.

#[local] Hint Resolve lookup_insert_here : rust.

(** One crate at a time between two different stacks. *)
Lemma perform_move_loop_distinct k src dst i j ss s d :
  stack_index src = Some i -> stack_index dst = Some j -> i <> j ->
  ss !! i = Some s -> ss !! j = Some d ->
  perform_move_loop k src dst ss =
    if bool_decide (k <= length s)
    then Some (<[j := d ++ rev (drop (length s - k) s)]> (<[i := take (length s - k) s]> ss))
    else None.
Proof.
  intros Hi Hj Hij. revert ss s d.
  induction k as [|k IH]; intros ss s d Hs Hd; simpl.
  - rewrite Nat.sub_0_r, take_ge, drop_ge by done; simpl.
    by rewrite app_nil_r, (list_insert_id ss i), (list_insert_id ss j).
  - destruct s as [|c s _] using rev_ind.
    { by rewrite (pop_from_nil src i Hi ss Hs). }
    rewrite (pop_from_snoc src i Hi ss s c Hs); simpl.
    rewrite (push_to_spec dst j Hj _ d c) by (rewrite lookup_insert_other; done); simpl.
    rewrite (IH _ s (d ++ [c])); cycle 1.
    { rewrite lookup_insert_other by done. eauto with rust. }
    { eapply lookup_insert_here. rewrite lookup_insert_other; done. }
    rewrite (list_insert_insert_ne _ i j) by done. rewrite !list_insert_insert_eq.
    rewrite length_app; simpl. case_bool_decide; case_bool_decide; try lia; [|done].
    replace (length s + 1 - S k) with (length s - k) by lia.
    rewrite take_app_le, drop_app_le, rev_app_distr by lia.
    by rewrite <-app_assoc.
Qed.

(** One crate at a time from a stack to itself: each crate is popped and
    pushed straight back, so only an empty stack makes it panic. *)
Lemma perform_move_loop_same k src i ss s :
  stack_index src = Some i -> ss !! i = Some s ->
  perform_move_loop k src src ss = if bool_decide (k = 0 \/ s <> []) then Some ss else None.
Proof.
  intros Hi Hs. induction k as [|k IH].
  { by rewrite bool_decide_true by naive_solver. }
  destruct s as [|c s _] using rev_ind.
  { rewrite bool_decide_false by naive_solver. simpl. by rewrite (pop_from_nil src i Hi ss Hs). }
  assert (Hne : s ++ [c] <> []) by (by destruct s).
  rewrite bool_decide_true by naive_solver. simpl.
  rewrite (pop_from_snoc src i Hi ss s c Hs); simpl.
  rewrite (push_to_spec src i Hi _ s c) by eauto with rust; simpl.
  rewrite list_insert_insert_eq, list_insert_id by done.
  rewrite IH, bool_decide_true; naive_solver.
Qed.

(** The first loop of [perform_batch_move], panics included. *)
Lemma pop_loop_full k src ss crates :
  pop_loop k src ss crates =
    match k with
    | O => Some (ss, crates)
    | S _ =>
        i <-! stack_index src ;; s <-! ss !! i ;;
        if bool_decide (k <= length s)
        then Some (<[i := take (length s - k) s]> ss, crates ++ rev (drop (length s - k) s))
        else None
    end.
Proof.
  destruct k as [|k]; [done|].
  destruct (stack_index src) as [i|] eqn:Hi; [|by simpl; unfold pop_from; rewrite Hi].
  destruct (ss !! i) as [s|] eqn:Hs; [|by simpl; unfold pop_from; rewrite Hi, Hs].
  by apply pop_loop_spec.
Qed.

(** The second loop of [perform_batch_move], panics included. *)
Lemma push_loop_full cs dst ss :
  push_loop cs dst ss =
    match cs with
    | [] => Some ss
    | _ :: _ => j <-! stack_index dst ;; d <-! ss !! j ;; Some (<[j := d ++ cs]> ss)
    end.
Proof.
  destruct cs as [|c cs]; [done|].
  destruct (stack_index dst) as [j|] eqn:Hj; [|by simpl; unfold push_to; rewrite Hj].
  destruct (ss !! j) as [d|] eqn:Hd; [|by simpl; unfold push_to; rewrite Hj, Hd].
  by apply push_loop_spec.
Qed.

(** Two stack numbers with the same index are equal. *)
Lemma stack_index_inj a b i :
  stack_index a = Some i -> stack_index b = Some i -> a = b.
Proof.
  unfold stack_index, checked_sub.
  destruct (N.leb_spec 1 a), (N.leb_spec 1 b); simpl; intros; simplify_eq; lia.
Qed.

(** A single move that pops one crate and then cannot push it. *)
Lemma perform_move_loop_no_dst k src dst i ss s :
  stack_index src = Some i -> ss !! i = Some s ->
  (forall x c, push_to (<[i := x]> ss) dst c = None) ->
  perform_move_loop (S k) src dst ss = None.
Proof.
  intros Hi Hs Hp. destruct s as [|c s _] using rev_ind; simpl.
  - by rewrite (pop_from_nil src i Hi ss Hs).
  - rewrite (pop_from_snoc src i Hi ss s c Hs); simpl. by rewrite Hp.
Qed.

(** The block of the top [k] crates, when the stack has them. *)
Lemma drop_top_length (s : list ascii) k :
  k <= length s -> length (drop (length s - k) s) = k.
Proof. intros. rewrite length_drop. lia. Qed.

(** ** Refinement: the loops compute the reference behaviour *)

(** [perform_batch_move] does exactly what [batch_ref] describes, on
    every state and move, panics included. *)
Theorem perform_batch_move_eq st m :
  perform_batch_move st m = mkState <$> batch_ref (stacks st) m.
Proof.
  unfold perform_batch_move, batch_ref, move_ref. rewrite pop_loop_full.
  case_bool_decide as Hq; [by rewrite Hq|].
  destruct (N.to_nat (quantity m)) as [|k] eqn:Hk; [lia|].
  destruct (stack_index (source m)) as [i|] eqn:Hi; [|done]; simpl.
  destruct (stacks st !! i) as [s|] eqn:Hs; [|done]; simpl.
  case_bool_decide as Hle; simpl.
  - rewrite rev_involutive, push_loop_full.
    destruct (drop (length s - S k) s) as [|c cs] eqn:Hdrop.
    { apply (f_equal length) in Hdrop. rewrite drop_top_length in Hdrop; done. }
    destruct (stack_index (destination m)) as [j|] eqn:Hj; [|done]; simpl.
    case_bool_decide as Hij.
    + subst j. rewrite (lookup_insert_here _ i s) by done. rewrite Hs; simpl.
      rewrite <-Hdrop, list_insert_insert_eq.
      by rewrite take_drop, list_insert_id.
    + rewrite lookup_insert_other by done.
      destruct (stacks st !! j) as [d|]; simpl; [|done].
      done.
  - destruct (stack_index (destination m)) as [j|]; simpl; [|done].
    destruct (stacks st !! j); simpl; [|done].
    by case_bool_decide.
Qed.

(** [perform_move] does exactly what [single_ref] describes, on every
    state and move, panics included. *)
Theorem perform_move_eq st m :
  perform_move st m = mkState <$> single_ref (stacks st) m.
Proof.
  unfold perform_move, single_ref, move_ref.
  case_bool_decide as Hq; [by rewrite Hq|].
  destruct (N.to_nat (quantity m)) as [|k] eqn:Hk; [lia|].
  destruct (stack_index (source m)) as [i|] eqn:Hi; [|by simpl; unfold pop_from; rewrite Hi].
  destruct (stacks st !! i) as [s|] eqn:Hs; [|by simpl; unfold pop_from; rewrite Hi, Hs].
  destruct (stack_index (destination m)) as [j|] eqn:Hj.
  2: { by rewrite (perform_move_loop_no_dst k _ _ i _ s) by (done || by unfold push_to; rewrite Hj). }
  destruct (stacks st !! j) as [d|] eqn:Hd.
  2: { assert (i <> j) by congruence.
       rewrite (perform_move_loop_no_dst k _ _ i _ s); try done.
       intros x c. unfold push_to. by rewrite Hj, lookup_insert_other, Hd. }
  case_bool_decide as Hij.
  - subst j. rewrite <-(stack_index_inj _ _ _ Hi Hj).
    rewrite (perform_move_loop_same _ _ i _ s) by done.
    by do 2 case_bool_decide; naive_solver.
  - rewrite (perform_move_loop_distinct _ _ _ i j _ s d) by done.
    by case_bool_decide.
Qed.

(** Between two different existing stacks, with enough crates on the
    source, a move replaces the two stacks. *)
Lemma move_ref_distinct arr ok ss m i j s d :
  arr [] = [] ->
  stack_index (source m) = Some i -> stack_index (destination m) = Some j -> i <> j ->
  ss !! i = Some s -> ss !! j = Some d -> N.to_nat (quantity m) <= length s ->
  move_ref arr ok ss m =
    Some (<[j := d ++ arr (drop (length s - N.to_nat (quantity m)) s)]>
          (<[i := take (length s - N.to_nat (quantity m)) s]> ss)).
Proof.
  intros Harr Hi Hj Hij Hs Hd Hq. unfold move_ref.
  case_bool_decide as H0.
  - rewrite H0, Nat.sub_0_r, drop_ge, take_ge, Harr, app_nil_r by done.
    by rewrite (list_insert_id ss i), (list_insert_id ss j).
  - rewrite Hi; simpl. rewrite Hs; simpl. rewrite Hj; simpl. rewrite Hd; simpl.
    by rewrite bool_decide_false, bool_decide_true.
Qed.

(** C1: between two different stacks, a batch move of [q] crates that
    the source holds takes its top [q] crates off and puts them on the
    destination in the same order. *)
Theorem perform_batch_move_block st m i j s d :
  stack_index (source m) = Some i -> stack_index (destination m) = Some j -> i <> j ->
  stacks st !! i = Some s -> stacks st !! j = Some d -> N.to_nat (quantity m) <= length s ->
  perform_batch_move st m =
    Some (mkState (<[j := d ++ drop (length s - N.to_nat (quantity m)) s]>
                   (<[i := take (length s - N.to_nat (quantity m)) s]> (stacks st)))).
Proof.
  intros. rewrite perform_batch_move_eq. unfold batch_ref.
  by rewrite (move_ref_distinct _ _ _ m i j s d).
Qed.

Lemma perform_batch_move_block_witness :
  stack_index 1 = Some 0 /\ stack_index 3 = Some 2 /\ 0 <> 2 /\
  [["Z"; "N"; "D"]; ["M"; "C"]; ["P"]]%char !! 0 = Some ["Z"; "N"; "D"]%char /\
  [["Z"; "N"; "D"]; ["M"; "C"]; ["P"]]%char !! 2 = Some ["P"]%char /\
  N.to_nat 3 <= length ["Z"; "N"; "D"]%char /\
  perform_batch_move (mkState [["Z"; "N"; "D"]; ["M"; "C"]; ["P"]]%char) (mkMove 3 1 3)
  = Some (mkState [[]; ["M"; "C"]; ["P"; "Z"; "N"; "D"]]%char).
Proof.
  do 6 (split; [first [reflexivity | lia | (simpl; lia)]|]).
  rewrite (perform_batch_move_block (mkState [["Z"; "N"; "D"]; ["M"; "C"]; ["P"]]%char) (mkMove 3 1 3)
             0 2 ["Z"; "N"; "D"]%char ["P"]%char) by first [reflexivity | lia | (simpl; lia)].
  reflexivity.
Defined.

(** C2: between two different stacks, a one-at-a-time move of [q]
    crates that the source holds puts its top [q] crates on the
    destination in reverse order. *)
Theorem perform_move_reversed st m i j s d :
  stack_index (source m) = Some i -> stack_index (destination m) = Some j -> i <> j ->
  stacks st !! i = Some s -> stacks st !! j = Some d -> N.to_nat (quantity m) <= length s ->
  perform_move st m =
    Some (mkState (<[j := d ++ rev (drop (length s - N.to_nat (quantity m)) s)]>
                   (<[i := take (length s - N.to_nat (quantity m)) s]> (stacks st)))).
Proof.
  intros. rewrite perform_move_eq. unfold single_ref.
  by rewrite (move_ref_distinct _ _ _ m i j s d).
Qed.

Lemma perform_move_reversed_witness :
  stack_index 1 = Some 0 /\ stack_index 3 = Some 2 /\ 0 <> 2 /\
  [["Z"; "N"; "D"]; ["M"; "C"]; ["P"]]%char !! 0 = Some ["Z"; "N"; "D"]%char /\
  [["Z"; "N"; "D"]; ["M"; "C"]; ["P"]]%char !! 2 = Some ["P"]%char /\
  N.to_nat 3 <= length ["Z"; "N"; "D"]%char /\
  perform_move (mkState [["Z"; "N"; "D"]; ["M"; "C"]; ["P"]]%char) (mkMove 3 1 3)
  = Some (mkState [[]; ["M"; "C"]; ["P"; "D"; "N"; "Z"]]%char).
Proof.
  do 6 (split; [first [reflexivity | lia | (simpl; lia)]|]).
  rewrite (perform_move_reversed (mkState [["Z"; "N"; "D"]; ["M"; "C"]; ["P"]]%char) (mkMove 3 1 3)
             0 2 ["Z"; "N"; "D"]%char ["P"]%char) by first [reflexivity | lia | (simpl; lia)].
  reflexivity.
Defined.

(** The example of the specification: one crate from stack 2 to stack
    1, where both semantics agree. *)
Example spec_single_move_example :
  perform_move (mkState [["Z"; "N"]; ["M"; "C"; "D"]; ["P"]]%char) (mkMove 1 2 1) =
    Some (mkState [["Z"; "N"; "D"]; ["M"; "C"]; ["P"]]%char) /\
  perform_batch_move (mkState [["Z"; "N"]; ["M"; "C"; "D"]; ["P"]]%char) (mkMove 1 2 1) =
    Some (mkState [["Z"; "N"; "D"]; ["M"; "C"]; ["P"]]%char).
Proof. split; reflexivity. Qed.

(** ** Parsing moves *)

Lemma show_N_no_whitespace n : Forall (fun c => is_whitespace c = false) (show_N n).
Proof. eapply Forall_impl; [apply (show_N_value n)|]. apply digit_not_whitespace. Qed.


Lemma split_whitespace_render m :
  split_whitespace (render_move m) =
    [s2l "move"; show_N (quantity m); s2l "from"; show_N (source m); s2l "to"; show_N (destination m)].
Proof.
  unfold split_whitespace, split_by, render_move.
  rewrite !split_by_word_sep, split_by_word_end
    by first [apply show_N_no_whitespace | reflexivity | (cbv; repeat constructor)].
  by rewrite !filter_cons_True by first [apply show_N_not_nil | done].
Qed.

(** [Move::from_str] reads back every move written in the input
    format, for all quantities and stack numbers that fit in a [u64]. *)
Theorem Move_from_str_render m :
  (quantity m < modulus 64)%N -> (source m < modulus 64)%N -> (destination m < modulus 64)%N ->
  Move_from_str (render_move m) = Some (Ok m).
Proof.
  intros Hq Hs Hd. unfold Move_from_str. rewrite split_whitespace_render. simpl.
  rewrite !from_str_uint_show by done. by destruct m.
Qed.

Lemma Move_from_str_render_witness :
  (3 < modulus 64)%N /\ (1 < modulus 64)%N /\ (2 < modulus 64)%N /\
  Move_from_str (render_move (mkMove 3 1 2)) = Some (Ok (mkMove 3 1 2)).
Proof.
  assert (H3 : (3 < modulus 64)%N) by (vm_compute; reflexivity).
  assert (H1 : (1 < modulus 64)%N) by (vm_compute; reflexivity).
  assert (H2 : (2 < modulus 64)%N) by (vm_compute; reflexivity).
  split; [exact H3|]. split; [exact H1|]. split; [exact H2|].
  exact (Move_from_str_render (mkMove 3 1 2) H3 H1 H2).
Defined.

(** ** Reading the answer *)

(** C29: [get_topmost_crates] panics exactly when some stack is empty. *)
Theorem get_topmost_crates_None st :
  get_topmost_crates st = None <-> Exists (fun s => s = []) (stacks st).
Proof.
  unfold get_topmost_crates. induction (stacks st) as [|s ss IH]; simpl.
  { split; [done|]. intros H. inversion H. }
  rewrite Exists_cons, <-IH, <-last_None.
  destruct (last s); simpl; [|naive_solver].
  destruct (topmost ss); naive_solver.
Qed.

Lemma get_topmost_crates_None_witness :
  Exists (fun s => s = []) (stacks (mkState [["A"%char]; []])) /\
  get_topmost_crates (mkState [["A"%char]; []]) = None.
Proof.
  assert (H : Exists (fun s : list ascii => s = []) (stacks (mkState [["A"%char]; []])))
    by (simpl; right; left; reflexivity).
  split; [exact H|]. exact (proj2 (get_topmost_crates_None _) H).
Defined.

(** ** Consequences for the two move semantics

    The reference behaviour tells the two methods apart, or not: they
    agree on one crate, both refuse an oversized move between two
    stacks, and only the batch move refuses one from a stack to itself. *)

(** C27: moving one crate, the two semantics agree on every state. *)
Theorem perform_move_batch_one st m :
  quantity m = 1%N -> perform_move st m = perform_batch_move st m.
Proof.
  intros Hq. rewrite perform_move_eq, perform_batch_move_eq. f_equal.
  unfold single_ref, batch_ref, move_ref. rewrite Hq. change (N.to_nat 1) with 1. simpl.
  destruct (stack_index (source m)); simpl; [|done].
  destruct (stacks st !! n) as [s|]; simpl; [|done].
  destruct (stack_index (destination m)); simpl; [|done].
  destruct (stacks st !! n0); simpl; [|done].
  case_bool_decide; [by destruct s|]. case_bool_decide; [|done].
  assert (length (drop (length s - 1) s) <= 1) by (rewrite length_drop; lia).
  by destruct (drop (length s - 1) s) as [|x [|y t]]; simpl in *; [| |lia].
Qed.

Lemma perform_move_batch_one_witness :
  quantity (mkMove 1 2 1) = 1%N /\
  perform_move (mkState [["Z"; "N"]; ["M"; "C"; "D"]; ["P"]]%char) (mkMove 1 2 1)
  = perform_batch_move (mkState [["Z"; "N"]; ["M"; "C"; "D"]; ["P"]]%char) (mkMove 1 2 1).
Proof. split; [reflexivity|]. apply perform_move_batch_one. reflexivity. Defined.

(** Between two different stacks, asking for more crates than the
    source holds panics, whatever the arrangement. *)
Lemma move_ref_oversized arr ok ss m i s :
  source m <> destination m -> stack_index (source m) = Some i -> ss !! i = Some s ->
  length s < N.to_nat (quantity m) -> move_ref arr ok ss m = None.
Proof.
  intros Hsd Hi Hs Hlt. unfold move_ref. rewrite bool_decide_false by lia.
  rewrite Hi; simpl. rewrite Hs; simpl.
  destruct (stack_index (destination m)) as [j|] eqn:Hj; simpl; [|done].
  destruct (ss !! j); simpl; [|done].
  rewrite bool_decide_false by (intros ->; eauto using stack_index_inj).
  by rewrite bool_decide_false by lia.
Qed.

(** C26: a move of more crates than the source stack holds, between two
    different stacks, panics under both semantics: nothing is silently
    truncated. *)
Theorem oversized_move_panics st m i s :
  source m <> destination m -> stack_index (source m) = Some i -> stacks st !! i = Some s ->
  length s < N.to_nat (quantity m) ->
  perform_move st m = None /\ perform_batch_move st m = None.
Proof.
  intros. rewrite perform_move_eq, perform_batch_move_eq.
  unfold single_ref, batch_ref. by rewrite !(move_ref_oversized _ _ _ m i s).
Qed.

Lemma oversized_move_panics_witness :
  (1 <> 2)%N /\ stack_index 1 = Some 0 /\
  [["A"%char]; ["B"%char]] !! 0 = Some ["A"%char] /\ length ["A"%char] < N.to_nat 2 /\
  perform_move (mkState [["A"]; ["B"]]%char) (mkMove 2 1 2) = None /\
  perform_batch_move (mkState [["A"]; ["B"]]%char) (mkMove 2 1 2) = None.
Proof.
  do 4 (split; [first [reflexivity | discriminate | (simpl; lia)]|]).
  apply (oversized_move_panics _ (mkMove 2 1 2) 0 ["A"%char]);
    simpl; first [reflexivity | discriminate | lia].
Defined.

(** C28: from a stack to itself, [perform_move] never panics on a
    non-empty stack, however many crates the move asks for, while
    [perform_batch_move] panics when the stack holds too few. *)
Theorem same_stack_oversized st m i s :
  source m = destination m -> stack_index (source m) = Some i -> stacks st !! i = Some s ->
  s <> [] -> length s < N.to_nat (quantity m) ->
  perform_move st m = Some st /\ perform_batch_move st m = None.
Proof.
  intros Hsd Hi Hs Hne Hlt. rewrite perform_move_eq, perform_batch_move_eq.
  unfold single_ref, batch_ref, move_ref. rewrite bool_decide_false by lia.
  rewrite Hi; simpl. rewrite Hs; simpl. rewrite <-Hsd, Hi; simpl. rewrite Hs; simpl.
  rewrite !bool_decide_true by done. rewrite bool_decide_false by lia. by destruct st.
Qed.

Lemma same_stack_oversized_witness :
  (1 = 1)%N /\ stack_index 1 = Some 0 /\ [["A"%char]; ["B"%char]] !! 0 = Some ["A"%char] /\
  ["A"%char] <> [] /\ length ["A"%char] < N.to_nat 5 /\
  perform_move (mkState [["A"]; ["B"]]%char) (mkMove 5 1 1) = Some (mkState [["A"]; ["B"]]%char) /\
  perform_batch_move (mkState [["A"]; ["B"]]%char) (mkMove 5 1 1) = None.
Proof.
  do 3 (split; [reflexivity|]). split; [discriminate|]. split; [simpl; lia|].
  apply (same_stack_oversized _ (mkMove 5 1 1) 0 ["A"%char]);
    simpl; first [reflexivity | discriminate | lia].
Defined.

(** ** The whole program on the puzzle's example *)

(** The example drawing and moves of the puzzle statement. *)
Definition example_input : str := s2l "    [D]    
[N] [C]    
[Z] [M] [P]
 1   2   3 

move 1 from 2 to 1
move 3 from 1 to 3
move 2 from 2 to 1
move 1 from 1 to 2
".

(** On the example, the program body run with three stacks prints
    [MCD]; [main] itself, with its hard-coded nine stacks, panics in
    [get_topmost_crates] on the six stacks the drawing leaves empty. *)
Theorem main_example :
  main_with 3 example_input = Some (s2l "MCD") /\ main example_input = None.
Proof. split; vm_compute; reflexivity. Qed.

End MySolution.
