(* ===== verification/Crane.v ===== *)
(** * Day 05: the crane interface and the invariants of a run

    The two move methods of [State] ([perform_move], one crate at a
    time, and [perform_batch_move], a block) are clients' view of a
    crane.  The [Crane] class states what a move function promises: it
    behaves as the reference [move_ref] of [Stacks] with an arrangement
    of the moved block that loses no crate.  Both methods are instances
    (through [perform_move_eq] and [perform_batch_move_eq]); the
    invariants of a run of moves, a step relation [crane_step], and the
    absence of panics on valid moves are proved once against the class.
    The consequences that set the two semantics apart are in [Stacks],
    next to the methods. *)

From stdpp Require Import relations.
From S2P Require Import Prelude RustStd Stacks.

Module Cranes.

Import MySolution.

(** ** The crane interface

    What a move function promises to a client that runs moves: it acts
    as [move_ref] with an arrangement [crane_arr] of the moved block that
    loses no crate, and from a stack to itself it succeeds whenever the
    stack holds the requested crates. *)
Class Crane (apply : State -> Move -> option State) := {
  crane_arr : list ascii -> list ascii;
  crane_same_ok : nat -> list ascii -> bool;
  crane_arr_perm : forall l, crane_arr l ≡ₚ l;
  crane_same_ok_enough : forall q s, 0 < q -> q <= length s -> crane_same_ok q s = true;
  crane_spec : forall st m, apply st m = mkState <$> move_ref crane_arr crane_same_ok (stacks st) m
}.

(** One step of the simulator: some move applied successfully. *)
Inductive crane_step (apply : State -> Move -> option State) : State -> State -> Prop :=
| crane_step_move st m st' : apply st m = Some st' -> crane_step apply st st'.

(** Replacing one stack: the crates change by exactly the two stacks. *)
Lemma concat_insert_perm (ss : list (list ascii)) i x y :
  ss !! i = Some x -> concat (<[i := y]> ss) ++ x ≡ₚ concat ss ++ y.
Proof.
  intros Hx. rewrite <-(take_drop_middle ss i x Hx) at 2.
  rewrite insert_take_drop by (eapply lookup_lt_Some; done).
  rewrite !concat_app; simpl. solve_Permutation.
Qed.

#[export] Instance single_crane : Crane perform_move.
Proof.
  refine {| crane_arr := @rev ascii; crane_same_ok := fun _ s => bool_decide (s <> []);
            crane_spec := perform_move_eq |}.
  - intros l. by rewrite <-Permutation_rev.
  - intros q s ??. apply bool_decide_true. intros ->. simpl in *. lia.
Defined.

#[export] Instance batch_crane : Crane perform_batch_move.
Proof.
  refine {| crane_arr := @id (list ascii); crane_same_ok := fun q s => bool_decide (q <= length s);
            crane_spec := perform_batch_move_eq |}.
  - done.
  - intros q s ??. by apply bool_decide_true.
Defined.

(** A move that succeeds keeps the number of stacks, and loses or
    creates no crate, whatever arrangement of the block it uses. *)
Lemma move_ref_preserves arr ok ss m ss' :
  (forall l, arr l ≡ₚ l) -> move_ref arr ok ss m = Some ss' ->
  length ss' = length ss /\ concat ss' ≡ₚ concat ss.
Proof.
  intros Harr. unfold move_ref. case_bool_decide; [by intros [= <-]|].
  destruct (stack_index (source m)) as [i|]; simpl; [|done].
  destruct (ss !! i) as [s|] eqn:Hs; simpl; [|done].
  destruct (stack_index (destination m)) as [j|]; simpl; [|done].
  destruct (ss !! j) as [d|] eqn:Hd; simpl; [|done].
  case_bool_decide as Hij; [by destruct ok; [intros [= <-]|]|].
  case_bool_decide; [intros [= <-]|done].
  split; [by rewrite !length_insert|].
  set (rest := take (length s - N.to_nat (quantity m)) s).
  set (taken := drop (length s - N.to_nat (quantity m)) s).
  assert (H1 := concat_insert_perm ss i s rest Hs).
  assert (H2 := concat_insert_perm (<[i := rest]> ss) j d (d ++ arr taken)).
  rewrite lookup_insert_other in H2 by done. specialize (H2 Hd).
  assert (Hsplit : s = rest ++ taken) by (symmetry; apply take_drop).
  apply (Permutation_app_inv_r d). rewrite H2, Harr.
  apply (Permutation_app_inv_r rest).
  transitivity ((concat (<[i := rest]> ss) ++ s) ++ d); [rewrite Hsplit; solve_Permutation|].
  rewrite H1. solve_Permutation.
Qed.

(** ** Clients of the interface *)

Section Client.
Context (apply : State -> Move -> option State) `{!Crane apply}.

(** A successful move keeps the stacks and the crates. *)
Lemma crane_preserves st m st' :
  apply st m = Some st' ->
  length (stacks st') = length (stacks st) /\ concat (stacks st') ≡ₚ concat (stacks st).
Proof.
  rewrite crane_spec. destruct (move_ref _ _ _ _) eqn:E; simpl; [|done].
  intros [= <-]; simpl. eapply move_ref_preserves; [apply crane_arr_perm | done].
Qed.

(** C12: every state the simulator reaches has as many stacks as the
    state it started from, and holds the same crates. *)
Theorem crane_reachable_invariant st st' :
  rtc (crane_step apply) st st' ->
  length (stacks st') = length (stacks st) /\ concat (stacks st') ≡ₚ concat (stacks st).
Proof.
  induction 1 as [|x y z Hxy _ IH]; [done|].
  inversion Hxy as [? m ? Happ]; subst.
  destruct (crane_preserves _ _ _ Happ), IH. split; [congruence | by etrans].
Qed.

(** Running the lines of the move list walks the step relation. *)
Lemma for_each_moves_reachable ls st st' :
  for_each (apply_move_line apply) ls st = Some st' -> rtc (crane_step apply) st st'.
Proof.
  revert st. induction ls as [|l ls IH]; intros st; simpl; [by intros [= <-]|].
  destruct (apply_move_line apply st l) as [st1|] eqn:E; [|done].
  intros Hrun. eapply rtc_l; [|by apply IH].
  unfold apply_move_line in E. inv_bind. destruct r; simplify_eq/=. by econstructor.
Qed.

End Client.

(** C14: a valid move never panics, whichever crane runs it. *)
Theorem crane_valid_total (apply : State -> Move -> option State) `{!Crane apply} st m :
  valid_move (stacks st) m = true -> is_Some (apply st m).
Proof.
  rewrite crane_spec. unfold valid_move, move_ref. intros Hv.
  destruct (decide (N.to_nat (quantity m) = 0)) as [Hq|Hq].
  { by rewrite bool_decide_true. }
  rewrite bool_decide_false by done. rewrite bool_decide_false in Hv by lia. simpl in Hv.
  destruct (stack_index (source m)) as [i|]; [|done].
  destruct (stack_index (destination m)) as [j|]; [|done].
  destruct (stacks st !! i) as [s|] eqn:Hs; [|done]. simpl.
  apply andb_prop in Hv as [Hjl%bool_decide_eq_true_1 Hle%bool_decide_eq_true_1].
  destruct (lookup_lt_is_Some_2 (stacks st) j Hjl) as [d ->]. simpl.
  case_bool_decide; [|by rewrite bool_decide_true].
  rewrite crane_same_ok_enough by lia. done.
Qed.


Lemma crane_reachable_invariant_witness :
  rtc (crane_step perform_batch_move) (mkState [["A"%char]; []]) (mkState [[]; ["A"%char]]) /\
  length (stacks (mkState [[]; ["A"%char]])) = length (stacks (mkState [["A"%char]; []])) /\
  concat (stacks (mkState [[]; ["A"%char]])) ≡ₚ concat (stacks (mkState [["A"%char]; []])).
Proof.
  assert (H : rtc (crane_step perform_batch_move) (mkState [["A"%char]; []]) (mkState [[]; ["A"%char]])).
  { eapply rtc_l; [|apply rtc_refl]. apply (crane_step_move _ _ (mkMove 1 1 2)). reflexivity. }
  split; [exact H|]. exact (crane_reachable_invariant perform_batch_move _ _ H).
Defined.

Lemma crane_valid_total_witness :
  valid_move [["A"%char]; []] (mkMove 1 1 2) = true /\
  is_Some (perform_batch_move (mkState [["A"%char]; []]) (mkMove 1 1 2)).
Proof.
  assert (H : valid_move [["A"%char]; []] (mkMove 1 1 2) = true) by reflexivity.
  split; [exact H|].
  exact (crane_valid_total perform_batch_move (mkState [["A"%char]; []]) (mkMove 1 1 2) H).
Defined.

End Cranes.
