(* ===== verification/CrateParser.v ===== *)
(** * Day 05, top level: the nom parser of the crate drawing

    [src/day_05/src/main.rs], lines 1-69.  A row of the drawing is a
    sequence of three-character cells separated by one space: a crate
    ["[X]"] or a hole ["   "].  [parse_crate_line] reads the first cell
    and then loops over [opt(preceded(tag(" "), parse_crate_or_hole))];
    [main] keeps the rows that [all_consuming(parse_crate_line)] accepts.

    The loop is modelled with fuel and shown to terminate within the
    length of the input; the parser is shown to be the exact inverse of
    the rendering of a row ([render_row]), in both directions; and the
    position-based reader of [my_solution::main] is shown to agree with
    it on every rendered row. *)

From S2P Require Import Prelude RustStd Nom Stacks.

Module CrateParser.

(** [struct Crate(char)] *)
Record Crate := mkCrate { crate_char : ascii }.

#[export] Instance Crate_eq_dec : EqDecision Crate.
Proof. solve_decision. Defined.

(** [parse_crate]: [delimited(tag("["), take(1), tag("]"))] mapped to
    the crate of its only character; [take(1)] returns exactly one
    character, so the closure's [unwrap] never sees an empty string
    ([parse_crate_char] below); the default is never used. *)
Definition crate_of (single_char_string : str) : Crate :=
  mkCrate (default " "%char (head single_char_string)).

(** [let mut parser = delimited(tag("["), take(1_usize), tag("]"))] *)
Definition crate_parser : Nom.Parser str :=
  Nom.delimited (Nom.tag (s2l "[")) (Nom.take 1) (Nom.tag (s2l "]")).

Definition parse_crate : Nom.Parser Crate := Nom.map crate_parser crate_of.

(** [parse_hole]: three spaces, the value dropped. *)
Definition parse_hole : Nom.Parser unit :=
  Nom.map (Nom.tag (s2l "   ")) (fun _ => tt).

(** [parse_crate_or_hole]: a crate, else a hole. *)
Definition parse_crate_or_hole : Nom.Parser (option Crate) :=
  Nom.alt (Nom.map parse_crate Some) (Nom.map parse_hole (fun _ => None)).

(** The [loop] of [parse_crate_line]: each round parses a space and a
    cell, and stops at the first round that does not. *)
Fixpoint crate_line_loop (fuel : nat) (tail : str) (maybe_crates : list (option Crate))
    : Nom.IResult (list (option Crate)) :=
  match fuel with
  | O => Ok (tail, maybe_crates)
  | S f =>
      match Nom.opt (Nom.preceded (Nom.tag (s2l " ")) parse_crate_or_hole) tail with
      | Err e => Err e
      | Ok (next_i, Some c) => crate_line_loop f next_i (maybe_crates ++ [c])
      | Ok (_, None) => Ok (tail, maybe_crates)
      end
  end.

(** [parse_crate_line]: the first cell, then the loop; the fuel is one
    more than the characters left, which [crate_line_loop_fuel] shows
    is enough. *)
Definition parse_crate_line : Nom.Parser (list (option Crate)) := fun input =>
  r <-? parse_crate_or_hole input ;;
  crate_line_loop (S (length r.1)) r.1 [r.2].

(** The body of [main]'s loop: [if let Ok((_empty_tail, parsed_crates))
    = all_consuming(parse_crate_line)(line)], the row to push, if any. *)
Definition kept_row (line : str) : option (list (option Crate)) :=
  match Nom.all_consuming parse_crate_line line with Ok r => Some r.2 | Err _ => None end.

(** The top-level [main] over the lines of [example.txt]: the rows that
    parse completely, in order (the debug printing is not modelled). *)
Definition main (input : str) : list (list (option Crate)) :=
  omap kept_row (lines input).

(** ** Rendering a row *)

(** A cell as it is drawn. *)
Definition render_slot (x : option Crate) : str :=
  match x with
  | Some (mkCrate c) => ["["; c; "]"]%char
  | None => [" "; " "; " "]%char
  end.

(** A row: the cells separated by single spaces. *)
Definition render_row (x : option Crate) (xs : list (option Crate)) : str :=
  render_slot x ++ concat (List.map (fun y => " "%char :: render_slot y) xs).

(** The cells after the first one, each with its leading space. *)
Definition render_cells (xs : list (option Crate)) : str :=
  concat (List.map (fun y => " "%char :: render_slot y) xs).

Lemma render_row_cells x xs : render_row x xs = render_slot x ++ render_cells xs.
Proof. done. Qed.

Lemma render_cells_cons y ys :
  render_cells (y :: ys) = " "%char :: render_slot y ++ render_cells ys.
Proof. done. Qed.

(** ** One cell *)

(** A drawn cell is read back, whatever follows it. *)
Lemma parse_crate_or_hole_render x rest :
  parse_crate_or_hole (render_slot x ++ rest) = Ok (rest, x).
Proof. by destruct x as [[c]|]. Qed.

(** A crate the parser accepts is a drawn crate. *)
Lemma parse_crate_Ok input rest c :
  parse_crate input = Ok (rest, c) -> input = render_slot (Some c) ++ rest.
Proof.
  intros (o & Hd & ->)%Nom.map_Ok.
  apply Nom.delimited_Ok in Hd as (r1 & a & r2 & b & H1 & H2 & H3).
  apply Nom.tag_Ok in H1 as [-> _]. apply Nom.take_Ok in H2 as [-> Hl].
  apply Nom.tag_Ok in H3 as [-> _].
  by destruct o as [|x [|]]; simpl in Hl; [lia| |lia].
Qed.

(** A cell the parser accepts is a drawn cell. *)
Lemma parse_crate_or_hole_Ok input rest x :
  parse_crate_or_hole input = Ok (rest, x) -> input = render_slot x ++ rest.
Proof.
  intros [(c & Hc & ->)%Nom.map_Ok | (u & Hh & ->)%Nom.map_Ok]%Nom.alt_Ok.
  - by apply parse_crate_Ok.
  - apply Nom.map_Ok in Hh as (t & Ht & _). by apply Nom.tag_Ok in Ht as [-> _].
Qed.

(** The closure of [parse_crate] always receives exactly one character,
    so its [chars().next().unwrap()] never panics. *)
Lemma parse_crate_char input rest o :
  crate_parser input = Ok (rest, o) ->
  exists c, o = [c].
Proof.
  intros (r1 & a & r2 & b & _ & H2 & _)%Nom.delimited_Ok.
  apply Nom.take_Ok in H2 as [_ Hl].
  destruct o as [|c [|]]; simpl in Hl; [lia| by exists c | lia].
Qed.

Lemma parse_crate_char_witness :
  crate_parser (s2l "[A] ") = Ok (s2l " ", s2l "A") /\ exists c, s2l "A" = [c].
Proof.
  assert (H : crate_parser (s2l "[A] ") = Ok (s2l " ", s2l "A")) by reflexivity.
  split; [exact H|]. exact (parse_crate_char _ _ _ H).
Defined.

(** ** The loop *)

(** One round of the loop on the rest of the line. *)
Definition next_cell (tail : str) : Nom.IResult (option (option Crate)) :=
  Nom.opt (Nom.preceded (Nom.tag (s2l " ")) parse_crate_or_hole) tail.

Lemma next_cell_render y rest : next_cell (" "%char :: render_slot y ++ rest) = Ok (rest, Some y).
Proof.
  unfold next_cell.
  change (" "%char :: render_slot y ++ rest) with (s2l " " ++ render_slot y ++ rest).
  eapply Nom.opt_preceded_Ok; [apply Nom.tag_app | apply parse_crate_or_hole_render].
Qed.

Lemma next_cell_nil : next_cell [] = Ok ([], None).
Proof. done. Qed.

(** A round that reads a cell consumed a space and a drawn cell. *)
Lemma next_cell_Some tail next c :
  next_cell tail = Ok (next, Some c) -> tail = " "%char :: render_slot c ++ next.
Proof.
  unfold next_cell, Nom.opt, Nom.preceded.
  destruct (Nom.tag (s2l " ") tail) as [[r1 o1]|e] eqn:E1; simpl.
  - apply Nom.tag_Ok in E1 as [-> _].
    destruct (parse_crate_or_hole r1) as [[r2 x]|[]] eqn:E2; simpl; try done.
    intros [= <- <-]. by rewrite (parse_crate_or_hole_Ok _ _ _ E2).
  - by destruct e.
Qed.

Lemma next_cell_None tail next : next_cell tail = Ok (next, None) -> next = tail.
Proof.
  unfold next_cell, Nom.opt, Nom.preceded.
  destruct (Nom.tag _ tail) as [[r1 o1]|[]]; simpl; try done.
  - destruct (parse_crate_or_hole r1) as [[]|[]]; simpl; by intros [= ->].
  - by intros [= ->].
Qed.

Lemma crate_line_loop_step f tail acc :
  crate_line_loop (S f) tail acc =
    match next_cell tail with
    | Err e => Err e
    | Ok (next_i, Some c) => crate_line_loop f next_i (acc ++ [c])
    | Ok (_, None) => Ok (tail, acc)
    end.
Proof. done. Qed.

(** C19: the loop ends: any fuel beyond the length of the rest of the line
    gives the same result, so [parse_crate_line]'s fuel is enough. *)
Theorem crate_line_loop_fuel f1 f2 tail acc :
  length tail < f1 -> length tail < f2 ->
  crate_line_loop f1 tail acc = crate_line_loop f2 tail acc.
Proof.
  revert f2 tail acc. induction f1 as [|f1 IH]; intros [|f2] tail acc H1 H2; try lia.
  rewrite !crate_line_loop_step.
  destruct (next_cell tail) as [[next [c|]]|e] eqn:E; [|done|done].
  apply next_cell_Some in E. subst tail. simpl in H1, H2.
  rewrite length_app in H1, H2. apply IH; lia.
Qed.

(** The loop reads back drawn cells up to the end of the line. *)
Lemma crate_line_loop_render f ys acc :
  length (render_cells ys) < f ->
  crate_line_loop f (render_cells ys) acc = Ok ([], acc ++ ys).
Proof.
  revert f acc. induction ys as [|y ys IH]; intros [|f] acc Hf; try (simpl in Hf; lia).
  - by rewrite app_nil_r.
  - rewrite crate_line_loop_step, render_cells_cons, next_cell_render.
    rewrite render_cells_cons in Hf; simpl in Hf; rewrite length_app in Hf.
    rewrite IH by lia. by rewrite <-app_assoc.
Qed.

Lemma crate_line_loop_fuel_witness :
  length (s2l " [A]") < 5 /\ length (s2l " [A]") < 9 /\
  crate_line_loop 5 (s2l " [A]") [None] = crate_line_loop 9 (s2l " [A]") [None].
Proof.
  assert (H1 : length (s2l " [A]") < 5) by (simpl; lia).
  assert (H2 : length (s2l " [A]") < 9) by (simpl; lia).
  split; [exact H1|]. split; [exact H2|]. exact (crate_line_loop_fuel 5 9 _ [None] H1 H2).
Defined.

(** What the loop returns is the cells it read and the rest of the line. *)
Lemma crate_line_loop_Ok f tail acc r v :
  crate_line_loop f tail acc = Ok (r, v) ->
  exists ys, v = acc ++ ys /\ tail = render_cells ys ++ r.
Proof.
  revert tail acc. induction f as [|f IH]; intros tail acc.
  { intros [= <- <-]. exists []. by rewrite app_nil_r. }
  rewrite crate_line_loop_step.
  destruct (next_cell tail) as [[next [c|]]|e] eqn:E; [|intros [= <- <-]|congruence].
  - intros (ys & -> & ->)%IH. apply next_cell_Some in E. subst tail.
    exists (c :: ys). rewrite render_cells_cons. simpl.
    split; [by rewrite <-app_assoc | by rewrite app_assoc].
  - exists []. by rewrite app_nil_r.
Qed.

(** ** The row parser *)

(** A row the parser accepts is a drawn row. *)
Lemma parse_crate_line_Ok line rest v :
  Nom.all_consuming parse_crate_line line = Ok (rest, v) ->
  rest = [] /\ exists x xs, v = x :: xs /\ line = render_row x xs.
Proof.
  intros [-> Hp]%Nom.all_consuming_Ok. split; [done|].
  unfold parse_crate_line in Hp.
  destruct (parse_crate_or_hole line) as [[r1 x]|] eqn:E1; cbn -[crate_line_loop] in Hp; [|done].
  apply crate_line_loop_Ok in Hp as (xs & -> & Hr1). rewrite app_nil_r in Hr1.
  exists x, xs. split; [done|]. apply parse_crate_or_hole_Ok in E1. by subst.
Qed.

(** A drawn row of [n] cells parses to its [n] optional crates. *)
Lemma parse_crate_line_render x xs :
  Nom.all_consuming parse_crate_line (render_row x xs) = Ok ([], x :: xs).
Proof.
  unfold Nom.all_consuming, parse_crate_line.
  rewrite render_row_cells, parse_crate_or_hole_render. cbn -[crate_line_loop].
  by rewrite crate_line_loop_render by lia.
Qed.

(** C3: [all_consuming(parse_crate_line)] accepts exactly the drawn rows,
    and returns the cells they were drawn from: one optional crate per
    cell, in order. *)
Theorem parse_crate_line_iff line rest v :
  Nom.all_consuming parse_crate_line line = Ok (rest, v) <->
  rest = [] /\ exists x xs, v = x :: xs /\ line = render_row x xs.
Proof.
  split; [apply parse_crate_line_Ok|].
  intros [-> (x & xs & -> & ->)]. apply parse_crate_line_render.
Qed.

(** The rows of the puzzle's example drawing; the line of stack numbers
    and the moves are not rows and are dropped. *)
Example crate_lines_example :
  main MySolution.example_input =
    [[None; Some (mkCrate "D"); None];
     [Some (mkCrate "N"); Some (mkCrate "C"); None];
     [Some (mkCrate "Z"); Some (mkCrate "M"); Some (mkCrate "P")]]%char.
Proof. vm_compute. reflexivity. Qed.

(** ** Agreement with the position-based reader of [my_solution] *)

Import MySolution.

(** What a cell does to the stacks: a crate whose label is a letter goes
    to the bottom of stack [k]. *)
Definition slot_step (k : nat) (x : option Crate) (st : State) : option State :=
  match x with
  | Some (mkCrate c) => if is_alphabetic c then add_to_front_of_stack st k c else Some st
  | None => Some st
  end.

(** The cells of a row, from stack [k] on. *)
Fixpoint add_row (k : nat) (xs : list (option Crate)) (st : State) : option State :=
  match xs with
  | [] => Some st
  | x :: xs' => st' <-! slot_step k x st ;; add_row (S k) xs' st'
  end.

(** [skip_position] is never read. *)
Lemma grid_line_loop_skip l i k cp sp sp' st :
  grid_line_loop l i k cp sp st = grid_line_loop l i k cp sp' st.
Proof.
  revert i k cp sp sp' st. induction l as [|c l IH]; intros i k cp sp sp' st; simpl; [done|].
  case_bool_decide; [by destruct (if is_alphabetic c then _ else _)|].
  by do 2 case_bool_decide.
Qed.

(** A character away from the next cell position is passed over. *)
Lemma grid_line_loop_pass c l i k cp sp st :
  i <> cp -> grid_line_loop (c :: l) i k cp sp st = grid_line_loop l (S i) k cp sp st.
Proof.
  intros Hi. simpl. rewrite bool_decide_false by done.
  case_bool_decide; [apply grid_line_loop_skip|done].
Qed.

(** The character at the next cell position is handled. *)
Lemma grid_line_loop_at c l i k sp st :
  grid_line_loop (c :: l) i k i sp st =
    st' <-! (if is_alphabetic c then add_to_front_of_stack st k c else Some st) ;;
    grid_line_loop l (S i) (S k) (i + 4) sp st'.
Proof. simpl. by rewrite bool_decide_true. Qed.

(** A drawn cell, read from its first character. *)
Lemma grid_line_loop_slot x rest i k sp st :
  grid_line_loop (render_slot x ++ rest) i k (S i) sp st =
    st' <-! slot_step k x st ;; grid_line_loop rest (i + 3) (S k) (i + 5) sp st'.
Proof.
  destruct x as [[c]|].
  - change (render_slot (Some (mkCrate c)) ++ rest) with ("["%char :: c :: "]"%char :: rest).
    change (slot_step k (Some (mkCrate c)) st)
      with (if is_alphabetic c then add_to_front_of_stack st k c else Some st).
    rewrite (grid_line_loop_pass "["%char) by lia. rewrite grid_line_loop_at.
    destruct (if is_alphabetic c then _ else _); cbv beta iota; [|done].
    rewrite (grid_line_loop_pass "]"%char) by lia. f_equal; lia.
  - change (render_slot None ++ rest) with (" "%char :: " "%char :: " "%char :: rest).
    change (slot_step k None st) with (Some st). cbv beta iota.
    rewrite (grid_line_loop_pass " "%char) by lia. rewrite grid_line_loop_at.
    replace (is_alphabetic " "%char) with false by reflexivity. cbv beta iota.
    rewrite (grid_line_loop_pass " "%char) by lia. f_equal; lia.
Qed.

Lemma grid_line_loop_cells xs i k sp st :
  grid_line_loop (render_cells xs) i k (i + 2) sp st = add_row k xs st.
Proof.
  revert i k st. induction xs as [|x xs IH]; intros i k st; [done|].
  rewrite render_cells_cons, grid_line_loop_pass by lia.
  replace (i + 2) with (S (S i)) by lia. rewrite grid_line_loop_slot. cbn [add_row].
  destruct (slot_step k x st) as [st'|]; cbv beta iota; [|done].
  replace (S i + 5) with ((S i + 3) + 2) by lia. apply IH.
Qed.

(** The reader's loop, started as [read_grid_line] starts it, on a
    drawn row. *)
Lemma grid_line_loop_row st x xs :
  grid_line_loop (render_row x xs) 0 0 1 3 st = add_row 0 (x :: xs) st.
Proof.
  rewrite render_row_cells.
  change 1 with (S 0). rewrite grid_line_loop_slot. cbn [add_row].
  destruct (slot_step 0 x st); cbv beta iota; [|done].
  apply (grid_line_loop_cells xs 3).
Qed.

(** C4: on every drawn row, the reader of [my_solution::main], which
    looks only at the characters at positions 1, 5, 9, ..., puts the
    crates the nom parser reads into the stacks of their columns. *)
Theorem read_grid_line_render st x xs :
  read_grid_line st (render_row x xs) = add_row 0 (x :: xs) st.
Proof. unfold read_grid_line. apply grid_line_loop_row. Qed.

End CrateParser.
