(* ===== verification/Day05Run.v ===== *)
(** * Day 05: the whole of [my_solution::main] on a drawn input

    [my_solution::main] splits the input at the first blank line, reads
    the crate drawing line by line with the position-based reader
    ([read_grid_line], each crate pushed to the front of its stack),
    applies the moves with [perform_batch_move], and reads the top of
    every stack.  This file composes the components of [Stacks],
    [Crane] and [CrateParser] into one statement about [main_with]: on
    an input made of drawn rows, a line of stack labels, a blank line
    and moves, it computes the tops of the stacks obtained by reading
    the columns of the drawing bottom-up and running the reference
    [batch_ref] of each move.  It also proves the type invariant of the
    simulator's state: the number of stacks never changes and every
    crate is a letter; that [main], with its nine hard-coded stacks,
    panics on every such input drawn with fewer stacks; and that the
    nom-based top-level [main] reads the drawn rows, and only them, out
    of the same input. *)

From stdpp Require Import relations.
From S2P Require Import Prelude RustStd Nom Stacks Crane CrateParser.

Module Day05Run.

Import MySolution CrateParser Cranes.

(** ** Reading the drawing *)

(** The letter a cell contributes: the reader keeps letters only. *)
Definition cell_letter (x : option Crate) : list ascii :=
  match x with
  | Some (mkCrate c) => if is_alphabetic c then [c] else []
  | None => []
  end.

(** The letter of row [r] in column [k], if any. *)
Definition row_letter (r : list (option Crate)) (k : nat) : list ascii :=
  default [] (cell_letter <$> r !! k).

(** The letters of column [k], from the top row down. *)
Definition column (k : nat) (rows : list (list (option Crate))) : list ascii :=
  concat (List.map (fun r => row_letter r k) rows).

(** The stacks a drawing describes, bottom first: each column read from
    the bottom row up. *)
Definition drawing_stacks (n : nat) (rows : list (list (option Crate))) : list (list ascii) :=
  List.map (fun k => rev (column k rows)) (seq 0 n).

(** A row of cells as a line of the input. *)
Definition draw_row (r : list (option Crate)) : str :=
  match r with [] => [] | x :: xs => render_row x xs end.

Lemma row_letter_le (r : list (option Crate)) k : length (row_letter r k) <= 1.
Proof.
  unfold row_letter. destruct (r !! k) as [[[c]|]|]; simpl; [|lia|lia].
  destruct (is_alphabetic c); simpl; lia.
Qed.

Lemma rev_le_one (l : list ascii) : length l <= 1 -> rev l = l.
Proof. destruct l as [|x [|y l]]; simpl; [done|done|lia]. Qed.

(** Putting [f j] in front of stack [j], for every [j]. *)
Definition prepend (f : nat -> list ascii) (ss : list (list ascii)) : list (list ascii) :=
  imap (fun j s => f j ++ s) ss.

Lemma lookup_prepend f ss j : prepend f ss !! j = (fun s => f j ++ s) <$> ss !! j.
Proof. unfold prepend. by rewrite list_lookup_imap. Qed.

Lemma length_prepend f ss : length (prepend f ss) = length ss.
Proof. unfold prepend. by rewrite length_imap. Qed.

Lemma prepend_ext f g ss :
  (forall j, j < length ss -> f j = g j) -> prepend f ss = prepend g ss.
Proof.
  intros Hfg. apply list_eq. intros j. rewrite !lookup_prepend.
  destruct (ss !! j) eqn:E; simpl; [|done]. rewrite Hfg; [done|]. by eapply lookup_lt_Some.
Qed.

Lemma prepend_nil f ss : (forall j, j < length ss -> f j = []) -> prepend f ss = ss.
Proof.
  intros Hf. apply list_eq. intros j. rewrite lookup_prepend.
  destruct (ss !! j) eqn:E; simpl; [|done]. rewrite Hf; [done|]. by eapply lookup_lt_Some.
Qed.

Lemma prepend_prepend f g ss : prepend f (prepend g ss) = prepend (fun j => f j ++ g j) ss.
Proof.
  apply list_eq. intros j. rewrite !lookup_prepend.
  destruct (ss !! j); simpl; [|done]. by rewrite app_assoc.
Qed.

Lemma prepend_replicate f n : prepend f (replicate n []) = List.map f (seq 0 n).
Proof.
  apply list_eq. intros j. rewrite lookup_prepend, list_lookup_fmap.
  destruct (decide (j < n)).
  - rewrite lookup_replicate_2, lookup_seq_lt by done. simpl. by rewrite app_nil_r.
  - rewrite (proj1 (lookup_replicate_None _ _ _)), lookup_seq_ge by lia. done.
Qed.

(** One cell: its letter goes to the front of stack [k]. *)
Lemma slot_step_spec k x ss :
  (length ss <= k -> cell_letter x = []) ->
  slot_step k x (mkState ss) =
    Some (mkState (prepend (fun j => if decide (j = k) then cell_letter x else []) ss)).
Proof.
  intros Hfit. unfold slot_step.
  destruct x as [[c]|]; [destruct (is_alphabetic c) eqn:Hc|].
  - destruct (ss !! k) as [s|] eqn:Hs.
    + unfold add_to_front_of_stack; simpl. rewrite Hs; simpl. do 2 f_equal.
      apply list_eq. intros j. rewrite lookup_prepend. destruct (decide (j = k)) as [->|Hjk].
      * rewrite list_lookup_insert_eq by (by eapply lookup_lt_Some). rewrite Hs. simpl.
        by rewrite Hc.
      * rewrite list_lookup_insert_ne by done.
        destruct (ss !! j); simpl; [done|done].
    + apply lookup_ge_None in Hs. specialize (Hfit Hs). simpl in Hfit. by rewrite Hc in Hfit.
  - rewrite prepend_nil; [done|]. intros j _. simpl. rewrite Hc. by case_decide.
  - rewrite prepend_nil; [done|]. intros j _. by case_decide.
Qed.

(** [add_row] puts the letter of each column at the front of its stack. *)
Lemma add_row_spec k cells ss :
  (forall j, length ss <= k + j -> row_letter cells j = []) ->
  add_row k cells (mkState ss) =
    Some (mkState (prepend (fun j => if decide (k <= j) then row_letter cells (j - k) else []) ss)).
Proof.
  revert k ss. induction cells as [|x cells IH]; intros k ss Hfit; cbn [add_row].
  { rewrite prepend_nil; [done|]. intros j _. by case_decide. }
  rewrite slot_step_spec by (intros Hl; apply (Hfit 0); lia). cbn [mbind option_bind].
  rewrite IH by (intros j Hj; rewrite length_prepend in Hj; apply (Hfit (S j)); lia).
  rewrite prepend_prepend. do 2 f_equal. apply prepend_ext. intros j _.
  destruct (decide (j = k)) as [->|Hjk].
  - rewrite decide_False, decide_True, Nat.sub_diag by lia. done.
  - destruct (decide (S k <= j)); [rewrite decide_True by lia|rewrite decide_False by lia; done].
    rewrite app_nil_r. by replace (j - k) with (S (j - S k)) by lia.
Qed.

(** A line without letters, such as the line of stack numbers, leaves
    the stacks alone. *)
Lemma grid_line_loop_no_letters l i k cp sp st :
  Forall (fun c => is_alphabetic c = false) l -> grid_line_loop l i k cp sp st = Some st.
Proof.
  intros Hl. revert i k cp sp. induction Hl as [|c l Hc Hl IH]; intros i k cp sp; simpl; [done|].
  rewrite Hc. case_bool_decide; [apply IH|]. case_bool_decide; apply IH.
Qed.

(** A row made of letter crates and holes, at most [n] cells wide. *)
Definition row_ok (n : nat) (r : list (option Crate)) : Prop :=
  r <> [] /\ length r <= n /\
  Forall (fun x => match x with Some (mkCrate c) => is_alphabetic c = true | None => True end) r.

Lemma row_ok_letter n r k : row_ok n r -> n <= k -> row_letter r k = [].
Proof. intros (_ & Hl & _) Hk. unfold row_letter. by rewrite lookup_ge_None_2 by lia. Qed.

(** Reading the drawn rows, from the top down. *)
Lemma read_rows rows ss :
  Forall (row_ok (length ss)) rows ->
  for_each read_grid_line (List.map draw_row rows) (mkState ss) =
    Some (mkState (prepend (fun j => rev (column j rows)) ss)).
Proof.
  revert ss. induction rows as [|r rows IH]; intros ss Hrows; simpl.
  { rewrite prepend_nil; [done|]. done. }
  apply Forall_cons in Hrows as [Hr Hrows].
  destruct r as [|x xs]; [by destruct Hr|]. unfold read_grid_line; simpl.
  rewrite grid_line_loop_row, add_row_spec by (intros j Hj; apply (row_ok_letter (length ss)); [done|lia]).
  cbn [mbind option_bind]. rewrite IH by (by rewrite length_prepend).
  rewrite prepend_prepend. do 2 f_equal. apply prepend_ext. intros j _.
  rewrite decide_True, Nat.sub_0_r by lia. unfold column. cbn [List.map concat].
  rewrite rev_app_distr, (rev_le_one (row_letter _ j)) by apply row_letter_le. done.
Qed.

(** ** Running the moves *)

(** The moves run by their reference behaviour [batch_ref]. *)
Fixpoint run_moves (ss : list (list ascii)) (ms : list Move) : option (list (list ascii)) :=
  match ms with
  | [] => Some ss
  | m :: ms' => ss' <-! batch_ref ss m ;; run_moves ss' ms'
  end.

(** The numbers of a move fit in a [u64]. *)
Definition move_fits (m : Move) : Prop :=
  (quantity m < modulus 64 /\ source m < modulus 64 /\ destination m < modulus 64)%N.

Lemma run_move_lines ss ms :
  Forall move_fits ms ->
  for_each (apply_move_line perform_batch_move) (List.map render_move ms) (mkState ss) =
    mkState <$> run_moves ss ms.
Proof.
  revert ss. induction ms as [|m ms IH]; intros ss Hms; simpl; [done|].
  apply Forall_cons in Hms as [(Hq & Hs & Hd) Hms].
  unfold apply_move_line. rewrite Move_from_str_render by done. simpl.
  rewrite perform_batch_move_eq. cbn [stacks]. destruct (batch_ref ss m); simpl; [by apply IH|done].
Qed.

(** ** The input as a text *)

(** The drawing, the line of stack labels, a blank line and the moves. *)
Definition render_input (rows : list (list (option Crate))) (labels : str) (ms : list Move) : str :=
  unlines (List.map draw_row rows) ++ labels ++ "010"%char :: "010"%char :: unlines (List.map render_move ms).

Lemma letter_not_nl c : is_alphabetic c = true -> c <> "010"%char /\ c <> "013"%char.
Proof. intros H. split; intros ->; discriminate. Qed.

(** The characters of a drawn cell are brackets, spaces and letters. *)
Ltac cell_chars :=
  repeat (apply Forall_cons; split); try apply List.Forall_nil;
  first [by left | by (right; left) | by (right; right; left) | by (right; right; right)].

Lemma draw_row_good n r : row_ok n r -> good_line (draw_row r).
Proof.
  intros (Hne & _ & Hl). destruct r as [|x xs]; [done|]. unfold draw_row.
  split; [by destruct x as [[]|]|].
  apply (plain_line_chars (fun c => c = "["%char \/ c = "]"%char \/ c = " "%char \/ is_alphabetic c = true));
    [|intros [|[|[|?%letter_not_nl]]]; naive_solver..].
  apply Forall_cons in Hl as [Hx Hxs]. rewrite render_row_cells. apply Forall_app. split.
  - destruct x as [[c]|]; simpl; cell_chars.
  - clear Hne. induction Hxs as [|y ys Hy _ IH]; [constructor|]. rewrite render_cells_cons.
    constructor; [by (right; right; left)|]. apply Forall_app. split; [|exact IH].
    destruct y as [[c]|]; simpl; cell_chars.
Qed.

Lemma render_move_good m : good_line (render_move m).
Proof.
  split; [done|].
  apply (plain_line_chars (fun c => is_digit c \/ c = " "%char \/ is_alphabetic c = true));
    [|intros [[? H]|[|?%letter_not_nl]]; (discriminate || naive_solver)..].
  assert (Hd : forall n, Forall (fun c => is_digit c \/ c = " "%char \/ is_alphabetic c = true) (show_N n)).
  { intros n. eapply Forall_impl; [apply show_N_value|]. auto. }
  unfold render_move.
  repeat first [apply Forall_app; split | apply Hd | apply Forall_cons; split | apply Forall_nil; done
               | (right; left; reflexivity) | (right; right; reflexivity)].
Qed.

(** The input as its lines. *)
Lemma render_input_unlines rows labels ms :
  render_input rows labels ms = unlines (List.map draw_row rows ++ labels :: [] :: List.map render_move ms).
Proof.
  assert (Happ : forall l1 l2, unlines (l1 ++ l2) = unlines l1 ++ unlines l2).
  { intros. unfold unlines. by rewrite List.map_app, concat_app. }
  unfold render_input. by rewrite Happ, !unlines_cons.
Qed.

Lemma render_input_plain rows labels ms n :
  Forall (row_ok n) rows -> good_line labels ->
  Forall plain_line (List.map draw_row rows ++ labels :: [] :: List.map render_move ms).
Proof.
  intros Hrows [_ Hlab]. apply Forall_app. split.
  - apply Forall_fmap. eapply Forall_impl; [exact Hrows|]. intros r Hr.
    exact (proj2 (draw_row_good n r Hr)).
  - apply Forall_cons; split; [done|]. apply Forall_cons; split; [by split; [apply not_elem_of_nil|]|].
    apply Forall_fmap, Forall_forall. intros m _. exact (proj2 (render_move_good m)).
Qed.

(** A move line starts with [m], which no cell does. *)
Lemma crate_line_move m : exists e, Nom.all_consuming parse_crate_line (render_move m) = Err e.
Proof. eexists. reflexivity. Qed.

(** ** The whole program *)

(** Reading such an input: [split("\n\n")] cuts it after the label
    line, the drawing gives the stacks read column by column, the label
    line changes nothing, and the move lines follow. *)
Lemma split_render_input n rows labels ms :
  Forall (row_ok n) rows -> good_line labels ->
  split_str (s2l (String "010" (String "010" EmptyString))) (render_input rows labels ms) =
    [unlines (List.map draw_row rows) ++ labels; unlines (List.map render_move ms)].
Proof.
  intros Hrows Hlab. unfold render_input, split_str.
  change (s2l (String "010" (String "010" EmptyString))) with ["010"; "010"]%char.
  assert (Hgood : Forall good_line (List.map draw_row rows)).
  { apply Forall_fmap. eapply Forall_impl; [exact Hrows|]. apply draw_row_good. }
  assert (Hmoves : Forall good_line (List.map render_move ms)).
  { apply Forall_fmap, Forall_forall. intros m _. apply render_move_good. }
  rewrite split_blank_lines by done. rewrite split_blank_end by done. done.
Qed.

Lemma read_drawing n rows labels :
  Forall (row_ok n) rows -> good_line labels -> Forall (fun c => is_alphabetic c = false) labels ->
  for_each read_grid_line (lines (unlines (List.map draw_row rows) ++ labels)) (new n) =
    Some (mkState (drawing_stacks n rows)).
Proof.
  intros Hrows Hlab Hnl.
  assert (Hgood : Forall good_line (List.map draw_row rows)).
  { apply Forall_fmap. eapply Forall_impl; [exact Hrows|]. apply draw_row_good. }
  rewrite lines_unlines_last by (done || (eapply Forall_impl; [exact Hgood|]; by intros ? [])).
  rewrite for_each_app. unfold new.
  rewrite read_rows by (by rewrite length_replicate). cbn [mbind option_bind for_each].
  unfold read_grid_line at 1. rewrite grid_line_loop_no_letters by done.
  by rewrite prepend_replicate.
Qed.

Lemma lines_moves ms : lines (unlines (List.map render_move ms)) = List.map render_move ms.
Proof.
  apply lines_unlines, Forall_fmap, Forall_forall. intros m _. apply render_move_good.
Qed.

(** C5: on an input made of rows of letter crates at most [n] cells wide,
    a line of stack labels without letters, a blank line and moves whose
    numbers fit in [u64], [my_solution::main] run with [n] stacks
    prints the tops of the stacks obtained by reading each column of the
    drawing bottom-up and running [batch_ref] for every move; it panics
    exactly when a move does or a stack ends empty. *)
Theorem main_with_run n rows labels ms :
  Forall (row_ok n) rows -> good_line labels -> Forall (fun c => is_alphabetic c = false) labels ->
  Forall move_fits ms ->
  main_with n (render_input rows labels ms) =
    (ss <-! run_moves (drawing_stacks n rows) ms ;; topmost ss).
Proof.
  intros Hrows Hlab Hnl Hms. unfold main_with.
  rewrite (split_render_input n) by done. cbn [head tl mbind option_bind].
  rewrite read_drawing, lines_moves by done. cbn [mbind option_bind].
  rewrite run_move_lines by done. destruct (run_moves _ ms); simpl; done.
Qed.

(** ** The nine stacks of [main]

    [main] hard-codes [State::new(9)] and [get_topmost_crates] unwraps
    the top of every stack: a stack that no crate ever reaches panics. *)

Lemma row_ok_mono n k r : n <= k -> row_ok n r -> row_ok k r.
Proof. intros Hnk (Hne & Hl & Hc). split; [done|]. split; [lia|done]. Qed.

(** A move that does not go to stack [k] leaves it empty if it was. *)
Lemma move_ref_keeps_empty arr ok ss m ss' k :
  stack_index (destination m) <> Some k -> ss !! k = Some [] ->
  move_ref arr ok ss m = Some ss' -> ss' !! k = Some [].
Proof.
  intros Hdk Hk. unfold move_ref. case_bool_decide; [by intros [= <-]|].
  destruct (stack_index (source m)) as [i|]; simpl; [|done].
  destruct (ss !! i) as [s|] eqn:Hs; simpl; [|done].
  destruct (stack_index (destination m)) as [j|]; simpl; [|done].
  destruct (ss !! j) as [d|]; simpl; [|done].
  case_bool_decide; [by destruct ok; [intros [= <-]|]|].
  case_bool_decide; [intros [= <-]|done].
  rewrite list_lookup_insert_ne by congruence.
  destruct (decide (i = k)) as [->|Hik].
  - rewrite Hk in Hs. injection Hs as <-.
    rewrite list_lookup_insert_eq by (by eapply lookup_lt_Some). done.
  - by rewrite list_lookup_insert_ne.
Qed.

Lemma run_moves_keeps_empty ss ms ss' k :
  Forall (fun m => stack_index (destination m) <> Some k) ms -> ss !! k = Some [] ->
  run_moves ss ms = Some ss' -> ss' !! k = Some [].
Proof.
  intros Hms. revert ss. induction Hms as [|m ms Hm _ IH]; intros ss Hk; simpl; [by intros [= <-]|].
  destruct (batch_ref ss m) as [ss1|] eqn:E; simpl; [|done].
  apply IH. by eapply move_ref_keeps_empty.
Qed.

Lemma concat_map_nil {A B} (l : list A) : concat (List.map (fun _ => @nil B) l) = [].
Proof. by induction l. Qed.

Lemma topmost_empty ss k : ss !! k = Some [] -> topmost ss = None.
Proof.
  revert k. induction ss as [|s ss IH]; intros [|k] Hk; simpl in *; [done|done|..].
  - by injection Hk as ->.
  - destruct (last s); simpl; [|done]. by rewrite (IH k).
Qed.

(** C30: on an input drawn with at most eight stacks, with moves whose
    numbers fit in [u64] and none of which goes to stack 9,
    [my_solution::main] panics: its hard-coded [State::new(9)] keeps a
    ninth stack that stays empty, and [get_topmost_crates] unwraps its
    top. *)
Theorem main_nine_stacks_panics rows labels ms :
  Forall (row_ok 8) rows -> good_line labels -> Forall (fun c => is_alphabetic c = false) labels ->
  Forall move_fits ms -> Forall (fun m => destination m <> 9%N) ms ->
  MySolution.main (render_input rows labels ms) = None.
Proof.
  intros Hrows Hlab Hnl Hms Hd. unfold MySolution.main, main_with.
  assert (H9 : Forall (row_ok 9) rows).
  { eapply Forall_impl; [exact Hrows|]. intros r Hr. apply (row_ok_mono 8); [lia|done]. }
  rewrite (split_render_input 9) by done. cbn [head tl mbind option_bind].
  rewrite read_drawing, lines_moves by done. cbn [mbind option_bind].
  rewrite run_move_lines by done.
  destruct (run_moves _ ms) as [ss|] eqn:E; simpl; [|done].
  unfold get_topmost_crates; simpl. apply (topmost_empty ss 8).
  eapply run_moves_keeps_empty; [|simpl|exact E].
  - eapply Forall_impl; [exact Hd|]. intros m Hm H8.
    apply Hm, (stack_index_inj _ _ 8); [done|reflexivity].
  - unfold drawing_stacks, column; simpl. f_equal. rewrite List.map_ext_in with (g := fun _ => []).
    + by rewrite concat_map_nil.
    + intros r Hr%list_elem_of_In. apply (row_ok_letter 8); [|done]. by eapply Forall_forall.
Qed.

(** The puzzle's example as drawn rows, labels and moves. *)
Definition example_rows : list (list (option Crate)) :=
  [[None; Some (mkCrate "D"); None];
   [Some (mkCrate "N"); Some (mkCrate "C"); None];
   [Some (mkCrate "Z"); Some (mkCrate "M"); Some (mkCrate "P")]]%char.

Definition example_moves : list Move :=
  [mkMove 1 2 1; mkMove 3 1 3; mkMove 2 2 1; mkMove 1 1 2]%N.

Lemma main_with_run_witness :
  render_input example_rows (s2l " 1   2   3 ") example_moves = example_input /\
  main_with 3 (render_input example_rows (s2l " 1   2   3 ") example_moves) =
    (ss <-! run_moves (drawing_stacks 3 example_rows) example_moves ;; topmost ss).
Proof.
  split; [vm_compute; reflexivity|].
  apply main_with_run.
  - repeat apply Forall_cons_2; try apply Forall_nil_2;
      (split; [done|split; [simpl; lia|repeat constructor]]).
  - split; [done|]. split; [vm_compute; set_solver|done].
  - repeat constructor.
  - repeat constructor.
Defined.

(** ** The top-level reader on the same input

    The nom-based [main] of [src/day_05/src/main.rs] keeps the lines that
    parse completely as rows and drops the others without a word. *)

Lemma omap_cons {A B} (f : A -> option B) x l :
  omap f (x :: l) = match f x with Some y => y :: omap f l | None => omap f l end.
Proof. done. Qed.

Lemma kept_draw_rows n rows : Forall (row_ok n) rows -> omap kept_row (List.map draw_row rows) = rows.
Proof.
  induction 1 as [|r rows [Hne _] _ IH]; [done|]. destruct r as [|x xs]; [done|].
  cbn [List.map]. rewrite omap_cons. unfold kept_row at 1.
  change (draw_row (x :: xs)) with (render_row x xs).
  rewrite parse_crate_line_render. simpl. by rewrite IH.
Qed.

Lemma kept_moves ms : omap kept_row (List.map render_move ms) = [].
Proof.
  induction ms as [|m ms IH]; [done|]. cbn [List.map]. rewrite omap_cons. unfold kept_row at 1.
  destruct (crate_line_move m) as [e ->]. exact IH.
Qed.

(** ** The type invariant of the state

    The simulator's [State] is well formed for [n] stacks when it has
    [n] stacks and every crate on them is a letter.  Reading the drawing
    and running the moves keep it, so every crate [main] prints is a
    letter, one per stack. *)
Definition state_wf (n : nat) (st : State) : Prop :=
  length (stacks st) = n /\ Forall (Forall (fun c => is_alphabetic c = true)) (stacks st).

(** What [main] prints from a well-formed state: one letter per stack. *)
Definition answer_wf (n : nat) (out : list ascii) : Prop :=
  length out = n /\ Forall (fun c => is_alphabetic c = true) out.

Lemma Forall_Forall_concat {A} (P : A -> Prop) (ss : list (list A)) :
  Forall (Forall P) ss <-> Forall P (concat ss).
Proof.
  induction ss as [|s ss IH]; simpl; [split; constructor|].
  by rewrite Forall_cons, Forall_app, IH.
Qed.

Lemma new_wf n : state_wf n (new n).
Proof. split; [apply length_replicate|]. by apply Forall_replicate. Qed.

Lemma add_to_front_wf n st k c st' :
  is_alphabetic c = true -> state_wf n st -> add_to_front_of_stack st k c = Some st' ->
  state_wf n st'.
Proof.
  intros Hc [Hn Hs]. unfold add_to_front_of_stack.
  destruct (stacks st !! k) as [s|] eqn:Hk; simpl; [intros [= <-]|done].
  split; simpl; [by rewrite length_insert|].
  apply Forall_insert; [done|]. unfold push_front. constructor; [done|].
  by eapply Forall_lookup_1.
Qed.

Lemma grid_line_loop_wf n l i k cp sp st st' :
  state_wf n st -> grid_line_loop l i k cp sp st = Some st' -> state_wf n st'.
Proof.
  revert i k cp sp st. induction l as [|c l IH]; intros i k cp sp st Hst; simpl; [by intros [= <-]|].
  case_bool_decide; [|case_bool_decide; by apply IH].
  destruct (is_alphabetic c) eqn:Hc; [|by apply IH].
  destruct (add_to_front_of_stack st k c) as [st1|] eqn:E; simpl; [|done].
  apply IH. by eapply add_to_front_wf.
Qed.

Lemma move_lines_wf n ls st st' :
  state_wf n st -> for_each (apply_move_line perform_batch_move) ls st = Some st' -> state_wf n st'.
Proof.
  intros Hst Hrun. apply for_each_moves_reachable in Hrun.
  induction Hrun as [|x y z [? m ? Happ] _ IH]; [done|]. apply IH.
  destruct Hst as [Hn Hs]. destruct (crane_preserves perform_batch_move _ _ _ Happ) as [Hl Hp].
  split; [congruence|]. rewrite Forall_Forall_concat, Hp. by apply Forall_Forall_concat.
Qed.

Lemma topmost_letters ss out :
  Forall (Forall (fun c => is_alphabetic c = true)) ss -> topmost ss = Some out ->
  length out = length ss /\ Forall (fun c => is_alphabetic c = true) out.
Proof.
  revert out. induction ss as [|s ss IH]; intros out Hss; simpl; [by intros [= <-]|].
  apply Forall_cons in Hss as [Hs Hss].
  destruct (last s) as [c|] eqn:Hc; simpl; [|done].
  destruct (topmost ss) as [cs|]; simpl; [intros [= <-]|done].
  destruct (IH cs Hss eq_refl). split; [simpl; lia|]. constructor; [|done].
  apply last_Some in Hc as [s' ->]. apply Forall_app in Hs as [_ Hl]. by inversion Hl.
Qed.

(** C13: whatever the input, when [my_solution::main] run with [n] stacks
    prints a string, it has one character per stack and every character
    is a letter: reading the drawing keeps only letters, and the moves
    keep the number of stacks and the crates. *)
Theorem main_with_letters n input out :
  main_with n input = Some out -> answer_wf n out.
Proof.
  unfold main_with. intros Hrun.
  destruct (head _) as [crates|]; [|done]. destruct (head (tl _)) as [moves|]; [|done]. simpl in Hrun.
  destruct (for_each read_grid_line _ _) as [st1|] eqn:E1; [|done]. simpl in Hrun.
  destruct (for_each (apply_move_line _) _ _) as [st2|] eqn:E2; [|done]. simpl in Hrun.
  assert (Hwf1 : state_wf n st1).
  { eapply (for_each_inv (state_wf n)); [|apply new_wf|exact E1].
    intros s l s'. apply grid_line_loop_wf. }
  destruct (move_lines_wf n _ _ _ Hwf1 E2) as [Hn Hs].
  unfold answer_wf. rewrite <-Hn. by apply topmost_letters.
Qed.

Lemma main_with_letters_witness :
  main_with 3 example_input = Some (s2l "MCD") /\ answer_wf 3 (s2l "MCD").
Proof.
  assert (H : main_with 3 example_input = Some (s2l "MCD")) by (vm_compute; reflexivity).
  split; [exact H|]. exact (main_with_letters 3 example_input _ H).
Defined.

(** C16: on the whole puzzle input (drawn rows of letter crates, a line of
    stack labels that is not a row, a blank line and the moves), the
    top-level [main] keeps exactly the drawn rows, in order: the labels,
    the blank line and every move line are dropped silently. *)
Theorem main_reads_drawing n rows labels ms :
  Forall (row_ok n) rows -> good_line labels ->
  (forall r, Nom.all_consuming parse_crate_line labels <> Ok r) ->
  CrateParser.main (render_input rows labels ms) = rows.
Proof.
  intros Hrows Hlab Hnot. unfold CrateParser.main.
  rewrite render_input_unlines, lines_unlines by (by eapply render_input_plain).
  rewrite omap_app, (kept_draw_rows n), !omap_cons, kept_moves by done.
  unfold kept_row. destruct (Nom.all_consuming parse_crate_line labels) as [r|e]; [by destruct (Hnot r)|].
  simpl. apply app_nil_r.
Qed.

Lemma main_reads_drawing_witness :
  Forall (row_ok 3) example_rows /\ good_line (s2l " 1   2   3 ") /\
  (forall r, Nom.all_consuming parse_crate_line (s2l " 1   2   3 ") <> Ok r) /\
  CrateParser.main (render_input example_rows (s2l " 1   2   3 ") example_moves) = example_rows.
Proof.
  assert (H1 : Forall (row_ok 3) example_rows).
  { repeat apply Forall_cons_2; try apply Forall_nil_2;
      (split; [done|split; [simpl; lia|repeat constructor]]). }
  assert (H2 : good_line (s2l " 1   2   3 ")) by (split; [done|]; split; [vm_compute; set_solver|done]).
  assert (H3 : forall r, Nom.all_consuming parse_crate_line (s2l " 1   2   3 ") <> Ok r)
    by (intros r; vm_compute; discriminate).
  split; [exact H1|]. split; [exact H2|]. split; [exact H3|].
  exact (main_reads_drawing 3 _ _ example_moves H1 H2 H3).
Defined.

Lemma main_nine_stacks_panics_witness :
  Forall (row_ok 8) example_rows /\ good_line (s2l " 1   2   3 ") /\
  Forall (fun c => is_alphabetic c = false) (s2l " 1   2   3 ") /\
  Forall move_fits example_moves /\ Forall (fun m => destination m <> 9%N) example_moves /\
  MySolution.main (render_input example_rows (s2l " 1   2   3 ") example_moves) = None.
Proof.
  assert (H1 : Forall (row_ok 8) example_rows).
  { repeat apply Forall_cons_2; try apply Forall_nil_2;
      (split; [done|split; [simpl; lia|repeat constructor]]). }
  assert (H2 : good_line (s2l " 1   2   3 ")) by (split; [done|]; split; [vm_compute; set_solver|done]).
  assert (H3 : Forall (fun c => is_alphabetic c = false) (s2l " 1   2   3 ")) by repeat constructor.
  assert (H4 : Forall move_fits example_moves) by repeat constructor.
  assert (H5 : Forall (fun m => destination m <> 9%N) example_moves)
    by (repeat constructor; simpl; discriminate).
  do 5 (split; [assumption|]). exact (main_nine_stacks_panics _ _ _ H1 H2 H3 H4 H5).
Defined.

End Day05Run.
