(* ===== verification/Day04.v ===== *)
(** * Day 04: camp cleanup, section ranges

    [src/day_04/src/main.rs].  Each line holds two ranges of section
    numbers, ["a-b,c-d"].  The file has two solutions: [mine] parses the
    ranges as [u64] into [Range] records and counts the pairs that
    [Range::overlap]; [main] parses them as [u32] into [RangeInclusive]s
    and counts the pairs that [overlaps_or_is_overlapped], a method of
    the [RangeInclusiveExt] trait (modelled as a [Class] with its default
    methods).  Both also have a containment test.

    The theorems give the set meaning of each test on well-formed ranges
    (lower bound at most the upper one), show the two solutions agree
    there, and record where they differ: on ranges written backwards and
    on numbers that do not fit in [u32]; and that [mine] stops at the
    first line that does not parse, whatever follows. *)

From S2P Require Import Prelude RustStd.

Module Day04.

(** [struct Range { lower: u64, upper: u64 }] *)
Record Range := mkRange { lower : N; upper : N }.

(** [<Range as FromStr>::from_str]: split at ['-'], parse the first two
    pieces; a missing piece is an [unwrap] panic, extra pieces are
    ignored. *)
Definition Range_from_str (s : str) : option (Result Range IntErrorKind) :=
  let parts := split_char "-" s in
  l <-! head parts ;;
  lower <-?! from_str_uint 64 l ;;
  u <-! head (tl parts) ;;
  upper <-?! from_str_uint 64 u ;;
  Some (Ok (mkRange lower upper)).

(** [Range::is_contained(first, second)] *)
Definition is_contained (first second : Range) : bool :=
  (lower second <=? lower first)%N && (upper first <=? upper second)%N.

(** [Range::overlap(first, second)] *)
Definition overlap (first second : Range) : bool :=
  (lower first <=? lower second)%N && (lower second <=? upper first)%N
  || (lower second <=? lower first)%N && (lower first <=? upper second)%N.

(** [struct Assignment { first: Range, second: Range }] *)
Record Assignment := mkAssignment { first : Range; second : Range }.

Definition has_contained_ranges (a : Assignment) : bool :=
  is_contained (first a) (second a) || is_contained (second a) (first a).

Definition has_overlapping_ranges (a : Assignment) : bool :=
  overlap (first a) (second a).

(** [<Assignment as FromStr>::from_str]: split at [','], parse the first
    two pieces as ranges. *)
Definition Assignment_from_str (s : str) : option (Result Assignment IntErrorKind) :=
  let parts := split_char "," s in
  p1 <-! head parts ;;
  r1 <-! Range_from_str p1 ;;
  first <-?! r1 ;;
  p2 <-! head (tl parts) ;;
  r2 <-! Range_from_str p2 ;;
  second <-?! r2 ;;
  Some (Ok (mkAssignment first second)).

(** [itertools::process_results] over the parsed lines, counting the
    overlapping pairs: it stops at the first [Err], so later lines are
    not parsed. *)
Fixpoint count_overlapping (ls : list str) (acc : nat) : option (Result nat IntErrorKind) :=
  match ls with
  | [] => Some (Ok acc)
  | l :: rest =>
      r <-! Assignment_from_str l ;;
      a <-?! r ;;
      count_overlapping rest (if has_overlapping_ranges a then S acc else acc)
  end.

(** [fn mine()]: the printed [answer]. *)
Definition mine (input : str) : option (Result nat IntErrorKind) :=
  count_overlapping (lines input) 0.

(** ** The [RangeInclusiveExt] trait *)

(** [RangeInclusive<T>] as its two bounds. *)
Record RangeInclusive (T : Type) := mkRangeInclusive { start : T; end_ : T }.
Arguments mkRangeInclusive {T} _ _.
Arguments start {T} _.
Arguments end_ {T} _.

(** [RangeInclusive::contains] for [T: PartialOrd], here [N]. *)
Definition contains (r : RangeInclusive N) (x : N) : bool :=
  (start r <=? x)%N && (x <=? end_ r)%N.

(** [trait RangeInclusiveExt]: the two required methods. *)
Class RangeInclusiveExt (R : Type) := {
  contains_range : R -> R -> bool;
  overlaps : R -> R -> bool
}.

(** Its provided methods. *)
Definition contains_or_is_contained `{RangeInclusiveExt R} (self other : R) : bool :=
  contains_range self other || contains_range other self.

Definition overlaps_or_is_overlapped `{RangeInclusiveExt R} (self other : R) : bool :=
  overlaps self other || overlaps other self.

(** [impl<T: PartialOrd> RangeInclusiveExt for RangeInclusive<T>] *)
#[export] Instance RangeInclusive_ext : RangeInclusiveExt (RangeInclusive N) := {
  contains_range self other := contains self (start other) && contains self (end_ other);
  overlaps self other := contains other (start self) || contains other (end_ self)
}.

(** [part.split('-').map(|v| v.parse::<u32>().unwrap())
    .collect_tuple::<(u32, u32)>().map(|(s, e)| s..=e).unwrap()] *)
Definition parse_range_u32 (part : str) : option (RangeInclusive N) :=
  t <-! collect_tuple2 (List.map (fun v => ok (from_str_uint 32 v)) (split_char "-" part)) ;;
  p <-! t ;;
  Some (mkRangeInclusive p.1 p.2).

(** [line.split(',').map(...).collect_tuple::<(_, _)>().unwrap()] *)
Definition parse_line_u32 (line : str) : option (RangeInclusive N * RangeInclusive N) :=
  t <-! collect_tuple2 (List.map parse_range_u32 (split_char "," line)) ;;
  t.

(** [fn main()]: the number of lines whose ranges overlap. *)
Definition main (input : str) : option nat :=
  count_true (List.map (fun line =>
    p <-! parse_line_u32 line ;; Some (overlaps_or_is_overlapped p.1 p.2)) (lines input)).

(** ** Meaning of the tests *)

(** A section number in a range, and a range written low to high. *)
Definition in_range (r : Range) (x : N) : Prop := (lower r <= x <= upper r)%N.
Definition wf (r : Range) : Prop := (lower r <= upper r)%N.

(** The same bounds as a [RangeInclusive] ([start..=end]). *)
Definition to_inclusive (r : Range) : RangeInclusive N := mkRangeInclusive (lower r) (upper r).

Lemma contains_in_range r x : contains (to_inclusive r) x = true <-> in_range r x.
Proof. unfold contains, in_range; simpl. reflect_N; split; intros; (lia || done). Qed.

Lemma overlap_true a b :
  overlap a b = true <->
  (lower a <= lower b <= upper a)%N \/ (lower b <= lower a <= upper b)%N.
Proof. unfold overlap. reflect_N; split; intros; (lia || done). Qed.

(** C20: on ranges written low to high, [Range::overlap] holds exactly when
    the two ranges share a section. *)
Theorem overlap_iff a b :
  wf a -> wf b -> overlap a b = true <-> exists x, in_range a x /\ in_range b x.
Proof.
  unfold wf, in_range. intros Ha Hb. rewrite overlap_true. split.
  - intros H. exists (N.max (lower a) (lower b)). lia.
  - intros (x & Hx1 & Hx2). lia.
Qed.

Lemma overlaps_or_is_overlapped_true a b :
  overlaps_or_is_overlapped (to_inclusive a) (to_inclusive b) = true <->
  in_range b (lower a) \/ in_range b (upper a) \/ in_range a (lower b) \/ in_range a (upper b).
Proof.
  unfold overlaps_or_is_overlapped; simpl.
  rewrite !orb_true_iff, !contains_in_range. tauto.
Qed.

(** C21: the [RangeInclusiveExt] test of [main] agrees with
    [Range::overlap] of [mine] on ranges written low to high. *)
Theorem overlaps_agree a b :
  wf a -> wf b -> overlaps_or_is_overlapped (to_inclusive a) (to_inclusive b) = overlap a b.
Proof.
  unfold wf. intros Ha Hb. apply eq_iff_eq_true.
  rewrite overlaps_or_is_overlapped_true, overlap_true. unfold in_range. lia.
Qed.

(** C34: [main]'s test accepts every pair that [Range::overlap] of
    [mine] accepts, whatever the ranges; and every range written
    backwards ([upper < lower]) has a partner, the one section
    [upper..=upper], which [main] says it overlaps and [mine] does not. *)
Theorem overlaps_disagree_backwards a b :
  (overlap a b = true -> overlaps_or_is_overlapped (to_inclusive a) (to_inclusive b) = true) /\
  ((upper a < lower a)%N ->
   overlaps_or_is_overlapped (to_inclusive a) (to_inclusive (mkRange (upper a) (upper a))) = true /\
   overlap a (mkRange (upper a) (upper a)) = false).
Proof.
  split.
  - rewrite overlaps_or_is_overlapped_true, overlap_true. unfold in_range. lia.
  - intros Hback. rewrite overlaps_or_is_overlapped_true, <-not_true_iff_false, overlap_true.
    unfold in_range; simpl. lia.
Qed.

(** On ranges written low to high, [Range::is_contained first second]
    holds exactly when every section of [first] is in [second]. *)
Theorem is_contained_iff a b :
  wf a -> is_contained a b = true <-> forall x, in_range a x -> in_range b x.
Proof.
  unfold wf, in_range, is_contained. intros Ha. rewrite andb_true_iff, !N.leb_le. split.
  - intros [H1 H2] x Hx. lia.
  - intros Hall. pose proof (Hall (lower a)). pose proof (Hall (upper a)). lia.
Qed.

(** On ranges written low to high, the containment tests of the two
    solutions agree. *)
Theorem contained_agree a :
  wf (first a) -> wf (second a) ->
  contains_or_is_contained (to_inclusive (first a)) (to_inclusive (second a)) =
  has_contained_ranges a.
Proof.
  unfold wf, has_contained_ranges, contains_or_is_contained, is_contained, contains.
  destruct a as [[l1 u1] [l2 u2]]; simpl. unfold contains; simpl.
  intros. reflect_N; first [done | exfalso; lia].
Qed.

(** ** Parsing *)

(** The text of a range and of an assignment, as in the input. *)
Definition render_range (r : Range) : str := show_N (lower r) ++ "-"%char :: show_N (upper r).
Definition render_assignment (a : Assignment) : str :=
  render_range (first a) ++ ","%char :: render_range (second a).

Lemma not_digit_sep : ~ is_digit "-"%char /\ ~ is_digit ","%char /\ ~ is_digit "010"%char /\
                      ~ is_digit "013"%char.
Proof. unfold is_digit. repeat split; intros [? H]; discriminate. Qed.

Lemma sep_not_in_range c r : ~ is_digit c -> c <> "-"%char -> c ∉ render_range r.
Proof.
  intros Hd Hm. unfold render_range. rewrite elem_of_app, elem_of_cons.
  pose proof (show_N_not_elem c (lower r) Hd). pose proof (show_N_not_elem c (upper r) Hd).
  naive_solver.
Qed.

Lemma split_render_range r :
  split_char "-" (render_range r) = [show_N (lower r); show_N (upper r)].
Proof.
  destruct not_digit_sep as (Hm & _).
  unfold render_range. rewrite split_char_sep, split_char_end; auto using show_N_not_elem.
Qed.

Lemma split_render_assignment a :
  split_char "," (render_assignment a) = [render_range (first a); render_range (second a)].
Proof.
  destruct not_digit_sep as (_ & Hc & _).
  unfold render_assignment. rewrite split_char_sep, split_char_end; auto using sep_not_in_range.
Qed.

(** Both bounds of a range fit in [w] bits. *)
Definition fits (w : N) (r : Range) : Prop := (lower r < modulus w /\ upper r < modulus w)%N.

(** [Range::from_str] reads back every range whose bounds fit in [u64]. *)
Lemma Range_from_str_render r : fits 64 r -> Range_from_str (render_range r) = Some (Ok r).
Proof.
  intros [Hl Hu]. unfold Range_from_str. rewrite split_render_range. simpl.
  rewrite !from_str_uint_show by done. by destruct r.
Qed.

(** C25: [Assignment::from_str] reads back every assignment written in the
    input format whose bounds fit in [u64]. *)
Theorem Assignment_from_str_render a :
  fits 64 (first a) -> fits 64 (second a) ->
  Assignment_from_str (render_assignment a) = Some (Ok a).
Proof.
  intros H1 H2. unfold Assignment_from_str. rewrite split_render_assignment. simpl.
  rewrite !Range_from_str_render by done. by destruct a.
Qed.

(** The [u32] parser of [main] reads the same ranges when they fit. *)
Lemma parse_line_u32_render a :
  fits 32 (first a) -> fits 32 (second a) ->
  parse_line_u32 (render_assignment a) = Some (to_inclusive (first a), to_inclusive (second a)).
Proof.
  intros [H1 H2] [H3 H4]. unfold parse_line_u32, parse_range_u32.
  rewrite split_render_assignment. simpl. rewrite !split_render_range. simpl.
  by rewrite !from_str_uint_show by done.
Qed.

(** ** The two solutions on a whole input *)

(** The input made of the given assignments, one per line. *)
Definition render_input (l : list Assignment) : str := unlines (List.map render_assignment l).

Lemma render_assignment_chars a :
  Forall (fun c => is_digit c \/ c = "-"%char \/ c = ","%char) (render_assignment a).
Proof.
  assert (Hd : forall n, Forall (fun c => is_digit c \/ c = "-"%char \/ c = ","%char) (show_N n)).
  { intros n. eapply Forall_impl; [apply (show_N_value n)|]. auto. }
  unfold render_assignment, render_range.
  repeat first [apply Forall_app; split | apply Hd | (right; left; reflexivity)
               | (right; right; reflexivity) | apply Forall_cons; split].
Qed.

Lemma render_assignment_plain a : plain_line (render_assignment a).
Proof.
  destruct not_digit_sep as (_ & _ & Hn & Hr).
  apply (plain_line_chars _ _ (render_assignment_chars a)); intros [|[|]]; done.
Qed.

Lemma fits_32_64 r : fits 32 r -> fits 64 r.
Proof.
  unfold fits, modulus. assert (H : (2 ^ 32 < 2 ^ 64)%N) by (vm_compute; reflexivity). lia.
Qed.

(** Both ranges of an assignment fit in [u64]: [mine] reads it back. *)
Definition readable (a : Assignment) : Prop := fits 64 (first a) /\ fits 64 (second a).

(** The property of the assignments on which both solutions are exact. *)
Definition sound (a : Assignment) : Prop :=
  wf (first a) /\ wf (second a) /\ fits 32 (first a) /\ fits 32 (second a).

Lemma sound_readable a : sound a -> readable a.
Proof. intros (_ & _ & H1 & H2). split; by apply fits_32_64. Qed.

(** [process_results] goes through the readable lines, counting. *)
Lemma count_overlapping_render_app l rest acc :
  Forall readable l ->
  count_overlapping (List.map render_assignment l ++ rest) acc =
    count_overlapping rest (acc + length (filter has_overlapping_ranges l)).
Proof.
  intros Hl. revert acc. induction Hl as [|a l [H1 H2] _ IH]; intros acc; simpl.
  { f_equal. lia. }
  unfold Assignment_from_str at 1. rewrite split_render_assignment. simpl.
  rewrite !Range_from_str_render by done. simpl. destruct a as [r1 r2].
  rewrite IH, filter_cons. unfold has_overlapping_ranges; simpl.
  destruct (overlap r1 r2); simpl; f_equal; lia.
Qed.

Lemma count_overlapping_render l acc :
  Forall readable l ->
  count_overlapping (List.map render_assignment l) acc =
    Some (Ok (acc + length (filter has_overlapping_ranges l))).
Proof.
  intros Hl. rewrite <-(app_nil_r (List.map _ l)), count_overlapping_render_app by done. done.
Qed.

Lemma render_assignments_plain l : Forall plain_line (List.map render_assignment l).
Proof. apply Forall_fmap, Forall_forall. intros a _. apply render_assignment_plain. Qed.

(** The [u32] parse of a bound that does not fit panics. *)
Lemma ok_from_str_u32 n :
  ok (from_str_uint 32 (show_N n)) = if (n <? modulus 32)%N then Some n else None.
Proof.
  destruct (N.ltb_spec n (modulus 32)).
  - by rewrite from_str_uint_show.
  - by rewrite from_str_uint_show_overflow.
Qed.

Lemma parse_line_u32_overflow a :
  ~ fits 32 (first a) \/ ~ fits 32 (second a) -> parse_line_u32 (render_assignment a) = None.
Proof.
  unfold fits. intros Hbig. unfold parse_line_u32, parse_range_u32.
  rewrite split_render_assignment. simpl. rewrite !split_render_range. simpl.
  rewrite !ok_from_str_u32.
  destruct a as [[l1 u1] [l2 u2]]; simpl in *.
  destruct (N.ltb_spec l1 (modulus 32)), (N.ltb_spec u1 (modulus 32)),
    (N.ltb_spec l2 (modulus 32)), (N.ltb_spec u2 (modulus 32)); simpl; try done; lia.
Qed.

(** C11: on every input of assignments written low to high with bounds
    that fit in [u32], [mine] and [main] both return the number of
    overlapping pairs. *)
Theorem mine_main_agree l :
  Forall sound l ->
  mine (render_input l) = Some (Ok (length (filter has_overlapping_ranges l))) /\
  main (render_input l) = Some (length (filter has_overlapping_ranges l)).
Proof.
  intros Hl. unfold mine, main, render_input.
  rewrite lines_unlines by apply render_assignments_plain.
  split; [rewrite count_overlapping_render; [done|]; eapply Forall_impl; [exact Hl|apply sound_readable]|].
  rewrite List.map_map. apply count_true_ext.
  eapply Forall_impl; [exact Hl|]. intros a (Hw1 & Hw2 & Hf1 & Hf2).
  rewrite parse_line_u32_render by done. simpl. f_equal. apply eq_iff_eq_true.
  unfold has_overlapping_ranges. rewrite overlaps_or_is_overlapped_true, overlap_true. unfold wf, in_range in *. lia.
Qed.

(** C35: on assignments whose bounds fit in [u64], as soon as one bound
    does not fit in [u32], [main] panics on that line ([u32] parse and
    [unwrap]) while [mine] still counts the overlapping pairs. *)
Theorem main_u32_overflow l :
  Forall readable l -> Exists (fun a => ~ fits 32 (first a) \/ ~ fits 32 (second a)) l ->
  mine (render_input l) = Some (Ok (length (filter has_overlapping_ranges l))) /\
  main (render_input l) = None.
Proof.
  intros Hl Hbig. unfold mine, main, render_input. rewrite lines_unlines by apply render_assignments_plain.
  split; [by rewrite count_overlapping_render|].
  apply count_true_None. rewrite List.map_map. apply list_elem_of_fmap.
  apply Exists_exists in Hbig as (a & Hin & Ha). exists a. split; [|done].
  by rewrite parse_line_u32_overflow.
Qed.

(** C36: [process_results] stops at the first line that is not a number:
    after any readable lines, a line on which [Assignment::from_str]
    returns an error makes [mine] return that error, whatever follows,
    even lines on which [Assignment::from_str] would panic. *)
Theorem mine_stops_at_first_err l line rest e :
  Forall readable l -> plain_line line -> Assignment_from_str line = Some (Err e) ->
  mine (render_input l ++ line ++ "010"%char :: rest) = Some (Err e).
Proof.
  intros Hl Hline He. unfold mine, render_input.
  assert (Hs : line ++ "010"%char :: rest = unlines [line] ++ rest)
    by (unfold unlines; simpl; by repeat rewrite <-app_assoc).
  rewrite Hs, lines_unlines_app, lines_unlines_app by (apply render_assignments_plain || by constructor).
  rewrite count_overlapping_render_app by done. simpl. by rewrite He.
Qed.

(** ** Witnesses *)

Lemma overlap_iff_witness :
  wf (mkRange 2 4) /\ wf (mkRange 4 8) /\
  (overlap (mkRange 2 4) (mkRange 4 8) = true <->
   exists x, in_range (mkRange 2 4) x /\ in_range (mkRange 4 8) x).
Proof. unfold wf; simpl. split; [lia|split; [lia|]]. apply overlap_iff; unfold wf; simpl; lia. Defined.

Lemma overlaps_agree_witness :
  wf (mkRange 2 4) /\ wf (mkRange 6 8) /\
  overlaps_or_is_overlapped (to_inclusive (mkRange 2 4)) (to_inclusive (mkRange 6 8)) =
  overlap (mkRange 2 4) (mkRange 6 8).
Proof. unfold wf; simpl. split; [lia|split; [lia|]]. apply overlaps_agree; unfold wf; simpl; lia. Defined.

Lemma is_contained_iff_witness :
  wf (mkRange 3 7) /\
  (is_contained (mkRange 3 7) (mkRange 2 8) = true <->
   forall x, in_range (mkRange 3 7) x -> in_range (mkRange 2 8) x).
Proof. unfold wf; simpl. split; [lia|]. apply is_contained_iff; unfold wf; simpl; lia. Defined.

Lemma contained_agree_witness :
  let a := mkAssignment (mkRange 6 6) (mkRange 4 6) in
  wf (first a) /\ wf (second a) /\
  contains_or_is_contained (to_inclusive (first a)) (to_inclusive (second a)) =
  has_contained_ranges a.
Proof.
  intros a. split; [unfold wf; simpl; lia|split; [unfold wf; simpl; lia|]].
  apply contained_agree; unfold wf; simpl; lia.
Defined.

Lemma Assignment_from_str_render_witness :
  let a := mkAssignment (mkRange 2 4) (mkRange 6 8) in
  fits 64 (first a) /\ fits 64 (second a) /\
  render_assignment a = s2l "2-4,6-8" /\
  Assignment_from_str (render_assignment a) = Some (Ok a).
Proof.
  intros a. split; [vm_compute; done|split; [vm_compute; done|split; [reflexivity|]]].
  apply Assignment_from_str_render; vm_compute; done.
Defined.

(** The example of the puzzle, each line ended by a newline: four of
    its six pairs overlap. *)
Definition example_assignments : list Assignment :=
  [mkAssignment (mkRange 2 4) (mkRange 6 8); mkAssignment (mkRange 2 3) (mkRange 4 5);
   mkAssignment (mkRange 5 7) (mkRange 7 9); mkAssignment (mkRange 2 8) (mkRange 3 7);
   mkAssignment (mkRange 6 6) (mkRange 4 6); mkAssignment (mkRange 2 6) (mkRange 4 8)].

Lemma mine_main_agree_witness :
  Forall sound example_assignments /\
  render_input example_assignments = s2l "2-4,6-8
2-3,4-5
5-7,7-9
2-8,3-7
6-6,4-6
2-6,4-8
" /\
  mine (render_input example_assignments) = Some (Ok 4) /\
  main (render_input example_assignments) = Some 4.
Proof.
  assert (H : Forall sound example_assignments).
  { repeat constructor; unfold wf, fits; simpl; vm_compute; done. }
  split; [exact H|split; [reflexivity|]]. exact (mine_main_agree _ H).
Defined.

Lemma overlaps_disagree_backwards_witness :
  (upper (mkRange 5 3) < lower (mkRange 5 3))%N /\
  overlaps_or_is_overlapped (to_inclusive (mkRange 5 3)) (to_inclusive (mkRange 3 3)) = true /\
  overlap (mkRange 5 3) (mkRange 3 3) = false.
Proof.
  assert (H : (upper (mkRange 5 3) < lower (mkRange 5 3))%N) by (simpl; lia).
  split; [exact H|]. exact (proj2 (overlaps_disagree_backwards (mkRange 5 3) (mkRange 1 4)) H).
Defined.

Lemma main_u32_overflow_witness :
  let l := example_assignments ++ [mkAssignment (mkRange 1 4294967296) (mkRange 5 7)] in
  Forall readable l /\ Exists (fun a => ~ fits 32 (first a) \/ ~ fits 32 (second a)) l /\
  length (filter has_overlapping_ranges l) = 5 /\
  mine (render_input l) = Some (Ok (length (filter has_overlapping_ranges l))) /\
  main (render_input l) = None.
Proof.
  intros l.
  assert (H1 : Forall readable l) by (repeat constructor; vm_compute; done).
  assert (H2 : Exists (fun a => ~ fits 32 (first a) \/ ~ fits 32 (second a)) l).
  { apply Exists_exists. eexists. split; [by apply elem_of_app; right; left|].
    left. unfold fits; simpl. vm_compute. intros [_ H]. discriminate. }
  split; [exact H1|]. split; [exact H2|]. split; [vm_compute; reflexivity|].
  exact (main_u32_overflow l H1 H2).
Defined.

Lemma mine_stops_at_first_err_witness :
  Forall readable example_assignments /\ plain_line (s2l "x-1,1-1") /\
  Assignment_from_str (s2l "x-1,1-1") = Some (Err InvalidDigit) /\
  Assignment_from_str (s2l "1") = None /\
  mine (render_input example_assignments ++ s2l "x-1,1-1" ++ "010"%char :: s2l "1") =
    Some (Err InvalidDigit).
Proof.
  assert (H1 : Forall readable example_assignments) by (repeat constructor; vm_compute; done).
  assert (H2 : plain_line (s2l "x-1,1-1"))
    by (split; [apply (bool_decide_unpack _); vm_compute; reflexivity|done]).
  assert (H3 : Assignment_from_str (s2l "x-1,1-1") = Some (Err InvalidDigit)) by (vm_compute; reflexivity).
  split; [exact H1|]. split; [exact H2|]. split; [exact H3|]. split; [vm_compute; reflexivity|].
  exact (mine_stops_at_first_err _ _ _ _ H1 H2 H3).
Defined.

End Day04.
