(* ===== verification/Day02.v ===== *)
(** * Day 02: rock paper scissors

    [src/day_02/src/main.rs].  Each line ["A Y"] names the opponent's
    move ([A], [B], [C]) and the outcome the player must reach ([X] loss,
    [Y] draw, [Z] win).  [Round::from_str] reads the two letters at
    positions 0 and 2, finds the player's move with
    [Outcome::matching_move] (a search of [Move::ALL_MOVES] with
    [Round::beats]), and [main] sums [Round::get_score] over the lines
    with [itertools::process_results] and unwraps the result.

    The theorems show that [beats] is the cyclic game, that the searches
    never panic and that [matching_move] picks the one move reaching the
    outcome, that a line reads back, which lines panic, and that [main]
    sums the closed-form scores [1 + (opponent + shift) mod 3 + 3 * ...]. *)

From S2P Require Import Prelude RustStd.

Module Day02.

(** [enum Move] *)
Inductive Move := Rock | Paper | Scissors.

#[export] Instance Move_eq_dec : EqDecision Move.
Proof. solve_decision. Defined.

(** [Move::ALL_MOVES] *)
Definition ALL_MOVES : list Move := [Rock; Paper; Scissors].

(** [enum Outcome] *)
Inductive Outcome := Win | Draw | Loss.

#[export] Instance Outcome_eq_dec : EqDecision Outcome.
Proof. solve_decision. Defined.

(** [struct Round { opponent: Move, player: Move }] *)
Record Round := mkRound { opponent : Move; player : Move }.

(** [Round::beats(left, right)] *)
Definition beats (left right : Move) : bool :=
  match left, right with
  | Rock, Scissors | Paper, Rock | Scissors, Paper => true
  | _, _ => false
  end.

(** [Move::winning_move_against]: [find(..).unwrap()], a panic if no
    move of [ALL_MOVES] qualifies. *)
Definition winning_move_against (self : Move) : option Move :=
  List.find (fun m => beats m self) ALL_MOVES.

(** [Move::losing_move_against] *)
Definition losing_move_against (self : Move) : option Move :=
  List.find (fun m => beats self m) ALL_MOVES.

(** [Move::drawing_move_against] *)
Definition drawing_move_against (self : Move) : Move := self.

(** [Move::points] *)
Definition Move_points (self : Move) : N :=
  match self with Rock => 1 | Paper => 2 | Scissors => 3 end.

(** [<Move as TryFrom<char>>::try_from] *)
Definition Move_try_from (value : ascii) : Result Move unit :=
  match value with
  | "A"%char => Ok Rock
  | "B"%char => Ok Paper
  | "C"%char => Ok Scissors
  | _ => Err tt
  end.

(** [<Outcome as TryFrom<char>>::try_from] *)
Definition Outcome_try_from (value : ascii) : Result Outcome unit :=
  match value with
  | "X"%char => Ok Loss
  | "Y"%char => Ok Draw
  | "Z"%char => Ok Win
  | _ => Err tt
  end.

(** [Outcome::points] *)
Definition Outcome_points (self : Outcome) : N :=
  match self with Win => 6 | Draw => 3 | Loss => 0 end.

(** [Outcome::matching_move] *)
Definition matching_move (self : Outcome) (opponent : Move) : option Move :=
  match self with
  | Win => winning_move_against opponent
  | Draw => Some (drawing_move_against opponent)
  | Loss => losing_move_against opponent
  end.

(** [Round::outcome] *)
Definition outcome (self : Round) : Outcome :=
  if beats (player self) (opponent self) then Win
  else if beats (opponent self) (player self) then Loss
  else Draw.

(** [Round::get_score]: a [u64] sum. *)
Definition get_score (self : Round) : option N :=
  checked_add 64 (Move_points (player self)) (Outcome_points (outcome self)).

(** [<Round as FromStr>::from_str]: [chars[0]] and [chars[2]] panic on a
    line shorter than three characters; [chars[1]] is not looked at. *)
Definition Round_from_str (s : str) : option (Result Round unit) :=
  c0 <-! s !! 0 ;;
  c2 <-! s !! 2 ;;
  opponent <-?! Move_try_from c0 ;;
  outcome <-?! Outcome_try_from c2 ;;
  player_move <-! matching_move outcome opponent ;;
  Some (Ok (mkRound opponent player_move)).

(** [process_results(lines.map(Round::from_str).map_ok(get_score),
    |iter| iter.sum())]: each line is parsed and scored only when the
    sum asks for it, the [u64] sum panics on overflow, and the first
    [Err] ends the iteration. *)
Fixpoint sum_scores (ls : list str) (acc : N) : option (Result N unit) :=
  match ls with
  | [] => Some (Ok acc)
  | l :: rest =>
      r <-! Round_from_str l ;;
      round <-?! r ;;
      score <-! get_score round ;;
      acc' <-! checked_add 64 acc score ;;
      sum_scores rest acc'
  end.

(** [fn main()]: the printed [total_score]; [.unwrap()] panics on [Err]. *)
Definition main (input : str) : option N :=
  r <-! sum_scores (lines input) 0 ;;
  ok r.

(** ** The game *)

(** Case analysis on every move and outcome in the context. *)
Ltac game_cases :=
  repeat match goal with
  | m : Move |- _ => destruct m
  | o : Outcome |- _ => destruct o
  end.

(** [beats] is the cyclic game: no move beats itself, and of two
    different moves exactly one beats the other. *)
Theorem beats_tournament a b :
  a <> b -> beats a a = false /\ beats a b = negb (beats b a).
Proof. intros. game_cases; naive_solver. Qed.

Lemma winning_move_against_iff m w : winning_move_against m = Some w <-> beats w m = true.
Proof. game_cases; cbv; naive_solver. Qed.

Lemma losing_move_against_iff m l : losing_move_against m = Some l <-> beats m l = true.
Proof. game_cases; cbv; naive_solver. Qed.

(** The two searches of [Move::ALL_MOVES] never panic: against every
    move some move wins and some move loses. *)
Theorem searches_total m :
  is_Some (winning_move_against m) /\ is_Some (losing_move_against m).
Proof. destruct m; split; eexists; reflexivity. Qed.

(** C8: [Outcome::matching_move] returns exactly the move with which the
    player reaches the outcome against the opponent. *)
Theorem matching_move_iff o opp p :
  matching_move o opp = Some p <-> outcome (mkRound opp p) = o.
Proof. game_cases; cbv; naive_solver. Qed.

(** ** A closed form *)

(** The moves numbered [0, 1, 2] around the cycle, each beaten by the
    next; an outcome as the step from the opponent's move to the
    player's. *)
Definition move_index (m : Move) : N :=
  match m with Rock => 0 | Paper => 1 | Scissors => 2 end.
Definition move_of_index (n : N) : Move :=
  match n with 0%N => Rock | 1%N => Paper | _ => Scissors end.
Definition shift (o : Outcome) : N :=
  match o with Win => 1 | Draw => 0 | Loss => 2 end.

(** The score of a line [opponent outcome] in closed form. *)
Definition score_ref (opp : Move) (o : Outcome) : N :=
  1 + (move_index opp + shift o) mod 3 + 3 * ((shift o + 1) mod 3).

Lemma get_score_ref o opp p :
  matching_move o opp = Some p -> get_score (mkRound opp p) = Some (score_ref opp o).
Proof. intros H. game_cases; cbv in H; simplify_eq; reflexivity. Qed.

Lemma score_ref_bound opp o : (1 <= score_ref opp o <= 9)%N.
Proof. game_cases; vm_compute; split; discriminate. Qed.

(** ** Reading the lines *)

(** The letters of the input format. *)
Definition move_letter (m : Move) : ascii :=
  match m with Rock => "A" | Paper => "B" | Scissors => "C" end.
Definition outcome_letter (o : Outcome) : ascii :=
  match o with Loss => "X" | Draw => "Y" | Win => "Z" end.

(** A line of the input: the opponent's move, a space, the outcome. *)
Definition render_line (x : Move * Outcome) : str := [move_letter x.1; " "%char; outcome_letter x.2].

(** The round a line describes. *)
Definition round_of (x : Move * Outcome) : option Round :=
  p <-! matching_move x.2 x.1 ;; Some (mkRound x.1 p).

(** C24: [Round::from_str] reads every line of the input format as the
    round in which the player reaches the outcome, whatever character
    stands between the two letters. *)
Theorem Round_from_str_line opp c o :
  Round_from_str [move_letter opp; c; outcome_letter o] =
  Some (Ok (mkRound opp (move_of_index ((move_index opp + shift o) mod 3)))).
Proof. game_cases; reflexivity. Qed.

(** [Round::from_str] panics on a line shorter than three characters
    (an empty line included), before looking at any letter. *)
Theorem Round_from_str_short s : length s < 3 -> Round_from_str s = None.
Proof. intros H. destruct s as [|a [|b [|c s]]]; simpl in *; done || lia. Qed.

(** A letter outside the alphabet is an [Err]. *)
Lemma Round_from_str_bad_opponent c0 c1 c2 rest :
  Move_try_from c0 = Err tt -> Round_from_str (c0 :: c1 :: c2 :: rest) = Some (Err tt).
Proof. intros H. unfold Round_from_str. simpl. by rewrite H. Qed.

(** The sum of the closed-form scores of the lines. *)
Definition total_ref (xs : list (Move * Outcome)) : N :=
  foldr (fun x acc => score_ref x.1 x.2 + acc)%N 0%N xs.

Lemma total_ref_bound xs : (total_ref xs <= 9 * N.of_nat (length xs))%N.
Proof.
  induction xs as [|[opp o] xs IH]; simpl; [lia|].
  pose proof (score_ref_bound opp o). lia.
Qed.

Lemma Round_from_str_render x :
  Round_from_str (render_line x) = Some (Ok (mkRound x.1 (move_of_index ((move_index x.1 + shift x.2) mod 3)))).
Proof. destruct x as [opp o]. game_cases; reflexivity. Qed.

Lemma get_score_render x :
  get_score (mkRound x.1 (move_of_index ((move_index x.1 + shift x.2) mod 3))) = Some (score_ref x.1 x.2).
Proof. destruct x as [opp o]. game_cases; reflexivity. Qed.

Lemma sum_scores_render xs acc :
  (acc + 9 * N.of_nat (length xs) < modulus 64)%N ->
  sum_scores (List.map render_line xs) acc = Some (Ok (acc + total_ref xs)%N).
Proof.
  revert acc. induction xs as [|x xs IH]; intros acc Hb; simpl.
  { do 2 f_equal. lia. }
  rewrite Round_from_str_render, get_score_render. simpl. simpl length in Hb.
  pose proof (score_ref_bound x.1 x.2). pose proof (total_ref_bound xs).
  rewrite checked_add_Some by lia. rewrite IH by lia. do 2 f_equal. lia.
Qed.

Lemma render_line_plain x : plain_line (render_line x).
Proof. destruct x as [opp o]. game_cases; (split; [rewrite list_elem_of_In; simpl; intuition discriminate|done]). Qed.

(** The input made of the given lines. *)
Definition render_input (xs : list (Move * Outcome)) : str := unlines (List.map render_line xs).

(** C7: on an input of [n] lines, with [9 n] below [2^64], [main] prints
    the sum of the closed-form scores of its lines: the [u64] sum does
    not overflow and no line panics. *)
Theorem main_total xs :
  (9 * N.of_nat (length xs) < modulus 64)%N ->
  main (render_input xs) = Some (total_ref xs).
Proof.
  intros Hb. unfold main, render_input.
  rewrite lines_unlines by (clear Hb; induction xs; constructor; auto using render_line_plain).
  by rewrite sum_scores_render.
Qed.

(** C37: a line whose first letter is not [A], [B] or [C] makes [main]
    panic in its final [unwrap]: [process_results] stops at that line
    with [Err(())], after summing the well-formed lines before it and
    without reading the lines after it. *)
Theorem main_bad_letter input xs c0 c1 c2 rest ls :
  (9 * N.of_nat (length xs) < modulus 64)%N ->
  Move_try_from c0 = Err tt ->
  lines input = List.map render_line xs ++ (c0 :: c1 :: c2 :: rest) :: ls ->
  sum_scores (lines input) 0 = Some (Err tt) /\ main input = None.
Proof.
  intros Hb Hc Hl. unfold main. rewrite Hl.
  enough (H : forall acc, (acc + 9 * N.of_nat (length xs) < modulus 64)%N ->
            sum_scores (List.map render_line xs ++ (c0 :: c1 :: c2 :: rest) :: ls) acc = Some (Err tt))
    by (rewrite H by lia; done).
  clear Hb Hl. induction xs as [|x xs IH]; intros acc Hacc; simpl.
  - by rewrite Round_from_str_bad_opponent.
  - simpl length in Hacc. rewrite Round_from_str_render, get_score_render. simpl.
    pose proof (score_ref_bound x.1 x.2).
    rewrite checked_add_Some by lia. apply IH; lia.
Qed.

(** ** Witnesses *)

Lemma beats_tournament_witness :
  Rock <> Paper /\ beats Rock Rock = false /\ beats Rock Paper = negb (beats Paper Rock).
Proof. split; [discriminate|]. apply beats_tournament. discriminate. Defined.

Lemma Round_from_str_short_witness :
  length (s2l "A ") < 3 /\ Round_from_str (s2l "A ") = None.
Proof. split; [simpl; lia|]. apply Round_from_str_short. simpl; lia. Defined.

(** The example of the puzzle: [A Y], [B X], [C Z] score 4, 1 and 7. *)
Definition example_lines : list (Move * Outcome) := [(Rock, Draw); (Paper, Loss); (Scissors, Win)].

Lemma main_total_witness :
  render_input example_lines = s2l "A Y
B X
C Z
" /\
  (9 * N.of_nat (length example_lines) < modulus 64)%N /\
  main (render_input example_lines) = Some 12%N.
Proof.
  split; [reflexivity|]. split; [vm_compute; reflexivity|].
  apply (main_total example_lines). vm_compute. reflexivity.
Defined.

Lemma main_bad_letter_witness :
  (9 * N.of_nat (length [(Rock, Draw)]) < modulus 64)%N /\
  Move_try_from "D" = Err tt /\
  lines (s2l "A Y
D Y

") = List.map render_line [(Rock, Draw)] ++ s2l "D Y" :: [[]] /\
  sum_scores (lines (s2l "A Y
D Y

")) 0 = Some (Err tt) /\ main (s2l "A Y
D Y

") = None.
Proof.
  split; [vm_compute; reflexivity|]. split; [reflexivity|]. split; [reflexivity|].
  apply (main_bad_letter _ [(Rock, Draw)] "D" " " "Y" [] [[]]); reflexivity.
Defined.

End Day02.
