(* ===== verification/Day06.v ===== *)
(** * Day 06: the start-of-message marker

    [src/day_06/src/main.rs].  [main] slides a window of fourteen
    characters over the input ([slice::windows(14)]), tests each with
    [all_different] (collect the window into a [HashSet] and compare its
    size with the window's length) and hands the first index that passes,
    plus fourteen, to [dbg!].  The [HashSet<&char>] is a [gset ascii].

    The theorems show that [all_different] decides [NoDup], that [main]
    returns the end of the first window of distinct characters (or
    nothing when there is none), and that [x + 14] cannot overflow. *)

From stdpp Require Import gmap.
From S2P Require Import Prelude RustStd.

Module Day06.

(** [fn all_different(iter)]: [set.len() == iter.count()]. *)
Definition all_different (iter : list ascii) : bool :=
  bool_decide (size (list_to_set iter : gset ascii) = length iter).

(** The window length of [main]. *)
Definition MARKER : nat := 14.

(** [fn main()]: the value of
    [bytes.windows(14).map(all_different).position(|x| x).map(|x| x + 14)],
    the [Option<usize>] that [dbg!] prints; the [usize] addition is the
    debug-build one, on 64 bits. *)
Definition main (input : str) : option (option N) :=
  match position (fun x => x) (List.map all_different (windows MARKER input)) with
  | None => Some None
  | Some x => r <-! checked_add 64 (N.of_nat x) (N.of_nat MARKER) ;; Some (Some r)
  end.

(** ** [all_different] *)

Lemma size_list_to_set_le (l : list ascii) : size (list_to_set l : gset ascii) <= length l.
Proof.
  induction l as [|x l IH]; [rewrite list_to_set_nil, size_empty; simpl; lia|].
  rewrite list_to_set_cons, size_union_alt, size_singleton. simpl.
  assert (Hs : list_to_set l ∖ {[x]} ⊆ (list_to_set l : gset ascii)) by set_solver.
  apply subseteq_size in Hs. lia.
Qed.

(** [all_different] holds exactly when the characters are pairwise
    different. *)
Lemma all_different_NoDup l : all_different l = true <-> NoDup l.
Proof.
  unfold all_different. rewrite bool_decide_eq_true. split.
  - induction l as [|x l IH]; intros Hs; [constructor|].
    rewrite list_to_set_cons, size_union_alt, size_singleton in Hs. simpl in Hs.
    pose proof (size_list_to_set_le l).
    assert (Hx : x ∉ l).
    { intros Hin. assert (list_to_set l ∖ {[x]} ⊂ (list_to_set l : gset ascii)) as Hss.
      { apply strict_spec_alt. split; [set_solver|]. intros Heq.
        assert (x ∈ (list_to_set l : gset ascii)) by (by apply elem_of_list_to_set).
        set_solver. }
      apply subset_size in Hss. lia. }
    constructor; [done|]. apply IH.
    assert (list_to_set l ∖ {[x]} = (list_to_set l : gset ascii)) as Hd.
    { apply set_eq. intros y. rewrite elem_of_difference, elem_of_singleton, elem_of_list_to_set.
      naive_solver. }
    rewrite Hd in Hs. lia.
  - intros Hnd. apply size_list_to_set. done.
Qed.

(** ** The marker *)

(** The fourteen characters from index [k] are there and pairwise
    different. *)
Definition marker_at (input : str) (k : nat) : Prop :=
  k + MARKER <= length input /\ NoDup (take MARKER (drop k input)).

#[export] Instance marker_at_dec input k : Decision (marker_at input k).
Proof. unfold marker_at. apply _. Defined.

(** [k] is the first such index. *)
Definition first_marker (input : str) (k : nat) : Prop :=
  marker_at input k /\ forall j, j < k -> ~ marker_at input j.

Lemma all_different_window input j :
  j + MARKER <= length input ->
  all_different (take MARKER (drop j input)) = bool_decide (marker_at input j).
Proof.
  intros Hj. apply Bool.eq_true_iff_eq.
  rewrite all_different_NoDup, bool_decide_eq_true. unfold marker_at. tauto.
Qed.

Lemma windows_all_different_lookup input j b :
  List.map all_different (windows MARKER input) !! j = Some b <->
  j + MARKER <= length input /\ b = bool_decide (marker_at input j).
Proof.
  assert (HM : 0 < MARKER) by (unfold MARKER; lia).
  rewrite list_lookup_fmap.
  destruct (windows MARKER input !! j) as [w|] eqn:E; simpl.
  - apply windows_lookup in E as [Hj ->]; [|done].
    rewrite all_different_window by done. naive_solver.
  - split; [done|]. intros [Hj _].
    pose proof (proj2 (windows_lookup MARKER input j _ HM) (conj Hj eq_refl)). congruence.
Qed.

Lemma position_marker input k :
  position (fun x => x) (List.map all_different (windows MARKER input)) = Some k <->
  first_marker input k.
Proof.
  rewrite position_Some. unfold first_marker. split.
  - intros [(b & Hb & ->) Hall]. apply windows_all_different_lookup in Hb as [_ Hb].
    symmetry in Hb. apply bool_decide_eq_true in Hb. split; [done|]. intros j Hj Hm.
    assert (Hl : j + MARKER <= length input) by (destruct Hm; lia).
    specialize (Hall j true Hj). rewrite windows_all_different_lookup in Hall.
    enough (true = false) by done. apply Hall. split; [done|]. by rewrite bool_decide_eq_true_2.
  - intros [Hm Hall]. split.
    + exists true. split; [|done]. apply windows_all_different_lookup.
      split; [apply Hm|]. by rewrite bool_decide_eq_true_2.
    + intros j b Hj Hb. apply windows_all_different_lookup in Hb as [_ ->].
      apply bool_decide_eq_false_2, Hall, Hj.
Qed.

(** C10: on an input shorter than [2^64] characters, [main] hands [k + 14]
    to [dbg!] exactly when the fourteen characters from [k] are pairwise
    different and no earlier window of fourteen is. *)
Theorem main_first_marker input k :
  (N.of_nat (length input) < modulus 64)%N ->
  main input = Some (Some (N.of_nat (k + MARKER))) <-> first_marker input k.
Proof.
  intros Hlen. unfold main. rewrite <-position_marker.
  destruct (position _ _) as [x|] eqn:E; [|split; done].
  assert (Hx : x + MARKER <= length input).
  { apply position_marker in E as [[? _] _]. done. }
  rewrite checked_add_Some by lia. simpl. split.
  - intros [= Heq]. f_equal. lia.
  - intros [= ->]. do 2 f_equal. lia.
Qed.

Lemma position_None_marker input :
  position (fun x => x) (List.map all_different (windows MARKER input)) = None <->
  forall k, ~ marker_at input k.
Proof.
  rewrite position_None, Forall_lookup. split.
  - intros Hall k Hm. enough (true = false) by done. apply (Hall k).
    apply windows_all_different_lookup. split; [apply Hm|]. by rewrite bool_decide_eq_true_2.
  - intros Hno j b Hb. apply windows_all_different_lookup in Hb as [_ ->].
    by apply bool_decide_eq_false_2.
Qed.

(** C15: [main] finds nothing, and does not panic, exactly when no window
    of fourteen characters is made of different characters. *)
Theorem main_no_marker input :
  main input = Some None <-> forall k, ~ marker_at input k.
Proof.
  unfold main. rewrite <-position_None_marker.
  destruct (position _ _) as [x|]; [|done].
  split; [by destruct (checked_add _ _ _)|done].
Qed.

(** ** Witnesses *)

(** The first example of the puzzle: the marker ends at character 19. *)
Lemma main_first_marker_witness :
  (N.of_nat (length (s2l "mjqjpqmgbljsphdztnvjfqwrcgsmlb")) < modulus 64)%N /\
  main (s2l "mjqjpqmgbljsphdztnvjfqwrcgsmlb") = Some (Some 19%N) /\
  first_marker (s2l "mjqjpqmgbljsphdztnvjfqwrcgsmlb") 5.
Proof.
  split; [vm_compute; reflexivity|]. split; [vm_compute; reflexivity|].
  apply (main_first_marker _ 5); vm_compute; reflexivity.
Defined.

End Day06.
