(* ===== verification/Day03.v ===== *)
(** * Day 03: rucksack badges

    [src/day_03/src/main.rs].  Each line is a rucksack, a string of
    letters.  [main] turns every byte into an [Item] ([Item::from] panics
    on a byte that is not an ASCII letter), collects each rucksack into a
    [HashSet<Item>], groups the rucksacks by three with itertools
    [tuples], and for each group searches the first set, in the
    [HashSet]'s iteration order, for an item the two other sets contain;
    the sum of the priorities found (0 when none) is what [dbg!] prints.
    [solve_for_group], not called by [main], does the same search over
    the characters of the third line and panics when it finds nothing.

    The iteration order of a [HashSet] is not specified (it depends on a
    random hash seed), so the [main] here takes it as an argument
    [order]: any enumeration of the set's elements.  The theorems show
    that [priority] numbers the letters 1 to 52, that [main] does not
    depend on [order] when every group has at most one common item and
    then sums the priorities of the badges, and that it does depend on
    it for every group whose rucksacks share two items or more. *)

From stdpp Require Import gmap.
From S2P Require Import Prelude RustStd.

Module Day03.

(** [pub struct Item(u8)] *)
Record Item := mkItem { item_byte : N }.

#[export] Instance Item_eq_dec : EqDecision Item.
Proof. solve_decision. Defined.

#[export] Instance Item_countable : Countable Item.
Proof. apply (inj_countable' item_byte mkItem). by intros []. Defined.

(** The byte ranges [b'a'..=b'z'] and [b'A'..=b'Z']. *)
Definition is_lower (b : N) : bool := (97 <=? b)%N && (b <=? 122)%N.
Definition is_upper (b : N) : bool := (65 <=? b)%N && (b <=? 90)%N.

(** [<Item as From<u8>>::from]: a panic outside the two ranges. *)
Definition Item_from (value : N) : option Item :=
  if is_lower value || is_upper value then Some (mkItem value) else None.

(** [Item::priority]: the [u8] subtraction is the debug-build one. *)
Definition priority (self : Item) : option N :=
  if is_lower (item_byte self) then
    d <-! checked_sub (item_byte self) 97 ;; Some (1 + d)%N
  else if is_upper (item_byte self) then
    d <-! checked_sub (item_byte self) 65 ;; Some (27 + d)%N
  else None.

(** [fn solve_for_group(group)]: [group[0..3]] panic when the slice is
    shorter; the final [panic!()] when no character of the third line is
    in both sets. *)
Definition solve_for_group (group : list str) : option ascii :=
  first <-! group !! 0 ;;
  second <-! group !! 1 ;;
  third <-! group !! 2 ;;
  let first_set : gset ascii := list_to_set first in
  let second_set : gset ascii := list_to_set second in
  List.find (fun item => bool_decide (item ∈ first_set) && bool_decide (item ∈ second_set)) third.

(** [line.bytes().map(Item::try_from).collect::<Result<HashSet<_>, _>>()]:
    [try_from] is the blanket one over [From], so a bad byte panics and
    no [Err] is ever produced. *)
Definition sack (line : str) : option (gset Item) :=
  items <-! mapM Item_from (List.map N_of_ascii line) ;;
  Some (list_to_set items).

Section Main.

(** The iteration order of a [HashSet]. *)
Variable order : gset Item -> list Item.

(** [a.iter().find(|i| b.contains(i) && c.contains(i))
    .map(|i| i.priority()).unwrap_or_default()] *)
Definition group_value (a b c : gset Item) : option N :=
  match List.find (fun i => bool_decide (i ∈ b) && bool_decide (i ∈ c)) (order a) with
  | Some i => priority i
  | None => Some 0%N
  end.

(** [process_results(sacks, |rs| rs.tuples().map(..).sum::<u64>())]:
    [tuples] builds each rucksack's set as it pulls it, so the one or
    two lines of an incomplete last group are still read (and may panic)
    before they are dropped; the [u64] sum panics on overflow. *)
Fixpoint sum_groups (lines : list str) (acc : N) : option N :=
  match lines with
  | l1 :: l2 :: l3 :: rest =>
      a <-! sack l1 ;; b <-! sack l2 ;; c <-! sack l3 ;;
      v <-! group_value a b c ;;
      acc' <-! checked_add 64 acc v ;;
      sum_groups rest acc'
  | [l1; l2] => _ <-! sack l1 ;; _ <-! sack l2 ;; Some acc
  | [l1] => _ <-! sack l1 ;; Some acc
  | [] => Some acc
  end.

(** [fn main()]: the [sum] that [dbg!] prints. *)
Definition main (input : str) : option N := sum_groups (lines input) 0.

End Main.

(** ** Items and priorities *)

(** An ASCII letter, as a byte. *)
Definition is_letter (b : N) : Prop := (97 <= b <= 122 \/ 65 <= b <= 90)%N.

Lemma is_letter_bool b : is_lower b || is_upper b = true <-> is_letter b.
Proof. unfold is_lower, is_upper, is_letter. reflect_N; split; intros; (lia || done). Qed.

(** [Item::from] panics exactly on a byte that is not an ASCII letter. *)
Theorem Item_from_spec b :
  Item_from b = (if bool_decide (is_letter b) then Some (mkItem b) else None).
Proof.
  unfold Item_from. case_bool_decide as H.
  - by rewrite (proj2 (is_letter_bool b) H).
  - destruct (is_lower b || is_upper b) eqn:E; [|done]. by apply is_letter_bool in E.
Qed.

(** The alphabet in priority order. *)
Definition alphabet : str := s2l "abcdefghijklmnopqrstuvwxyzABCDEFGHIJKLMNOPQRSTUVWXYZ".

Lemma priority_lower b : (97 <= b <= 122)%N -> priority (mkItem b) = Some (b - 96)%N.
Proof.
  intros Hb. unfold priority, is_lower; simpl.
  rewrite (proj2 (N.leb_le 97 b)), (proj2 (N.leb_le b 122)) by lia; simpl.
  rewrite checked_sub_Some by lia. simpl. f_equal. lia.
Qed.

Lemma priority_upper b : (65 <= b <= 90)%N -> priority (mkItem b) = Some (b - 38)%N.
Proof.
  intros Hb. unfold priority, is_lower, is_upper; simpl.
  rewrite (proj2 (N.leb_le 65 b)), (proj2 (N.leb_le b 90)) by lia.
  destruct (N.leb_spec 97 b); [lia|]; simpl.
  rewrite checked_sub_Some by lia. simpl. f_equal. lia.
Qed.

(** C22: [Item::priority] numbers the letters [a..z] 1 to 26 and [A..Z] 27
    to 52: the letter at index [k] of the alphabet has priority [k + 1]. *)
Theorem priority_alphabet k c :
  alphabet !! k = Some c -> priority (mkItem (N_of_ascii c)) = Some (N.of_nat k + 1)%N.
Proof.
  intros Hk. apply lookup_lt_Some in Hk as Hlt. unfold alphabet in Hlt; simpl in Hlt.
  do 52 (destruct k as [|k]; [injection Hk as <-; reflexivity|]). lia.
Qed.

(** The priority of a letter, in one formula. *)
Lemma priority_letter b :
  is_letter b -> priority (mkItem b) = Some (if (97 <=? b)%N then b - 96 else b - 38)%N.
Proof.
  intros [Hb|Hb]; [rewrite priority_lower by done | rewrite priority_upper by done];
    reflect_N; (done || lia).
Qed.

(** C23: on the items [Item::from] builds, [priority] never panics, lies
    in [1..=52], and tells items apart. *)
Theorem priority_range_inj b1 b2 i1 i2 :
  Item_from b1 = Some i1 -> Item_from b2 = Some i2 ->
  (exists p, priority i1 = Some p /\ (1 <= p <= 52)%N) /\
  (priority i1 = priority i2 -> i1 = i2).
Proof.
  rewrite !Item_from_spec. do 2 (case_bool_decide; [|done]). intros [= <-] [= <-].
  rewrite !priority_letter by done. unfold is_letter in *. split.
  - eexists. split; [done|]. reflect_N; lia.
  - intros [= Heq]. f_equal. revert Heq. reflect_N; lia.
Qed.

(** ** The badge of a group *)

(** The items the three rucksacks of a group share. *)
Definition common (a b c : gset Item) : gset Item := a ∩ b ∩ c.

(** The priority of the shared item, 0 when there is none. *)
Definition badge_value (a b c : gset Item) : option N :=
  match elements (common a b c) with
  | [] => Some 0%N
  | i :: _ => priority i
  end.

(** Every complete group of rucksacks that parse shares at most one
    item. *)
Fixpoint badges_unique (lines : list str) : bool :=
  match lines with
  | l1 :: l2 :: l3 :: rest =>
      match sack l1, sack l2, sack l3 with
      | Some a, Some b, Some c => bool_decide (size (common a b c) <= 1) && badges_unique rest
      | _, _, _ => true
      end
  | _ => true
  end.

(** An iteration order of a [HashSet]: it lists every element once. *)
Definition valid_order (order : gset Item -> list Item) : Prop :=
  forall s, order s ≡ₚ elements s.

Lemma common_test (a b c : gset Item) i :
  i ∈ a -> (bool_decide (i ∈ b) && bool_decide (i ∈ c) = true <-> i ∈ common a b c).
Proof.
  intros Ha. unfold common. rewrite andb_true_iff, !bool_decide_eq_true. set_solver.
Qed.

Lemma group_value_badge order a b c :
  valid_order order -> size (common a b c) <= 1 ->
  group_value order a b c = badge_value a b c.
Proof.
  intros Hord Hs. unfold group_value, badge_value.
  assert (Hin : forall i, i ∈ order a <-> i ∈ a).
  { intros i. by rewrite (Hord a), elem_of_elements. }
  assert (Hl : length (elements (common a b c)) <= 1) by (unfold size, set_size in Hs; exact Hs).
  destruct (elements (common a b c)) as [|x [|y l]] eqn:E; simpl in Hl; [| |lia].
  - rewrite find_none_iff; [done|]. intros y Hy. apply Hin in Hy.
    apply not_true_is_false. rewrite common_test, <-elem_of_elements, E by done.
    apply not_elem_of_nil.
  - assert (Hx : x ∈ common a b c) by (rewrite <-elem_of_elements, E; left).
    rewrite (find_unique _ _ x); [done| | |].
    + apply Hin. unfold common in Hx. set_solver.
    + apply (common_test a); [unfold common in Hx; set_solver|done].
    + intros y Hy Hp. apply Hin in Hy. apply (common_test a b c y Hy) in Hp.
      rewrite <-elem_of_elements, E in Hp. by apply list_elem_of_singleton in Hp.
Qed.

(** C9: when every group shares at most one item, [main] gives the same
    result for every iteration order of the [HashSet]s. *)
Theorem main_order_independent order1 order2 input :
  valid_order order1 -> valid_order order2 -> badges_unique (lines input) = true ->
  main order1 input = main order2 input.
Proof.
  intros H1 H2. unfold main. generalize 0%N as acc. generalize (lines input) as ls.
  induction ls as [|l1|l1 l2|l1 l2 l3 rest IH] using list_triples_ind; intros acc Hu; try done.
  simpl in *. destruct (sack l1) as [a|], (sack l2) as [b|], (sack l3) as [c|]; try done.
  apply andb_prop in Hu as [Hs Hu]. apply bool_decide_eq_true in Hs.
  rewrite !group_value_badge by done.
  destruct (badge_value a b c) as [v|]; [|done]. destruct (checked_add 64 acc v); [by apply IH|done].
Qed.

(** ** [solve_for_group] *)

(** The item of a character. *)
Definition item_of (ch : ascii) : Item := mkItem (N_of_ascii ch).

Lemma sack_Some line a :
  sack line = Some a -> a = list_to_set (List.map item_of line).
Proof.
  unfold sack. destruct (mapM Item_from _) as [items|] eqn:E; [|done]. intros [= <-].
  f_equal. apply mapM_Some in E. revert items E.
  induction line as [|ch line IH]; intros items E; simpl in *; inversion E as [|? ? ? ? Hi Hr]; subst; [done|].
  unfold Item_from in Hi. destruct (_ || _); [|done]. injection Hi as <-. f_equal. by apply IH.
Qed.

Lemma item_of_elem line ch : item_of ch ∈ (list_to_set (List.map item_of line) : gset Item) <-> ch ∈ line.
Proof.
  rewrite elem_of_list_to_set, list_elem_of_fmap. split; [|eauto].
  intros (ch' & Heq & Hin). unfold item_of in Heq. injection Heq as Heq.
  apply (f_equal ascii_of_N) in Heq. rewrite !ascii_N_embedding in Heq. by subst.
Qed.

Lemma common_one (a b c : gset Item) x :
  elements (common a b c) = [x] -> forall y, y ∈ common a b c <-> y = x.
Proof. intros E y. by rewrite <-elem_of_elements, E, list_elem_of_singleton. Qed.

(** C17: when the three rucksacks of a group share exactly one item,
    [solve_for_group] finds its character and [main]'s search finds the
    same item, whatever the iteration order. *)
Theorem solve_for_group_agrees order l1 l2 l3 a b c :
  valid_order order -> sack l1 = Some a -> sack l2 = Some b -> sack l3 = Some c ->
  size (common a b c) = 1 ->
  exists ch, solve_for_group [l1; l2; l3] = Some ch /\
             group_value order a b c = priority (item_of ch).
Proof.
  intros Hord ->%sack_Some ->%sack_Some ->%sack_Some Hs.
  rewrite group_value_badge by (done || lia). unfold badge_value.
  assert (Hl : length (elements (common (list_to_set (List.map item_of l1))
            (list_to_set (List.map item_of l2)) (list_to_set (List.map item_of l3)))) = 1)
    by (unfold size, set_size in Hs; exact Hs).
  destruct (elements _) as [|x [|]] eqn:E; simpl in Hl; try lia.
  pose proof (common_one _ _ _ x E) as Hx. unfold common in Hx.
  assert (Hc : x ∈ (list_to_set (List.map item_of l3) : gset Item)) by (pose proof (proj2 (Hx x) eq_refl); set_solver).
  apply elem_of_list_to_set, list_elem_of_fmap in Hc as (ch0 & -> & Hch0).
  unfold solve_for_group; simpl.
  destruct (List.find _ l3) as [ch|] eqn:F.
  - exists ch. split; [done|]. apply find_some in F as [Hin Hp].
    rewrite andb_true_iff, !bool_decide_eq_true, !elem_of_list_to_set in Hp.
    rewrite <-list_elem_of_In in Hin. f_equal. symmetry. apply Hx.
    rewrite !elem_of_intersection, !item_of_elem. naive_solver.
  - exfalso. pose proof (find_none _ _ F ch0 (proj1 (list_elem_of_In _ _) Hch0)) as Hp.
    pose proof (proj2 (Hx (item_of ch0)) eq_refl) as Hi.
    rewrite !elem_of_intersection, !item_of_elem in Hi.
    rewrite andb_false_iff, !bool_decide_eq_false, !elem_of_list_to_set in Hp. naive_solver.
Qed.

(** ** Incomplete groups *)

Lemma sum_groups_app order ls rest acc :
  length ls mod 3 = 0 ->
  sum_groups order (ls ++ rest) acc = (r <-! sum_groups order ls acc ;; sum_groups order rest r).
Proof.
  revert acc. induction ls as [|l1|l1 l2|l1 l2 l3 ls IH] using list_triples_ind;
    intros acc Hl; simpl length in Hl; [done|vm_compute in Hl; done|vm_compute in Hl; done|].
  simpl. destruct (sack l1), (sack l2), (sack l3); try done; simpl.
  destruct (group_value _ _ _ _) as [v|]; [|done].
  destruct (checked_add 64 acc v); [|done]. apply IH.
  replace (S (S (S (length ls)))) with (length ls + 1 * 3) in Hl by lia.
  by rewrite Nat.Div0.mod_add in Hl.
Qed.

(** C33: the one or two lines after the last complete group of three are
    read (so a bad byte there still panics) and then ignored: [main]
    gives the same sum as without them. *)
Theorem sum_groups_drops_tail order ls rest :
  length ls mod 3 = 0 -> length rest < 3 -> Forall (fun l => is_Some (sack l)) rest ->
  sum_groups order (ls ++ rest) 0 = sum_groups order ls 0.
Proof.
  intros Hl Hr Hs. rewrite sum_groups_app by done.
  destruct (sum_groups order ls 0) as [v|]; [|done].
  destruct rest as [|l1 [|l2 [|l3 rest]]]; simpl in Hr; try lia; [done| |].
  - apply Forall_cons in Hs as [[a Ha] _]. simpl. by rewrite Ha.
  - apply Forall_cons in Hs as [[a Ha] Hs]. apply Forall_cons in Hs as [[b Hb] _].
    simpl. by rewrite Ha, Hb.
Qed.

(** ** Examples *)

(** Two iteration orders: the one [elements] gives and its reverse. *)
Definition forward_order (s : gset Item) : list Item := elements s.
Definition backward_order (s : gset Item) : list Item := rev (elements s).

Lemma forward_order_valid : valid_order forward_order.
Proof. intros s. done. Qed.

Lemma backward_order_valid : valid_order backward_order.
Proof. intros s. unfold backward_order. symmetry. apply Permutation_rev. Qed.

(** The example of the puzzle: the badges [r] and [Z] of its two groups. *)
Definition example_input : str := s2l "vJrwpWtwJgWrhcsFMMfFFhFp
jqHRNqRjqzjGDLGLrsFMfFZSrLrFZsSL
PmmdzqPrVvPwwTWBwg
wMqvLMZHhHMvwLHjbvcjnnSBnvTQFn
ttgJtRGJQctTZtZT
CrZsJsPPZsGzwwsLwLmpwMDw
".

(** An iteration order that lists [x] first when the set holds it. *)
Definition first_order (x : Item) (s : gset Item) : list Item :=
  if decide (x ∈ s) then x :: filter (fun z => z <> x) (elements s) else elements s.

Lemma filter_all {A} (P : A -> Prop) `{!forall x, Decision (P x)} l :
  Forall P l -> filter P l = l.
Proof. induction 1; [done|]. rewrite filter_cons_True by done. by f_equal. Qed.

Lemma first_order_valid x : valid_order (first_order x).
Proof.
  intros s. unfold first_order. case_decide as Hx; [|done].
  pose proof (NoDup_elements s) as Hnd.
  apply elem_of_elements, elem_of_Permutation in Hx as [k Hk].
  rewrite Hk in Hnd |- *. apply NoDup_cons in Hnd as [Hxk _].
  rewrite filter_cons_False by auto. rewrite filter_all; [done|].
  apply Forall_forall. intros z Hz ->. contradiction.
Qed.

Lemma group_value_first x a b c :
  x ∈ common a b c -> group_value (first_order x) a b c = priority x.
Proof.
  intros Hx. unfold group_value, first_order, common in *.
  rewrite decide_True by set_solver. simpl.
  rewrite !bool_decide_eq_true_2 by set_solver. done.
Qed.

Lemma sack_letters line a : sack line = Some a -> Forall (fun ch => is_letter (N_of_ascii ch)) line.
Proof.
  unfold sack. destruct (mapM _ _) as [items|] eqn:E; [intros _|done].
  apply mapM_Some in E. revert items E.
  induction line as [|ch line IH]; intros items E; [constructor|].
  inversion E as [|? ? ? ? Hi Hr]; subst. rewrite Item_from_spec in Hi.
  case_bool_decide; [|done]. constructor; [done|]. by eapply IH.
Qed.

Lemma sack_plain line a : sack line = Some a -> plain_line line.
Proof.
  intros Hl%sack_letters. split.
  - intros Hin. rewrite Forall_forall in Hl. specialize (Hl _ Hin).
    change (N_of_ascii "010") with 10%N in Hl. unfold is_letter in Hl. lia.
  - intros Hlast. apply last_Some in Hlast as [l' ->].
    apply Forall_app in Hl as [_ Hl]. inversion Hl as [|? ? Hc]; subst.
    change (N_of_ascii "013") with 13%N in Hc. unfold is_letter in Hc. lia.
Qed.

Lemma sack_items line a i : sack line = Some a -> i ∈ a -> is_letter (item_byte i).
Proof.
  intros Hs Hi. pose proof (sack_letters _ _ Hs) as Hl. apply sack_Some in Hs as ->.
  apply elem_of_list_to_set, list_elem_of_fmap in Hi as (ch & -> & Hch).
  rewrite Forall_forall in Hl. by apply Hl.
Qed.

(** One group of three rucksacks: [main] adds the value of the group. *)
Lemma main_one_group order l1 l2 l3 a b c v :
  sack l1 = Some a -> sack l2 = Some b -> sack l3 = Some c ->
  group_value order a b c = Some v -> (v <= 52)%N ->
  main order (unlines [l1; l2; l3]) = Some v.
Proof.
  intros H1 H2 H3 Hv Hle. unfold main.
  rewrite lines_unlines
    by repeat first [apply Forall_nil_2 | apply Forall_cons_2; [eauto using sack_plain|]].
  simpl. rewrite H1, H2, H3. simpl. rewrite Hv. simpl.
  rewrite checked_add_Some; [done|]. unfold modulus. lia.
Qed.

(** C32: whenever the three rucksacks of a group share two items or
    more, the sum [main] prints depends on the [HashSet] iteration order:
    two valid orders give two different answers.  With the order
    independence above, the answer is independent of the order exactly
    when no group shares more than one item. *)
Theorem main_order_dependent l1 l2 l3 a b c :
  sack l1 = Some a -> sack l2 = Some b -> sack l3 = Some c -> 1 < size (common a b c) ->
  exists order1 order2, valid_order order1 /\ valid_order order2 /\
    main order1 (unlines [l1; l2; l3]) <> main order2 (unlines [l1; l2; l3]).
Proof.
  intros H1 H2 H3 Hs.
  assert (Hl : 1 < length (elements (common a b c))) by (unfold size, set_size in Hs; exact Hs).
  destruct (elements (common a b c)) as [|x [|y l]] eqn:E; simpl in Hl; [lia|lia|].
  assert (Hnd := NoDup_elements (common a b c)). rewrite E in Hnd.
  apply NoDup_cons in Hnd as [Hxy _].
  assert (Hx : x ∈ common a b c) by (rewrite <-elem_of_elements, E; left).
  assert (Hy : y ∈ common a b c) by (rewrite <-elem_of_elements, E; right; left).
  assert (Hla : forall i, i ∈ common a b c -> is_letter (item_byte i))
    by (intros i Hi; apply (sack_items l1 a); [done|unfold common in Hi; set_solver]).
  destruct x as [bx], y as [by_].
  pose proof (Hla _ Hx) as Lx. pose proof (Hla _ Hy) as Ly. simpl in Lx, Ly.
  exists (first_order (mkItem bx)), (first_order (mkItem by_)).
  split; [apply first_order_valid|]. split; [apply first_order_valid|].
  pose proof (group_value_first _ _ _ _ Hx) as Gx. pose proof (group_value_first _ _ _ _ Hy) as Gy.
  rewrite priority_letter in Gx, Gy by done.
  rewrite (main_one_group _ _ _ _ _ _ _ _ H1 H2 H3 Gx), (main_one_group _ _ _ _ _ _ _ _ H1 H2 H3 Gy)
    by (unfold is_letter in *; reflect_N; lia).
  intros [= Heq]. apply Hxy, elem_of_cons. left. f_equal. revert Heq. unfold is_letter in *. reflect_N; lia.
Qed.

(** ** Witnesses *)

Lemma priority_alphabet_witness :
  alphabet !! 25 = Some "z"%char /\ priority (mkItem (N_of_ascii "z")) = Some 26%N.
Proof. split; [reflexivity|]. apply (priority_alphabet 25). reflexivity. Defined.

Lemma priority_range_inj_witness :
  Item_from 97 = Some (mkItem 97) /\ Item_from 90 = Some (mkItem 90) /\
  ((exists p, priority (mkItem 97) = Some p /\ (1 <= p <= 52)%N) /\
   (priority (mkItem 97) = priority (mkItem 90) -> mkItem 97 = mkItem 90)).
Proof. split; [reflexivity|split; [reflexivity|]]. apply (priority_range_inj 97 90); reflexivity. Defined.

Lemma main_order_independent_witness :
  badges_unique (lines example_input) = true /\
  main forward_order example_input = Some 70%N /\
  main forward_order example_input = main backward_order example_input.
Proof.
  split; [vm_compute; reflexivity|]. split; [vm_compute; reflexivity|].
  apply main_order_independent;
    [apply forward_order_valid|apply backward_order_valid|vm_compute; reflexivity].
Defined.

Lemma solve_for_group_agrees_witness :
  let l1 := s2l "vJrwpWtwJgWrhcsFMMfFFhFp" in
  let l2 := s2l "jqHRNqRjqzjGDLGLrsFMfFZSrLrFZsSL" in
  let l3 := s2l "PmmdzqPrVvPwwTWBwg" in
  let a : gset Item := list_to_set (List.map item_of l1) in
  let b : gset Item := list_to_set (List.map item_of l2) in
  let c : gset Item := list_to_set (List.map item_of l3) in
  sack l1 = Some a /\ sack l2 = Some b /\ sack l3 = Some c /\ size (common a b c) = 1 /\
  solve_for_group [l1; l2; l3] = Some "r"%char /\
  exists ch, solve_for_group [l1; l2; l3] = Some ch /\
             group_value forward_order a b c = priority (item_of ch).
Proof.
  intros l1 l2 l3 a b c.
  do 5 (split; [vm_compute; reflexivity|]).
  apply (solve_for_group_agrees forward_order l1 l2 l3 a b c);
    [apply forward_order_valid|vm_compute; reflexivity..].
Defined.

Lemma sum_groups_drops_tail_witness :
  length [s2l "ab"; s2l "bc"; s2l "bd"] mod 3 = 0 /\ length [s2l "xy"] < 3 /\
  Forall (fun l => is_Some (sack l)) [s2l "xy"] /\
  sum_groups forward_order ([s2l "ab"; s2l "bc"; s2l "bd"] ++ [s2l "xy"]) 0 = Some 2%N.
Proof.
  split; [reflexivity|]. split; [simpl; lia|].
  assert (Hs : Forall (fun l => is_Some (sack l)) [s2l "xy"]) by (repeat constructor; eexists; reflexivity).
  split; [exact Hs|].
  rewrite (sum_groups_drops_tail forward_order [s2l "ab"; s2l "bc"; s2l "bd"] [s2l "xy"]);
    [vm_compute; reflexivity|reflexivity|simpl; lia|exact Hs].
Defined.

Lemma main_order_dependent_witness :
  sack (s2l "ab") = Some (list_to_set (List.map item_of (s2l "ab"))) /\
  1 < size (common (list_to_set (List.map item_of (s2l "ab")))
                   (list_to_set (List.map item_of (s2l "ab")))
                   (list_to_set (List.map item_of (s2l "ab")))) /\
  exists order1 order2, valid_order order1 /\ valid_order order2 /\
    main order1 (unlines [s2l "ab"; s2l "ab"; s2l "ab"]) <>
    main order2 (unlines [s2l "ab"; s2l "ab"; s2l "ab"]).
Proof.
  assert (H : sack (s2l "ab") = Some (list_to_set (List.map item_of (s2l "ab")))) by (vm_compute; reflexivity).
  assert (Hs : 1 < size (common (list_to_set (List.map item_of (s2l "ab")))
                   (list_to_set (List.map item_of (s2l "ab")))
                   (list_to_set (List.map item_of (s2l "ab"))))) by (vm_compute; lia).
  split; [exact H|]. split; [exact Hs|]. exact (main_order_dependent _ _ _ _ _ _ H H H Hs).
Defined.

End Day03.
