(* ===== verification/Day01.v ===== *)
(** * Day 01: calorie counting

    [src/day_01/src/main.rs].  [main] reads the lines, parses each as a
    [u64] ([.ok()]: a line that is not a number, a blank line included,
    becomes [None]), groups the numbers into blocks with itertools
    [batching], sorts the block sums, and adds the three largest.

    The closure given to [batching] adds numbers until [iter.next()]
    returns something other than [Some(Some(v))]; that element is
    consumed.  [batching] stops the first time the closure returns
    [None], that is when the first element it reads is not a number or
    there is none.  [block_sum] below is the closure; [batching] runs it
    with fuel, and [batching_fuel] shows that the length of the input
    plus one is always enough.

    The theorems show that an input written as blocks separated by one
    blank line is read back as its block sums, that the answer is the
    largest sum of three blocks, and where the code stops early: a
    second blank line, or any line that is not a [u64], ends the
    batching and the remaining blocks are ignored; and exactly when it
    panics on a [u64] overflow. *)

From stdpp Require Import sorting.
From S2P Require Import Prelude RustStd.

Module Day01.

(** [v.parse::<u64>().ok()] *)
Definition parse_line (v : str) : option N := ok (from_str_uint 64 v).

(** The closure of [batching]: [block_sum] starts at [None] and becomes
    [Some(block_sum.unwrap_or(0) + v)] for each number, the [u64]
    addition panicking on overflow; it returns the sum and what is left
    of the iterator. *)
Fixpoint block_sum (iter : list (option N)) (acc : option N) :
    option (option N * list (option N)) :=
  match iter with
  | Some v :: rest =>
      s <-! checked_add 64 (default 0%N acc) v ;;
      block_sum rest (Some s)
  | None :: rest => Some (acc, rest)
  | [] => Some (acc, [])
  end.

(** [Batching::next] until the closure returns [None], with fuel. *)
Fixpoint batching (fuel : nat) (iter : list (option N)) : option (list N) :=
  match fuel with
  | O => Some []
  | S fuel =>
      r <-! block_sum iter None ;;
      match r.1 with
      | None => Some []
      | Some s => rest <-! batching fuel r.2 ;; Some (s :: rest)
      end
  end.

(** [Iterator::sum::<u64>()]: a left fold of the debug-build [+]. *)
Fixpoint sum_u64 (acc : N) (l : list N) : option N :=
  match l with
  | [] => Some acc
  | x :: rest => acc' <-! checked_add 64 acc x ;; sum_u64 acc' rest
  end.

(** [.sorted()]: ascending order.  The sorted permutation of a list of
    numbers is unique ([Sorted_unique]), so the algorithm of [sorted]
    does not matter and stdpp's merge sort stands for it. *)
Definition sorted (l : list N) : list N := merge_sort N.le l.

(** [fn main()]: the printed [answer]. *)
Definition main (input : str) : option N :=
  let iter := List.map parse_line (lines input) in
  blocks <-! batching (S (length iter)) iter ;;
  sum_u64 0 (take 3 (rev (sorted blocks))).

(** ** Termination of [batching] *)

(** A call of the closure that returns a sum has consumed at least one
    element. *)
Lemma block_sum_consumes iter acc o rest :
  block_sum iter acc = Some (o, rest) ->
  length rest < length iter \/ (iter = [] /\ rest = [] /\ o = acc).
Proof.
  revert acc. induction iter as [|[v|] iter IH]; intros acc; simpl.
  - intros [= <- <-]. by right.
  - destruct (checked_add _ _ _) as [s|]; [|done]. intros H.
    destruct (IH _ H) as [?|(-> & -> & _)]; left; simpl; lia.
  - intros [= <- <-]. left. lia.
Qed.

(** C18: [batching] stops within the length of the iterator: any fuel
    beyond that length gives the same result. *)
Theorem batching_fuel fuel iter :
  length iter < fuel -> batching fuel iter = batching (S (length iter)) iter.
Proof.
  revert fuel. induction iter as [iter IH] using (induction_ltof1 _ (@length _)); unfold ltof in IH.
  intros [|fuel] Hf; [lia|]. simpl.
  destruct (block_sum iter None) as [[[s|] rest]|] eqn:E; simpl; [|done|done].
  destruct (block_sum_consumes _ _ _ _ E) as [Hlt|(_ & _ & ?)]; [|done].
  rewrite (IH rest Hlt fuel), (IH rest Hlt (length iter)) by lia. done.
Qed.

(** ** The three largest sums *)

(** The sum of a list of numbers, without a width. *)
Definition sumN (l : list N) : N := foldr N.add 0%N l.

#[export] Instance sumN_proper : Proper ((≡ₚ) ==> (=)) sumN.
Proof. intros l1 l2 Hp. induction Hp; simpl; lia. Qed.

Lemma sumN_app l1 l2 : sumN (l1 ++ l2) = (sumN l1 + sumN l2)%N.
Proof. induction l1; simpl; lia. Qed.

Lemma sumN_submseteq k l : k ⊆+ l -> (sumN k <= sumN l)%N.
Proof. intros (k' & ->)%submseteq_Permutation. rewrite sumN_app. lia. Qed.

(** The [u64] sum is the sum while it fits. *)
Lemma sum_u64_sumN acc l : (acc + sumN l < modulus 64)%N -> sum_u64 acc l = Some (acc + sumN l)%N.
Proof.
  revert acc. induction l as [|x l IH]; intros acc Hb; simpl in *; [f_equal; lia|].
  rewrite checked_add_Some by lia. rewrite IH by lia. f_equal. lia.
Qed.

(** A list in descending order. *)
Definition descending (l : list N) : Prop := StronglySorted (fun a b => b <= a)%N l.

Lemma take_S_le_head x d n :
  Forall (fun y => y <= x)%N d -> (sumN (take (S n) d) <= x + sumN (take n d))%N.
Proof.
  revert n. induction d as [|y d IH]; intros n Hd; simpl; [lia|].
  apply Forall_cons in Hd as [Hy Hd]. destruct n as [|n]; simpl; [lia|].
  specialize (IH n Hd). lia.
Qed.

(** The first [n] elements of a descending list have the largest sum
    of any [n] of its elements. *)
Lemma take_descending_max d n k :
  descending d -> k ⊆+ d -> length k <= n -> (sumN k <= sumN (take n d))%N.
Proof.
  revert n k. induction d as [|x d IH]; intros n k Hd Hk Hl.
  { apply submseteq_nil_r in Hk as ->. simpl. lia. }
  apply StronglySorted_inv in Hd as [Hd Hx].
  destruct n as [|n]; [destruct k; simpl in *; [lia|lia]|].
  apply submseteq_cons_r in Hk as [Hk|(k' & Hp & Hk)].
  - pose proof (IH (S n) k Hd Hk Hl). pose proof (take_S_le_head x d n Hx). simpl. lia.
  - rewrite Hp. apply Permutation_length in Hp. simpl in *.
    pose proof (IH n k' Hd Hk ltac:(lia)). lia.
Qed.

Lemma rev_sorted_descending l : descending (rev (sorted l)).
Proof.
  unfold descending, sorted. rewrite rev_alt.
  apply Sorted_StronglySorted; [intros a b c; lia|].
  change (Sorted (flip N.le) (reverse (merge_sort N.le l))).
  apply Sorted_reverse, Sorted_merge_sort. apply _.
Qed.

Lemma rev_sorted_Permutation l : rev (sorted l) ≡ₚ l.
Proof. unfold sorted. rewrite <-Permutation_rev. apply merge_sort_Permutation. Qed.

(** The three largest of [l]: a part of [l] of [min 3 (length l)]
    numbers whose sum no three numbers of [l] exceed. *)
Definition top_three (l t : list N) : Prop :=
  t ⊆+ l /\ length t = Nat.min 3 (length l) /\
  forall k, k ⊆+ l -> length k <= 3 -> (sumN k <= sumN t)%N.

Lemma take_sorted_top_three l : top_three l (take 3 (rev (sorted l))).
Proof.
  pose proof (rev_sorted_Permutation l) as Hp. split; [|split].
  - rewrite <-Hp at 2. apply submseteq_take.
  - rewrite length_take, (Permutation_length Hp). lia.
  - intros k Hk Hl. apply take_descending_max; [apply rev_sorted_descending| |done].
    by rewrite Hp.
Qed.

(** ** Reading an input of blocks *)

(** The lines of an input made of the given blocks, one number per
    line and one blank line between two blocks. *)
Fixpoint elf_lines (elves : list (list N)) : list str :=
  match elves with
  | [] => []
  | [e] => List.map show_N e
  | e :: rest => List.map show_N e ++ [] :: elf_lines rest
  end.

Definition render (elves : list (list N)) : str := unlines (elf_lines elves).

(** What [.map(|v| v.parse::<u64>().ok())] makes of those lines. *)
Fixpoint elf_iter (elves : list (list N)) : list (option N) :=
  match elves with
  | [] => []
  | [e] => List.map Some e
  | e :: rest => List.map Some e ++ None :: elf_iter rest
  end.

(** Where [batching] stops after the last block: at the end of the
    input, after one last blank line, or at a second blank line. *)
Definition stop_tail (tail : list (option N)) : Prop :=
  tail = [] \/ tail = [None] \/ exists rest, tail = None :: None :: rest.

Lemma elf_lines_plain elves : Forall plain_line (elf_lines elves).
Proof.
  assert (Hs : forall e, Forall plain_line (List.map show_N e)).
  { intros e. apply Forall_fmap, Forall_forall. intros n _. apply show_N_plain. }
  induction elves as [|e [|e2 rest] IH]; [constructor|apply Hs|].
  change (Forall plain_line (List.map show_N e ++ [] :: elf_lines (e2 :: rest))).
  apply Forall_app. split; [apply Hs|]. constructor; [|done]. split; [apply not_elem_of_nil|done].
Qed.

Lemma sumN_concat elves : sumN (concat elves) = sumN (List.map sumN elves).
Proof. induction elves as [|e elves IH]; simpl; [done|]. rewrite sumN_app. lia. Qed.

Lemma elem_le_sumN n l : n ∈ l -> (n <= sumN l)%N.
Proof.
  induction l as [|x l IH]; simpl; [by intros ?%elem_of_nil|].
  intros [->|Hin]%elem_of_cons; [lia|]. specialize (IH Hin). lia.
Qed.

(** Every number of the blocks fits in a [u64]. *)
Definition numbers_fit (elves : list (list N)) : Prop :=
  Forall (Forall (fun n => n < modulus 64)%N) elves.

Lemma sum_bound_numbers_fit elves : (sumN (concat elves) < modulus 64)%N -> numbers_fit elves.
Proof.
  intros Hb. apply Forall_forall. intros e He. apply Forall_forall. intros n Hn.
  enough (n <= sumN (concat elves))%N by lia.
  clear Hb. induction elves as [|e0 elves IH]; [by apply elem_of_nil in He|].
  simpl. rewrite sumN_app. apply elem_of_cons in He as [->|He].
  - pose proof (elem_le_sumN n e0 Hn). lia.
  - specialize (IH He). lia.
Qed.

Lemma sum_bound_blocks_fit elves :
  (sumN (concat elves) < modulus 64)%N -> Forall (fun e => sumN e < modulus 64)%N elves.
Proof.
  induction elves as [|e elves IH]; simpl; [constructor|]. rewrite sumN_app. intros Hb.
  constructor; [lia|]. apply IH. lia.
Qed.

Lemma parse_elf_lines elves :
  numbers_fit elves -> List.map parse_line (elf_lines elves) = elf_iter elves.
Proof.
  intros Hn. assert (Hm : forall e, Forall (fun n => n < modulus 64)%N e ->
             List.map parse_line (List.map show_N e) = List.map Some e).
  { intros e He. rewrite List.map_map. apply map_ext_in. intros n Hin%list_elem_of_In.
    unfold parse_line. rewrite from_str_uint_show; [done|]. rewrite Forall_forall in He. by apply He. }
  induction elves as [|e [|e2 rest] IH]; [done|by apply Hm; inversion Hn|].
  apply Forall_cons in Hn as [He Hn].
  change (List.map parse_line (List.map show_N e ++ [] :: elf_lines (e2 :: rest)) =
          List.map Some e ++ None :: elf_iter (e2 :: rest)).
  by rewrite List.map_app, List.map_cons, Hm, IH.
Qed.

(** One block of numbers, read by the closure. *)
Lemma block_sum_block e tail acc :
  (default 0 acc + sumN e < modulus 64)%N ->
  block_sum (List.map Some e ++ tail) acc =
  block_sum tail (match e with [] => acc | _ => Some (default 0 acc + sumN e) end)%N.
Proof.
  revert acc. induction e as [|v e IH]; intros acc Hb; simpl in *; [done|].
  rewrite checked_add_Some by lia. rewrite IH by (simpl; lia).
  destruct e; simpl; do 2 f_equal; lia.
Qed.

(** [batching] reads back the sums of the blocks, up to a stopping
    tail. *)
Lemma batching_elves elves tail fuel :
  Forall (fun e => e <> []) elves -> Forall (fun e => sumN e < modulus 64)%N elves ->
  stop_tail tail -> length elves < fuel ->
  batching fuel (elf_iter elves ++ tail) = Some (List.map sumN elves).
Proof.
  intros Hne Hb Ht Hf. revert fuel Hne Hb Hf.
  induction elves as [|e [|e2 rest] IH]; intros [|fuel] Hne Hb Hf; simpl in Hf; try lia.
  - simpl. by destruct Ht as [->|[->|[? ->]]].
  - apply Forall_cons in Hb as [Hb _]. apply Forall_cons in Hne as [He _].
    cbn [elf_iter batching]. rewrite block_sum_block by (simpl; lia).
    destruct e as [|v e]; [done|]. cbn [default].
    destruct Ht as [->|[->|[X ->]]]; simpl; destruct fuel; simpl; do 3 f_equal; lia.
  - apply Forall_cons in Hb as [Hb Hbs]. apply Forall_cons in Hne as [He Hne].
    change (elf_iter (e :: e2 :: rest)) with (List.map Some e ++ None :: elf_iter (e2 :: rest)).
    rewrite <-app_assoc. cbn [batching app]. rewrite block_sum_block by (simpl; lia).
    destruct e as [|v e]; [done|]. cbn [block_sum fst snd default].
    rewrite IH by (done || lia || (simpl; lia)). simpl. do 3 f_equal; lia.
Qed.

(** A block whose running sum passes [u64::MAX] panics in the closure. *)
Lemma block_sum_block_overflow e tail acc :
  (default 0 acc < modulus 64)%N -> (modulus 64 <= default 0 acc + sumN e)%N ->
  block_sum (List.map Some e ++ tail) acc = None.
Proof.
  revert acc. induction e as [|v e IH]; intros acc Hacc Hb; simpl in *; [lia|].
  destruct (N.ltb_spec (default 0%N acc + v) (modulus 64)).
  - rewrite checked_add_Some by done. simpl. apply IH; simpl; lia.
  - by rewrite checked_add_None by lia.
Qed.

(** [batching] panics at the first block whose sum does not fit. *)
Lemma batching_elves_overflow elves tail fuel :
  Forall (fun e => e <> []) elves -> Exists (fun e => modulus 64 <= sumN e)%N elves ->
  length elves < fuel -> batching fuel (elf_iter elves ++ tail) = None.
Proof.
  pose proof (modulus_pos 64).
  intros Hne Hex. revert fuel Hne.
  induction elves as [|e [|e2 rest] IH]; intros [|fuel] Hne Hf; simpl in Hf; try lia;
    [by inversion Hex| |].
  - apply Exists_cons in Hex as [Hex|Hex]; [|by inversion Hex].
    cbn [elf_iter batching]. by rewrite block_sum_block_overflow by (simpl; lia).
  - apply Forall_cons in Hne as [He Hne].
    change (elf_iter (e :: e2 :: rest)) with (List.map Some e ++ None :: elf_iter (e2 :: rest)).
    rewrite <-app_assoc. cbn [batching app].
    destruct (N.ltb_spec (sumN e) (modulus 64)) as [Hb|Hb].
    + apply Exists_cons in Hex as [?|Hex]; [lia|].
      rewrite block_sum_block by (simpl; lia).
      destruct e as [|v e]; [done|]. cbn [block_sum fst snd default].
      rewrite (IH Hex fuel Hne) by (simpl; lia). done.
    + by rewrite block_sum_block_overflow by (simpl; lia).
Qed.

Lemma elf_iter_length elves : Forall (fun e => e <> []) elves -> length elves <= length (elf_iter elves).
Proof.
  induction elves as [|e [|e2 rest] IH]; intros Hne; [simpl; lia| |].
  - apply Forall_cons in Hne as [He _]. destruct e; [done|]. simpl. lia.
  - apply Forall_cons in Hne as [He Hne]. specialize (IH Hne).
    change (elf_iter (e :: e2 :: rest)) with (List.map Some e ++ None :: elf_iter (e2 :: rest)).
    rewrite length_app, length_map. simpl in *. lia.
Qed.

(** The [u64] sum panics once the total passes [u64::MAX]. *)
Lemma sum_u64_overflow acc l :
  (acc < modulus 64)%N -> (modulus 64 <= acc + sumN l)%N -> sum_u64 acc l = None.
Proof.
  revert acc. induction l as [|x l IH]; intros acc Hacc Hb; simpl in *; [lia|].
  destruct (N.ltb_spec (acc + x) (modulus 64)).
  - rewrite checked_add_Some by done. simpl. apply IH; lia.
  - by rewrite checked_add_None by lia.
Qed.

(** On blocks that each fit, [main] adds the three largest sums. *)
Lemma main_blocks elves :
  Forall (fun e => e <> []) elves -> numbers_fit elves ->
  Forall (fun e => sumN e < modulus 64)%N elves ->
  main (render elves) = sum_u64 0 (take 3 (rev (sorted (List.map sumN elves)))).
Proof.
  intros Hne Hn Hb. unfold main, render. cbv zeta.
  rewrite lines_unlines by apply elf_lines_plain. rewrite parse_elf_lines by done.
  pose proof (elf_iter_length elves Hne).
  rewrite <-(app_nil_r (elf_iter elves)) at 2.
  rewrite batching_elves by (done || (by left) || lia). done.
Qed.

Lemma main_blocks_overflow elves :
  Forall (fun e => e <> []) elves -> numbers_fit elves ->
  Exists (fun e => modulus 64 <= sumN e)%N elves -> main (render elves) = None.
Proof.
  intros Hne Hn Hex. unfold main, render. cbv zeta.
  rewrite lines_unlines by apply elf_lines_plain. rewrite parse_elf_lines by done.
  pose proof (elf_iter_length elves Hne).
  rewrite <-(app_nil_r (elf_iter elves)) at 2.
  rewrite batching_elves_overflow by (done || lia). done.
Qed.

(** C6: on an input of non-empty blocks separated by one blank line,
    whose numbers add up to less than [2^64], [main] prints the sum of
    the three largest block sums: a choice [t] of [min 3 n] of the
    blocks' sums such that no three blocks add up to more. *)
Theorem main_top_three elves :
  Forall (fun e => e <> []) elves -> (sumN (concat elves) < modulus 64)%N ->
  exists t, main (render elves) = Some (sumN t) /\ top_three (List.map sumN elves) t.
Proof.
  intros Hne Hb.
  rewrite main_blocks by auto using sum_bound_numbers_fit, sum_bound_blocks_fit.
  exists (take 3 (rev (sorted (List.map sumN elves)))).
  pose proof (take_sorted_top_three (List.map sumN elves)) as Ht. split; [|done].
  destruct Ht as [Hsub _]. apply sumN_submseteq in Hsub. rewrite <-sumN_concat in Hsub.
  rewrite sum_u64_sumN by lia. f_equal.
Qed.

(** C31: a second blank line ends the reading: whatever follows it, even
    more blocks, [main] prints the same answer as without it. *)
Theorem main_stops_at_double_blank elves rest :
  Forall (fun e => e <> []) elves -> (sumN (concat elves) < modulus 64)%N ->
  main (render elves ++ s2l "

" ++ rest) = main (render elves).
Proof.
  intros Hne Hb. pose proof (sum_bound_numbers_fit _ Hb) as Hn. apply sum_bound_blocks_fit in Hb.
  unfold main, render. cbv zeta.
  rewrite lines_unlines_app, lines_unlines by apply elf_lines_plain.
  rewrite List.map_app, parse_elf_lines by done.
  pose proof (elf_iter_length elves Hne).
  assert (Hbat : batching (S (length (elf_iter elves))) (elf_iter elves) = Some (List.map sumN elves)).
  { rewrite <-(app_nil_r (elf_iter elves)) at 2. apply batching_elves; (done || (by left) || lia). }
  rewrite Hbat, batching_elves; [done|done|done| |rewrite length_app; lia].
  right; right. eexists. reflexivity.
Qed.

(** C38: on an input of non-empty blocks of [u64] numbers, [main] panics
    exactly when the running sum of some block passes [u64::MAX]
    ([block_sum.unwrap_or(0) + v]) or some three blocks add up past it
    (the final [sum::<u64>()] of the three largest). *)
Theorem main_overflow elves :
  Forall (fun e => e <> []) elves -> numbers_fit elves ->
  main (render elves) = None <->
  Exists (fun e => modulus 64 <= sumN e)%N elves \/
  exists k, k ⊆+ List.map sumN elves /\ length k <= 3 /\ (modulus 64 <= sumN k)%N.
Proof.
  intros Hne Hn.
  destruct (decide (Exists (fun e => modulus 64 <= sumN e)%N elves)) as [Hex|Hfit].
  { rewrite main_blocks_overflow by done. split; [by left|done]. }
  assert (Hb : Forall (fun e => sumN e < modulus 64)%N elves).
  { apply not_Exists_Forall in Hfit; [|apply _]. eapply Forall_impl; [exact Hfit|]. simpl. lia. }
  rewrite main_blocks by done.
  destruct (take_sorted_top_three (List.map sumN elves)) as (Hsub & Hlen & Hmax).
  split.
  - intros Hnone. right. eexists. split; [exact Hsub|]. split; [rewrite length_take; lia|].
    destruct (N.ltb_spec (sumN (take 3 (rev (sorted (List.map sumN elves))))) (modulus 64)); [|done].
    by rewrite sum_u64_sumN in Hnone.
  - intros [?|(k & Hk & Hl & Hbig)]; [done|].
    apply sum_u64_overflow; [apply modulus_pos|]. specialize (Hmax k Hk Hl). lia.
Qed.

(** ** Witnesses *)

(** The example of the puzzle: five blocks, the largest three add up to
    [24000 + 11000 + 10000]. *)
Definition example_elves : list (list N) :=
  [[1000; 2000; 3000]; [4000]; [5000; 6000]; [7000; 8000; 9000]; [10000]]%N.

Lemma main_top_three_witness :
  render example_elves = s2l "1000
2000
3000

4000

5000
6000

7000
8000
9000

10000
" /\
  Forall (fun e => e <> []) example_elves /\ (sumN (concat example_elves) < modulus 64)%N /\
  main (render example_elves) = Some 45000%N /\
  exists t, main (render example_elves) = Some (sumN t) /\ top_three (List.map sumN example_elves) t.
Proof.
  assert (Hne : Forall (fun e => e <> []) example_elves) by (repeat constructor; discriminate).
  assert (Hb : (sumN (concat example_elves) < modulus 64)%N) by (vm_compute; reflexivity).
  split; [reflexivity|]. split; [exact Hne|]. split; [exact Hb|]. split; [vm_compute; reflexivity|].
  exact (main_top_three example_elves Hne Hb).
Defined.

Lemma main_stops_at_double_blank_witness :
  Forall (fun e => e <> []) [[1]; [2]]%N /\ (sumN (concat [[1]; [2]]%N) < modulus 64)%N /\
  main (render [[1]; [2]]%N ++ s2l "

" ++ s2l "3
") = Some 3%N /\
  main (render [[1]; [2]]%N ++ s2l "

" ++ s2l "3
") = main (render [[1]; [2]]%N).
Proof.
  assert (Hne : Forall (fun e => e <> []) [[1]; [2]]%N) by (repeat constructor; discriminate).
  assert (Hb : (sumN (concat [[1]; [2]]%N) < modulus 64)%N) by (vm_compute; reflexivity).
  split; [exact Hne|]. split; [exact Hb|]. split; [vm_compute; reflexivity|].
  exact (main_stops_at_double_blank _ _ Hne Hb).
Defined.

Lemma batching_fuel_witness :
  length [Some 1; None; Some 2]%N < 10 /\
  batching 10 [Some 1; None; Some 2]%N = Some [1; 2]%N /\
  batching 10 [Some 1; None; Some 2]%N = batching 4 [Some 1; None; Some 2]%N.
Proof.
  split; [simpl; lia|]. split; [reflexivity|]. apply (batching_fuel 10). simpl. lia.
Defined.

(** Two blocks that each fit but add up to [2^64]. *)
Lemma main_overflow_witness :
  Forall (fun e => e <> []) [[18446744073709551615]; [1]]%N /\
  numbers_fit [[18446744073709551615]; [1]]%N /\
  main (render [[18446744073709551615]; [1]]%N) = None /\
  (main (render [[18446744073709551615]; [1]]%N) = None <->
   Exists (fun e => modulus 64 <= sumN e)%N [[18446744073709551615]; [1]]%N \/
   exists k, k ⊆+ List.map sumN [[18446744073709551615]; [1]]%N /\ length k <= 3 /\
     (modulus 64 <= sumN k)%N).
Proof.
  assert (Hne : Forall (fun e => e <> []) [[18446744073709551615]; [1]]%N)
    by (repeat constructor; discriminate).
  assert (Hn : numbers_fit [[18446744073709551615]; [1]]%N)
    by (repeat constructor; vm_compute; reflexivity).
  split; [exact Hne|]. split; [exact Hn|]. split; [vm_compute; reflexivity|].
  exact (main_overflow _ Hne Hn).
Defined.

End Day01.
